(** * careermatch: the fit-assessment pipeline, embedded and verified

    A shallow embedding of the Python sources

      - [app/utility.py]      text helpers ([html_escape], [normalize_spaced_text], ...)
      - [app/core.py]         domain models, [decide_ui], [render_report_html]
      - [app/web_helpers.py]  [extract_json_safely], [compute_fit_score], [process_job]
      - [app/webapp.py]       [set_status], [run_job]

    Conventions.  A Python [str] is a list of Unicode code points ([list N]);
    [raise] is the [Raise] constructor of [result]; code that touches the
    file system, the job table or the LLM client is a state transformer over
    [world].  Python's [float] is reached through the [Arith] interface, with
    two instances: exact rationals (on which the general theorems are proved)
    and IEEE-754 binary64 (Rocq's primitive floats, used to run the scorer). *)

From Stdlib Require Import ZArith QArith Qround Floats Ascii String Lia Lqa.
From stdpp Require Import gmap list pretty.

#[local] Set Warnings "-register-all".

Local Open Scope nat_scope.
Local Open Scope list_scope.

(** ** Python strings *)

Definition char := N.
Abbreviation pystr := (list char).

Definition chr (a : ascii) : char := N_of_ascii a.

(** An ASCII literal as a Python string. *)
Definition lit (s : string) : pystr := map chr (list_ascii_of_string s).

Definition ch_eqb (a : ascii) (c : char) : bool := N.eqb c (chr a).

Definition in_range (lo hi c : N) : bool := (N.leb lo c && N.leb c hi)%bool.

(** [Py_UNICODE_ISSPACE]: what [str.strip()] strips and what [\s] matches in
    a [str] pattern. *)
Definition is_space (c : char) : bool :=
  (in_range 9 13 c || in_range 28 32 c || N.eqb c 133 || N.eqb c 160
   || N.eqb c 5760 || in_range 8192 8202 c || N.eqb c 8232 || N.eqb c 8233
   || N.eqb c 8239 || N.eqb c 8287 || N.eqb c 12288)%bool.

(** The character class [[A-Za-zÀ-ÖØ-öø-ÿ0-9]] of [normalize_spaced_text]. *)
Definition is_alnum (c : char) : bool :=
  (in_range 65 90 c || in_range 97 122 c || in_range 192 214 c
   || in_range 216 246 c || in_range 248 255 c || in_range 48 57 c)%bool.

(** Length of the longest prefix whose characters satisfy [p]. *)
Fixpoint span_len (p : char -> bool) (s : pystr) : nat :=
  match s with
  | c :: s' => if p c then S (span_len p s') else 0
  | [] => 0
  end.

Definition lstrip (s : pystr) : pystr := drop (span_len is_space s) s.
Definition rstrip (s : pystr) : pystr := rev (lstrip (rev s)).

(** [s.strip()] *)
Definition strip (s : pystr) : pystr := rstrip (lstrip s).

Fixpoint starts_with (pre s : pystr) : bool :=
  match pre, s with
  | [], _ => true
  | a :: pre', b :: s' => (N.eqb a b && starts_with pre' s')%bool
  | _ :: _, [] => false
  end.

(** [s.replace(old, new)] for a non-empty [old]: non-overlapping occurrences,
    leftmost first.  [skip] counts the characters of an occurrence still to
    be passed over. *)
Fixpoint replace_from (old new s : pystr) (skip : nat) : pystr :=
  match s with
  | [] => []
  | c :: s' =>
      match skip with
      | S k => replace_from old new s' k
      | 0 =>
          if starts_with old s
          then new ++ replace_from old new s' (length old - 1)
          else c :: replace_from old new s' 0
      end
  end.

Definition replace (old new s : pystr) : pystr := replace_from old new s 0.

(** [str.lower()] on the Latin-1 range (ASCII letters and the accented
    capitals U+00C0..U+00DE except the multiplication sign); the rest of the
    Unicode case table is not embedded and other code points are kept. *)
Definition lower_char (c : char) : char :=
  if (in_range 65 90 c || in_range 192 214 c || in_range 216 222 c)%bool
  then (c + 32)%N else c.

Definition lower (s : pystr) : pystr := map lower_char s.

(** ** Exceptions *)

Inductive exn_class := ValueError | RuntimeError | LibraryError.

Record exn := Exn { exn_cls : exn_class; exn_msg : pystr }.

Inductive result (A : Type) :=
  | Raise (e : exn)
  | Return (a : A).
Arguments Raise {A} e.
Arguments Return {A} a.

(** ** The fragment of [re] the program uses

    Every pattern of the sources is a sequence of character classes, each
    taken once or repeated greedily, possibly followed by a one-character
    lookahead.  [match_here] is the backtracking matcher: a repetition first
    takes the longest run and gives characters back one at a time.  A match
    is reported as the pieces its items consumed, so that [\1] is a piece. *)

Inductive re_item :=
  | One (p : char -> bool)
  | Many (p : char -> bool) (lo : nat)
  | Ahead (p : char -> bool).

Abbreviation regex := (list re_item).

Section Backtrack.
Variable k : pystr -> option (list pystr).
Variable s : pystr.
Variable lo : nat.

(** Try to continue with [k] after a repetition of [n], [n-1], ..., [lo]
    characters. *)
Fixpoint backtrack (n : nat) : option (list pystr) :=
  if n <? lo then None
  else
    match k (drop n s) with
    | Some ps => Some (take n s :: ps)
    | None => match n with
              | 0 => None
              | S n' => backtrack n'
              end
    end.
End Backtrack.

Fixpoint match_here (r : regex) (s : pystr) : option (list pystr) :=
  match r with
  | [] => Some []
  | One p :: r' =>
      match s with
      | c :: s' => if p c then cons [c] <$> match_here r' s' else None
      | [] => None
      end
  | Ahead p :: r' =>
      match s with
      | c :: _ => if p c then cons [] <$> match_here r' s else None
      | [] => None
      end
  | Many p lo :: r' => backtrack (match_here r') s lo (span_len p s)
  end.

(** [re.search(r, s)]: the leftmost match, as (start, pieces). *)
Fixpoint re_search_from (r : regex) (s : pystr) (i : nat) : option (nat * list pystr) :=
  match match_here r s with
  | Some ps => Some (i, ps)
  | None => match s with
            | [] => None
            | _ :: s' => re_search_from r s' (S i)
            end
  end.

Definition re_search (r : regex) (s : pystr) : option (nat * list pystr) :=
  re_search_from r s 0.

(** [m.group(0)] *)
Definition group0 (m : nat * list pystr) : pystr := concat (snd m).

(** [m.group(i)] for the item at position [i] of the pattern. *)
Definition piece (i : nat) (ps : list pystr) : pystr := nth i ps [].

(** [re.findall(r, s)] and [re.sub(r, repl, s)] scan left to right over
    non-overlapping matches.  The patterns of the program consume at least
    one character, so a match of length 0 is passed over like a failure. *)
Fixpoint re_findall_from (r : regex) (s : pystr) (skip : nat) : list pystr :=
  match s with
  | [] => []
  | _ :: s' =>
      match skip with
      | S k => re_findall_from r s' k
      | 0 =>
          match match_here r s with
          | Some ps =>
              match length (concat ps) with
              | S k => concat ps :: re_findall_from r s' k
              | 0 => re_findall_from r s' 0
              end
          | None => re_findall_from r s' 0
          end
      end
  end.

Definition re_findall (r : regex) (s : pystr) : list pystr := re_findall_from r s 0.

Fixpoint re_sub_from (r : regex) (repl : list pystr -> pystr) (s : pystr) (skip : nat) : pystr :=
  match s with
  | [] => []
  | c :: s' =>
      match skip with
      | S k => re_sub_from r repl s' k
      | 0 =>
          match match_here r s with
          | Some ps =>
              match length (concat ps) with
              | S k => repl ps ++ re_sub_from r repl s' k
              | 0 => c :: re_sub_from r repl s' 0
              end
          | None => c :: re_sub_from r repl s' 0
          end
      end
  end.

Definition re_sub (r : regex) (repl : list pystr -> pystr) (s : pystr) : pystr :=
  re_sub_from r repl s 0.

Definition any_char (_ : char) : bool := true.

(** ** utility.py *)

(** [s or ""] *)
Definition or_empty (s : option pystr) : pystr :=
  match s with
  | Some t => t
  | None => []
  end.

(** The entity strings; 38 is the ampersand, 34 the double quote, 39 the
    single quote. *)
Definition amp : char := 38%N.
Definition dquote : char := 34%N.
Definition squote : char := 39%N.

Definition ent_amp : pystr := lit "&amp;".
Definition ent_lt : pystr := lit "&lt;".
Definition ent_gt : pystr := lit "&gt;".
Definition ent_quot : pystr := lit "&quot;".
Definition ent_apos : pystr := lit "&#39;".

Definition html_escape (s : option pystr) : pystr :=
  let s := or_empty s in
  replace [squote] ent_apos
    (replace [dquote] ent_quot
      (replace (lit ">") ent_gt
        (replace (lit "<") ent_lt
          (replace [amp] ent_amp s)))).

(** [render_template_file], given the text read from [template_path]. *)
Definition render_template (tpl : pystr) (values : list (pystr * pystr)) : pystr :=
  fold_left (fun tpl kv => replace (lit "{{" ++ fst kv ++ lit "}}") (snd kv) tpl) values tpl.

(** [[A-Za-zÀ-ÖØ-öø-ÿ0-9]\s+[A-Za-zÀ-ÖØ-öø-ÿ0-9]] *)
Definition re_pair : regex := [One is_alnum; Many is_space 1; One is_alnum].

(** [([A-Za-zÀ-ÖØ-öø-ÿ0-9])\s+(?=[A-Za-zÀ-ÖØ-öø-ÿ0-9])] *)
Definition re_spaced : regex := [One is_alnum; Many is_space 1; Ahead is_alnum].

(** [\s{2,}] *)
Definition re_multispace : regex := [Many is_space 2].

Definition normalize_spaced_text (text : option pystr) : pystr :=
  let text := strip (or_empty text) in
  match text with
  | [] => []
  | _ =>
      let pairs := re_findall re_pair text in
      if length pairs <? 25
      then strip (re_sub re_multispace (fun _ => lit " ") text)
      else
        let text := re_sub re_spaced (piece 0) text in
        let text := strip (re_sub re_multispace (fun _ => lit " ") text) in
        text
  end.

(** ** Python values, as [json.loads] builds them *)

Inductive pyval :=
  | PyNone
  | PyBool (b : bool)
  | PyInt (z : Z)
  | PyFloat (lexeme : pystr)
  | PyStr (s : pystr)
  | PyList (l : list pyval)
  | PyDict (d : list (pystr * pyval)).

(** [d[k] = v]: a key already present keeps its place. *)
Fixpoint dict_set (k : pystr) (v : pyval) (d : list (pystr * pyval)) : list (pystr * pyval) :=
  match d with
  | [] => [(k, v)]
  | (k', v') :: d' => if decide (k' = k) then (k, v) :: d' else (k', v') :: dict_set k v d'
  end.

(** [str(n)] for an [int]. *)
Definition str_of_Z (z : Z) : pystr := lit (pretty z).

(** ** Domain models (core.py) and response models (web_helpers.py) *)

(** [Literal["match", "partial", "missing"]] *)
Inductive Status := Match | Partial | Missing.

(** [Literal["high", "medium", "low"]]: impact, priority and confidence. *)
Inductive Level := High | Medium | Low.

(** [Literal["cv", "linkedin", "both"]] *)
Inductive Where := Cv | Linkedin | Both.

#[global] Instance Status_eq_dec : EqDecision Status.
Proof. solve_decision. Defined.

#[global] Instance Level_eq_dec : EqDecision Level.
Proof. solve_decision. Defined.

Record MatchItem := {
  requirement : pystr;
  status : Status;
  evidence : list pystr }.

Record GapItem := {
  gap : pystr;
  impact : Level;
  how_to_fix : list pystr }.

Record SuggestionItem := {
  section : pystr;
  change : pystr;
  reason : pystr;
  priority : Level }.

Record LinkedInSuggestionItem := {
  li_section : pystr;
  li_change : pystr;
  li_reason : pystr;
  li_priority : Level }.

Record ATSKeywordItem := {
  keyword : pystr;
  where_to_add : Where;
  note : pystr }.

Record FitReport := {
  fit_score : Z;
  confidence : Level;
  summary : pystr;
  must_have_match : list MatchItem;
  nice_to_have_match : list MatchItem;
  gaps : list GapItem;
  cv_suggestions : list SuggestionItem;
  linkedin_suggestions : list LinkedInSuggestionItem;
  ats_keywords : list ATSKeywordItem;
  final_note : pystr }.

Record FitCore := {
  core_fit_score : Z;
  core_confidence : Level;
  core_must_have_match : list MatchItem;
  core_nice_to_have_match : list MatchItem;
  core_gaps : list GapItem }.

Record FitSuggestions := {
  sugg_summary : pystr;
  sugg_cv_suggestions : list SuggestionItem;
  sugg_linkedin_suggestions : list LinkedInSuggestionItem;
  sugg_ats_keywords : list ATSKeywordItem;
  sugg_final_note : pystr }.

(** [FitSuggestions()]: every field at its default. *)
Definition FitSuggestions_default : FitSuggestions :=
  {| sugg_summary := []; sugg_cv_suggestions := []; sugg_linkedin_suggestions := [];
     sugg_ats_keywords := []; sugg_final_note := [] |}.

Definition Status_str (s : Status) : pystr :=
  match s with
  | Match => lit "match"
  | Partial => lit "partial"
  | Missing => lit "missing"
  end.

Definition Level_str (l : Level) : pystr :=
  match l with
  | High => lit "high"
  | Medium => lit "medium"
  | Low => lit "low"
  end.

Definition Where_str (w : Where) : pystr :=
  match w with
  | Cv => lit "cv"
  | Linkedin => lit "linkedin"
  | Both => lit "both"
  end.

(** [model_dump()]: the fields in declaration order. *)
Definition str_list (l : list pystr) : pyval := PyList (map PyStr l).

Definition MatchItem_dump (m : MatchItem) : pyval :=
  PyDict [(lit "requirement", PyStr (requirement m));
          (lit "status", PyStr (Status_str (status m)));
          (lit "evidence", str_list (evidence m))].

Definition GapItem_dump (g : GapItem) : pyval :=
  PyDict [(lit "gap", PyStr (gap g));
          (lit "impact", PyStr (Level_str (impact g)));
          (lit "how_to_fix", str_list (how_to_fix g))].

Definition SuggestionItem_dump (x : SuggestionItem) : pyval :=
  PyDict [(lit "section", PyStr (section x));
          (lit "change", PyStr (change x));
          (lit "reason", PyStr (reason x));
          (lit "priority", PyStr (Level_str (priority x)))].

Definition LinkedInSuggestionItem_dump (x : LinkedInSuggestionItem) : pyval :=
  PyDict [(lit "section", PyStr (li_section x));
          (lit "change", PyStr (li_change x));
          (lit "reason", PyStr (li_reason x));
          (lit "priority", PyStr (Level_str (li_priority x)))].

Definition ATSKeywordItem_dump (x : ATSKeywordItem) : pyval :=
  PyDict [(lit "keyword", PyStr (keyword x));
          (lit "where_to_add", PyStr (Where_str (where_to_add x)));
          (lit "note", PyStr (note x))].

Definition FitReport_dump (r : FitReport) : pyval :=
  PyDict [(lit "fit_score", PyInt (fit_score r));
          (lit "confidence", PyStr (Level_str (confidence r)));
          (lit "summary", PyStr (summary r));
          (lit "must_have_match", PyList (map MatchItem_dump (must_have_match r)));
          (lit "nice_to_have_match", PyList (map MatchItem_dump (nice_to_have_match r)));
          (lit "gaps", PyList (map GapItem_dump (gaps r)));
          (lit "cv_suggestions", PyList (map SuggestionItem_dump (cv_suggestions r)));
          (lit "linkedin_suggestions",
            PyList (map LinkedInSuggestionItem_dump (linkedin_suggestions r)));
          (lit "ats_keywords", PyList (map ATSKeywordItem_dump (ats_keywords r)));
          (lit "final_note", PyStr (final_note r))].

Definition FitCore_dump (c : FitCore) : pyval :=
  PyDict [(lit "fit_score", PyInt (core_fit_score c));
          (lit "confidence", PyStr (Level_str (core_confidence c)));
          (lit "must_have_match", PyList (map MatchItem_dump (core_must_have_match c)));
          (lit "nice_to_have_match", PyList (map MatchItem_dump (core_nice_to_have_match c)));
          (lit "gaps", PyList (map GapItem_dump (core_gaps c)))].

(** ** What the program takes from outside its sources

    Library behaviour the sources only call ([json.dumps], [str.format],
    pydantic's generated [model_validate]) and the report template, a file of
    the repository that is not Python.  Every theorem below holds for any
    choice of them. *)
Class Externals := {
  (** [json.dumps(obj, ensure_ascii=False, indent=2)] *)
  json_dumps_pretty : pyval -> pystr;
  (** [template.format] with keyword arguments *)
  str_format : pystr -> list (pystr * pystr) -> result pystr;
  (** [FitCore.model_validate(data)] *)
  FitCore_model_validate : pyval -> result FitCore;
  (** [FitSuggestions.model_validate(data)] *)
  FitSuggestions_model_validate : pyval -> result FitSuggestions;
  (** the text of [templates/report.html] *)
  report_template : pystr }.

(** [json_pretty] of utility.py *)
Definition json_pretty `{E : Externals} (obj : pyval) : pystr := json_dumps_pretty obj.

(** ** core.py *)

Definition ALLOWED_SECTIONS : gset pystr :=
  {[ lit "summary"; lit "experience"; lit "skills"; lit "projects"; lit "other" ]}.

(** The [mapping] dict of [normalize_section]. *)
Definition section_mapping : gmap pystr pystr :=
  list_to_map
    [(lit "education", lit "other");
     (lit "certifications", lit "skills");
     (lit "certification", lit "skills");
     (lit "training", lit "skills");
     (lit "courses", lit "skills");
     (lit "course", lit "skills");
     (lit "projects", lit "projects");
     (lit "project", lit "projects");
     (lit "work experience", lit "experience");
     (lit "experience", lit "experience");
     (lit "skills", lit "skills");
     (lit "summary", lit "summary");
     (lit "about", lit "summary")].

(** The [mode="before"] validator of [SuggestionItem.section]: it receives
    the raw value, whatever its type. *)
Definition normalize_section (v : pyval) : pystr :=
  match v with
  | PyStr v =>
      let s := lower (strip v) in
      let s := default s (section_mapping !! s) in
      if decide (s ∈ ALLOWED_SECTIONS) then s else lit "other"
  | _ => lit "other"
  end.


(** The dict returned by [decide_ui]. *)
Record UiDecision := {
  d_code : pystr;
  d_badge : pystr;
  d_label : pystr;
  d_reason : pystr;
  d_next_step : pystr }.

(** [m.status == st] *)
Definition has_status (st : Status) (m : MatchItem) : Prop := status m = st.

#[global] Instance has_status_dec st m : Decision (has_status st m).
Proof. unfold has_status. apply _. Defined.

Definition label_maybe : pystr :=
  9888%N :: 65039%N :: lit " Worth applying only if highly motivated".
Definition label_yes : pystr := 9989%N :: lit " Worth applying".
Definition label_no : pystr := 10060%N :: lit " Not worth applying (for now)".

Definition reason_strong_gaps : pystr :=
  lit "Strong score, but there are gaps that could affect screening. Clarify them with concrete evidence or projects.".
Definition reason_strong : pystr :=
  lit "Strong alignment with key requirements; remaining gaps are not blocking.".
Definition reason_decent : pystr :=
  lit "Decent alignment, but concrete evidence is needed to pass initial screening.".
Definition reason_low : pystr := lit "Fit currently low.".
Definition reason_missing_must : pystr :=
  lit "Some key requirements appear missing, with a high risk of early screening rejection.".
Definition reason_high_gap : pystr :=
  lit "There are high-impact gaps that likely block the role for now.".

Definition decide_ui (report : FitReport) : UiDecision :=
  let fit_score := fit_score report in
  let must := must_have_match report in
  let gaps := gaps report in
  let missing_must := filter (has_status Missing) must in
  let has_missing_must := 0 <? length missing_must in
  let has_high_gap := existsb (fun g => bool_decide (impact g = High)) gaps in
  if (75 <=? fit_score)%Z then
    if (has_missing_must || has_high_gap)%bool then
      {| d_code := lit "MAYBE"; d_badge := lit "maybe"; d_label := label_maybe;
         d_reason := reason_strong_gaps;
         d_next_step := lit "Apply only if you can clearly demonstrate or mitigate the highlighted gaps (examples, portfolio, interview framing)." |}
    else
      {| d_code := lit "YES"; d_badge := lit "yes"; d_label := label_yes;
         d_reason := reason_strong;
         d_next_step := lit "Apply and tailor your CV and LinkedIn profile to highlight your strengths." |}
  else if (55 <=? fit_score)%Z then
    {| d_code := lit "MAYBE"; d_badge := lit "maybe"; d_label := label_maybe;
       d_reason := reason_decent;
       d_next_step := lit "Apply only if you can clearly demonstrate the missing skills with real examples or projects." |}
  else
    let reason :=
      if has_missing_must then reason_missing_must
      else if has_high_gap then reason_high_gap
      else reason_low in
    {| d_code := lit "NO"; d_badge := lit "no"; d_label := label_no;
       d_reason := reason;
       d_next_step := lit "Focus on better-aligned roles or build targeted projects before applying." |}.

(** A double-quoted attribute value. *)
Definition dq (s : pystr) : pystr := dquote :: s ++ [dquote].

Definition _card (text kind : pystr) : pystr :=
  let icon := if decide (kind = lit "pos") then [10003%N] else lit "!" in
  lit "<div class=" ++ dq (lit "qitem") ++ lit ">"
  ++ lit "  <div class=" ++ dq (lit "qicon " ++ kind) ++ lit ">" ++ icon ++ lit "</div>"
  ++ lit "  <div class=" ++ dq (lit "qtext") ++ lit ">" ++ html_escape (Some text) ++ lit "</div>"
  ++ lit "</div>".

(** [sep.join(parts)] *)
Fixpoint join (sep : pystr) (parts : list pystr) : pystr :=
  match parts with
  | [] => []
  | [p] => p
  | p :: rest => p ++ sep ++ join sep rest
  end.

(** [x or fallback] on strings *)
Definition or_else (x fallback : pystr) : pystr :=
  match x with
  | [] => fallback
  | _ => x
  end.

(** [s.split(sep)] for a one-character separator. *)
Fixpoint split_on (sep : char) (s : pystr) : list pystr :=
  match s with
  | [] => [[]]
  | c :: s' =>
      if N.eqb c sep then [] :: split_on sep s'
      else match split_on sep s' with
           | p :: ps => (c :: p) :: ps
           | [] => [[c]]
           end
  end.

(** The components of a POSIX path: empty and [.] components drop out. *)
Definition path_parts (p : pystr) : list pystr :=
  filter (fun x => x ≠ [] ∧ x ≠ lit ".") (split_on 47%N p).

(** [Path(p).name] *)
Definition path_name (p : pystr) : pystr := default [] (last (path_parts p)).

(** [Path(p).parent.name] *)
Definition path_parent_name (p : pystr) : pystr :=
  default [] (last (removelast (path_parts p))).

(** [sorted(l, key=key)]: Python's sort is stable. *)
Section Sorted.
Context {A : Type} (key : A -> nat).

Fixpoint insert_sorted (x : A) (l : list A) : list A :=
  match l with
  | [] => [x]
  | y :: l' => if key x <=? key y then x :: l else y :: insert_sorted x l'
  end.

Definition sorted (l : list A) : list A := foldr insert_sorted [] l.
End Sorted.

(** [{"high": 0, "medium": 1, "low": 2}.get(g.impact, 3)] *)
Definition impact_rank (g : GapItem) : nat :=
  match impact g with
  | High => 0
  | Medium => 1
  | Low => 2
  end.

(** The strengths aggregate of [render_report_html]. *)
Definition strengths_of (report : FitReport) : list pystr :=
  let must := must_have_match report in
  let nice := nice_to_have_match report in
  take 3 (map requirement (filter (has_status Match) (must ++ nice))
          ++ map requirement (filter (has_status Partial) (must ++ nice))).

(** The blockers aggregate of [render_report_html]. *)
Definition blockers_of (report : FitReport) : list pystr :=
  let must := must_have_match report in
  let gaps_sorted := sorted impact_rank (gaps report) in
  let blockers :=
    take 3 (map gap (filter (fun g => impact g = High ∨ impact g = Medium) gaps_sorted)) in
  match blockers with
  | [] => take 3 (map requirement (filter (has_status Missing) must))
  | _ => blockers
  end.

Definition nl : char := 10%N.

Definition score_bar_class_of (score : Z) : pystr :=
  if (score <=? 50)%Z then lit "bar-red"
  else if (score <=? 75)%Z then lit "bar-yellow"
  else lit "bar-green".

(** The [values] dict of [render_report_html], in insertion order. *)
Definition render_values `{E : Externals} (report : FitReport) (json_path job_title : pystr)
  : list (pystr * pystr) :=
  let d := decide_ui report in
  let strengths := strengths_of report in
  let blockers := blockers_of report in
  let strengths_cards :=
    or_else (join [nl] (map (fun x => _card x (lit "pos")) (take 3 strengths)))
      (lit "<div class=" ++ dq (lit "qempty") ++ lit ">Nessun punto a favore rilevante.</div>") in
  let blockers_cards :=
    or_else (join [nl] (map (fun x => _card x (lit "neg")) (take 3 blockers)))
      (lit "<div class=" ++ dq (lit "qempty") ++ lit ">Nessun blocco principale.</div>") in
  let score := Z.max 0 (Z.min 100 (fit_score report)) in
  let score_bar_class := score_bar_class_of score in
  [ (lit "json_file_name", html_escape (Some (path_name json_path)));
    (lit "decision_label", html_escape (Some (d_label d)));
    (lit "decision_reason", html_escape (Some (d_reason d)));
    (lit "decision_badge", html_escape (Some (d_badge d)));
    (lit "decision_code", html_escape (Some (d_code d)));
    (lit "fit_score", html_escape (Some (str_of_Z score)));
    (lit "confidence", html_escape (Some (Level_str (confidence report))));
    (lit "next_step", html_escape (Some (d_next_step d)));
    (lit "summary", html_escape (Some (summary report)));
    (lit "final_note", html_escape (Some (final_note report)));
    (lit "json_dump", html_escape (Some (json_pretty (FitReport_dump report))));
    (lit "job_title", html_escape (Some (or_else job_title (lit "Posizione LinkedIn"))));
    (lit "score_bar_class", score_bar_class);
    (lit "job_id", html_escape (Some (path_parent_name json_path)));
    (lit "strengths_cards", strengths_cards);
    (lit "blockers_cards", blockers_cards);
    (lit "strengths_count",
      html_escape (Some (str_of_Z (Z.of_nat (Nat.min (length strengths) 3)) ++ lit "/3")));
    (lit "blockers_count",
      html_escape (Some (str_of_Z (Z.of_nat (Nat.min (length blockers) 3)) ++ lit "/3"))) ].

(** [render_report_html]; the text at [template_path] is [report_template]. *)
Definition render_report_html `{E : Externals}
    (report : FitReport) (json_path template_path job_title : pystr) : pystr :=
  render_template report_template (render_values report json_path job_title).

(** ** [json.loads]

    The decoder of the standard library, as its scanner reads a [str]: the
    JSON grammar, plus [NaN], [Infinity] and [-Infinity]; strings in strict
    mode.  A number keeps its value when it is an integer and its lexeme
    otherwise.  [fuel] bounds the nesting of calls; [json_loads] gives more
    than the text can use (see [scan_once_fuel]). *)

Inductive parsed (A : Type) :=
  | POk (a : A) (rest : pystr)
  | PErr
  | PFuel.
Arguments POk {A} a rest.
Arguments PErr {A}.
Arguments PFuel {A}.

Definition is_json_ws (c : char) : bool :=
  (N.eqb c 32 || N.eqb c 9 || N.eqb c 10 || N.eqb c 13)%bool.

Definition skip_ws (s : pystr) : pystr := drop (span_len is_json_ws s) s.

Definition is_digit (c : char) : bool := in_range 48 57 c.

Definition hex_val (c : char) : option N :=
  if in_range 48 57 c then Some (c - 48)%N
  else if in_range 97 102 c then Some (c - 87)%N
  else if in_range 65 70 c then Some (c - 55)%N
  else None.

(** A character of a string body: as written, or a [\uXXXX] code unit. *)
Inductive str_unit :=
  | Plain (c : char)
  | Escaped (u : N).

(** The body of a string, after the opening quote. *)
Fixpoint scan_units (s : pystr) : parsed (list str_unit) :=
  match s with
  | [] => PErr
  | c :: s1 =>
      if N.eqb c 34 then POk [] s1
      else if N.eqb c 92 then
        match s1 with
        | [] => PErr
        | e :: s2 =>
            let simple (x : char) :=
              match scan_units s2 with
              | POk us rest => POk (Plain x :: us) rest
              | other => other
              end in
            if N.eqb e 34 then simple 34%N
            else if N.eqb e 92 then simple 92%N
            else if N.eqb e 47 then simple 47%N
            else if N.eqb e 98 then simple 8%N
            else if N.eqb e 102 then simple 12%N
            else if N.eqb e 110 then simple 10%N
            else if N.eqb e 114 then simple 13%N
            else if N.eqb e 116 then simple 9%N
            else if N.eqb e 117 then
              match s2 with
              | h1 :: h2 :: h3 :: h4 :: s6 =>
                  match hex_val h1, hex_val h2, hex_val h3, hex_val h4 with
                  | Some a, Some b, Some c', Some d =>
                      match scan_units s6 with
                      | POk us rest =>
                          POk (Escaped (a * 4096 + b * 256 + c' * 16 + d)%N :: us) rest
                      | other => other
                      end
                  | _, _, _, _ => PErr
                  end
              | _ => PErr
              end
            else PErr
        end
      else if N.ltb c 32 then PErr
      else
        match scan_units s1 with
        | POk us rest => POk (Plain c :: us) rest
        | other => other
        end
  end.

(** An escaped high surrogate followed by an escaped low one is one code
    point. *)
Fixpoint join_surrogates (us : list str_unit) : pystr :=
  match us with
  | [] => []
  | Plain c :: us' => c :: join_surrogates us'
  | Escaped hi :: us' =>
      match us' with
      | Escaped lo :: us'' =>
          if (in_range 55296 56319 hi && in_range 56320 57343 lo)%bool
          then (65536 + (hi - 55296) * 1024 + (lo - 56320))%N :: join_surrogates us''
          else hi :: join_surrogates us'
      | _ => hi :: join_surrogates us'
      end
  end.

Definition scanstring (s : pystr) : parsed pystr :=
  match scan_units s with
  | POk us rest => POk (join_surrogates us) rest
  | PErr => PErr
  | PFuel => PFuel
  end.

(** Decimal value of a run of digits. *)
Definition digits_val (ds : pystr) : Z :=
  fold_left (fun acc d => (acc * 10 + Z.of_N (d - 48))%Z) ds 0%Z.

(** [NUMBER_RE]: an optional minus sign, then 0 or a digit 1-9 followed by
    digits; an optional fraction (a dot and digits); an optional exponent
    (e or E, an optional sign, digits). *)
Definition scan_number (s : pystr) : option (pyval * pystr) :=
  let '(neg, s1) := match s with
                    | c :: s' => if N.eqb c 45 then (true, s') else (false, s)
                    | [] => (false, s)
                    end in
  match s1 with
  | d :: s2 =>
      if is_digit d then
        let n := if N.eqb d 48 then 1 else span_len is_digit s1 in
        let int_part := take n s1 in
        let s3 := drop n s1 in
        let frac_len :=
          match s3 with
          | c :: s4 => if (N.eqb c 46 && (0 <? span_len is_digit s4))%bool
                       then S (span_len is_digit s4) else 0
          | [] => 0
          end in
        let s5 := drop frac_len s3 in
        let exp_len :=
          match s5 with
          | c :: s6 =>
              if (N.eqb c 101 || N.eqb c 69)%bool then
                let sign_len := match s6 with
                                | g :: _ => if (N.eqb g 43 || N.eqb g 45)%bool then 1 else 0
                                | [] => 0
                                end in
                let m := span_len is_digit (drop sign_len s6) in
                if 0 <? m then S (sign_len + m) else 0
              else 0
          | [] => 0
          end in
        let rest := drop exp_len s5 in
        if ((frac_len =? 0) && (exp_len =? 0))%bool then
          (* [int(lexeme)]: refused beyond [sys.int_max_str_digits] *)
          if 4300 <? n then None
          else Some (PyInt (if neg then - digits_val int_part else digits_val int_part)%Z, rest)
        else Some (PyFloat (take (length s - length rest) s), rest)
      else None
  | [] => None
  end.

Fixpoint scan_once (fuel : nat) (s : pystr) : parsed pyval :=
  match fuel with
  | 0 => PFuel
  | S fuel =>
      match s with
      | [] => PErr
      | c :: s' =>
          if N.eqb c 34 then
            match scanstring s' with
            | POk v rest => POk (PyStr v) rest
            | PErr => PErr
            | PFuel => PFuel
            end
          else if N.eqb c 123 then
            let s1 := skip_ws s' in
            match s1 with
            | c1 :: s2 =>
                if N.eqb c1 125 then POk (PyDict []) s2
                else if N.eqb c1 34 then
                  match scan_members fuel s2 [] with
                  | POk d rest => POk (PyDict d) rest
                  | PErr => PErr
                  | PFuel => PFuel
                  end
                else PErr
            | [] => PErr
            end
          else if N.eqb c 91 then
            let s1 := skip_ws s' in
            match s1 with
            | c1 :: s2 =>
                if N.eqb c1 93 then POk (PyList []) s2
                else
                  match scan_items fuel s1 [] with
                  | POk l rest => POk (PyList l) rest
                  | PErr => PErr
                  | PFuel => PFuel
                  end
            | [] => PErr
            end
          else if starts_with (lit "null") s then POk PyNone (drop 4 s)
          else if starts_with (lit "true") s then POk (PyBool true) (drop 4 s)
          else if starts_with (lit "false") s then POk (PyBool false) (drop 5 s)
          else
            match scan_number s with
            | Some (v, rest) => POk v rest
            | None =>
                if starts_with (lit "NaN") s then POk (PyFloat (lit "NaN")) (drop 3 s)
                else if starts_with (lit "Infinity") s
                then POk (PyFloat (lit "Infinity")) (drop 8 s)
                else if starts_with (lit "-Infinity") s
                then POk (PyFloat (lit "-Infinity")) (drop 9 s)
                else PErr
            end
      end
  end

(** The members of an object, from just after the opening quote of a key. *)
with scan_members (fuel : nat) (s : pystr) (acc : list (pystr * pyval))
  : parsed (list (pystr * pyval)) :=
  match fuel with
  | 0 => PFuel
  | S fuel =>
      match scanstring s with
      | POk key s1 =>
          match skip_ws s1 with
          | c :: s2 =>
              if N.eqb c 58 then
                match scan_once fuel (skip_ws s2) with
                | POk v s3 =>
                    let acc := dict_set key v acc in
                    match skip_ws s3 with
                    | c' :: s4 =>
                        if N.eqb c' 125 then POk acc s4
                        else if N.eqb c' 44 then
                          match skip_ws s4 with
                          | q :: s5 => if N.eqb q 34 then scan_members fuel s5 acc else PErr
                          | [] => PErr
                          end
                        else PErr
                    | [] => PErr
                    end
                | PErr => PErr
                | PFuel => PFuel
                end
              else PErr
          | [] => PErr
          end
      | PErr => PErr
      | PFuel => PFuel
      end
  end

(** The items of an array, from the first character of an item. *)
with scan_items (fuel : nat) (s : pystr) (acc : list pyval) : parsed (list pyval) :=
  match fuel with
  | 0 => PFuel
  | S fuel =>
      match scan_once fuel s with
      | POk v s1 =>
          let acc := acc ++ [v] in
          match skip_ws s1 with
          | c :: s2 =>
              if N.eqb c 93 then POk acc s2
              else if N.eqb c 44 then scan_items fuel (skip_ws s2) acc
              else PErr
          | [] => PErr
          end
      | PErr => PErr
      | PFuel => PFuel
      end
  end.

Definition json_error : exn := Exn ValueError (lit "JSONDecodeError").

(** [json.loads(s)] *)
Definition json_loads (s : pystr) : result pyval :=
  match s with
  | 65279%N :: _ => Raise json_error
  | _ =>
      match scan_once (2 * length s + 1) (skip_ws s) with
      | POk v rest =>
          match skip_ws rest with
          | [] => Return v
          | _ => Raise json_error
          end
      | _ => Raise json_error
      end
  end.

(** ** Python floats, as an interface

    [compute_fit_score] computes in [float].  The operations it uses are
    collected here; [Arith_Q] interprets them exactly and [Arith_binary64]
    as the IEEE-754 double precision operations Python performs. *)
Class Arith (F : Type) := {
  (** a literal such as [70.0], and [float(n)] for an [int] *)
  of_int : Z -> F;
  (** [0.5] *)
  half : F;
  f_add : F -> F -> F;
  f_mul : F -> F -> F;
  f_div : F -> F -> F;
  (** [round(x)]: to the nearest integer, ties to the even one *)
  py_round : F -> Z }.

Definition round_half_even (q : Q) : Z :=
  let f := Qfloor q in
  match Qcompare (q - inject_Z f) (1 # 2) with
  | Lt => f
  | Gt => (f + 1)%Z
  | Eq => if Z.even f then f else (f + 1)%Z
  end.

#[global] Instance Arith_Q : Arith Q := {|
  of_int := inject_Z;
  half := 1 # 2;
  f_add := Qplus;
  f_mul := Qmult;
  f_div := Qdiv;
  py_round := round_half_even |}.

(** [round] of a binary64 value [m * 2^e], on its magnitude. *)
Definition round_mantissa (m : positive) (e : Z) : Z :=
  if (0 <=? e)%Z then (Z.pos m * 2 ^ e)%Z
  else
    let d := (2 ^ (- e))%Z in
    let q := (Z.pos m / d)%Z in
    let r := (Z.pos m mod d)%Z in
    match (2 * r ?= d)%Z with
    | Lt => q
    | Gt => (q + 1)%Z
    | Eq => if Z.even q then q else (q + 1)%Z
    end.

(** [round(x)] raises on an infinity or a NaN; the scorer, whose sums are
    bounded by its weights, does not produce one from finite weights. *)
Definition binary64_round (x : float) : Z :=
  match Prim2SF x with
  | S754_finite s m e => if s then (- round_mantissa m e)%Z else round_mantissa m e
  | _ => 0%Z
  end.

Definition binary64_of_int (z : Z) : float :=
  match z with
  | Zneg p => PrimFloat.opp (PrimFloat.of_uint63 (Uint63.of_Z (Z.pos p)))
  | _ => PrimFloat.of_uint63 (Uint63.of_Z z)
  end.

#[global] Instance Arith_binary64 : Arith float := {|
  of_int := binary64_of_int;
  half := 0.5%float;
  f_add := PrimFloat.add;
  f_mul := PrimFloat.mul;
  f_div := PrimFloat.div;
  py_round := binary64_round |}.

(** ** The world the pipeline runs in *)

(** An entry of [JOB_STATUS]: [{"status": ..., "error": ..., **extra}]. *)
Record JobRecord := {
  js_status : pystr;
  js_error : option pystr;
  js_extra : list (pystr * pystr) }.

(** [files]: the text files written so far, by path.  [job_table]: the
    global [JOB_STATUS] dict.  [environ]: the process environment.
    [llm_replies]: what the LLM client will answer, call after call: a text,
    or the exception [invoke] raises.  [llm_calls]: the requests made. *)
Record world := {
  files : gmap pystr pystr;
  job_table : gmap pystr JobRecord;
  environ : gmap pystr pystr;
  llm_replies : list (result pystr);
  llm_calls : list (pystr * pystr) }.

Definition M (A : Type) : Type := world -> world * result A.

#[global] Instance M_ret : MRet M := fun A a w => (w, Return a).

#[global] Instance M_bind : MBind M := fun A B k m w =>
  match m w with
  | (w', Return a) => k a w'
  | (w', Raise e) => (w', Raise e)
  end.

Definition raise {A} (e : exn) : M A := fun w => (w, Raise e).

(** A pure computation that may raise. *)
Definition lift {A} (r : result A) : M A := fun w => (w, r).

(** [try: body  except Exception as e: handler(e)] *)
Definition try_except {A} (body : M A) (handler : exn -> M A) : M A := fun w =>
  match body w with
  | (w', Raise e) => handler e w'
  | (w', Return a) => (w', Return a)
  end.

(** [p / name] on paths; 47 is the slash. *)
Definition path_join (p name : pystr) : pystr := p ++ 47%N :: name.

(** [write_text(path, content)] of utility.py. *)
Definition write_text (path : pystr) (content : option pystr) : M unit := fun w =>
  ({| files := <[path := or_empty content]> (files w);
      job_table := job_table w;
      environ := environ w;
      llm_replies := llm_replies w;
      llm_calls := llm_calls w |}, Return tt).

(** [os.getenv(name)] *)
Definition getenv (name : pystr) : M (option pystr) := fun w => (w, Return (environ w !! name)).

(** ** web_helpers.py *)

(** [path.mkdir(parents=True, exist_ok=True); return path].  Directories are
    not tracked: a file of [files] lies in the directories of its path. *)
Definition ensure_dir (path : pystr) : M pystr := mret path.

Definition job_dir (project_root job_id : pystr) : M pystr :=
  ensure_dir (path_join (path_join project_root (lit "jobs")) job_id).

Definition out_dir (project_root job_id : pystr) : M pystr :=
  ensure_dir (path_join (path_join project_root (lit "outputs")) job_id).

Definition save_text_input (project_root job_id filename content : pystr) : M pystr :=
  d ← job_dir project_root job_id;
  let path := path_join d filename in
  write_text path (Some content);;
  mret path.

Record OpenAIClient := {
  api_key : pystr;
  model : option pystr;
  base_url : option pystr;
  max_retries : nat }.

(** [x.strip() or None] *)
Definition strip_or_none (x : pystr) : option pystr :=
  match strip x with
  | [] => None
  | s => Some s
  end.

Definition build_client : M OpenAIClient :=
  api_key ← getenv (lit "OPENAI_API_KEY");
  match api_key with
  | None | Some [] => raise (Exn RuntimeError (lit "Missing OPENAI_API_KEY in environment (.env)."))
  | Some api_key =>
      model ← getenv (lit "OPENAI_MODEL");
      base_url ← getenv (lit "OPENAI_BASE_URL");
      mret {| api_key := api_key;
              model := strip_or_none (or_empty model);
              base_url := strip_or_none (or_empty base_url);
              max_retries := 2 |}
  end.

(** [client.invoke(input=..., system_prompt=..., temperature=0.0,
    max_tokens=3000).text]: the next reply of the script; a client with no
    reply left fails. *)
Definition invoke (client : OpenAIClient) (input system_prompt : pystr) : M pystr := fun w =>
  let w' reps :=
    {| files := files w; job_table := job_table w; environ := environ w;
       llm_replies := reps;
       llm_calls := llm_calls w ++ [(system_prompt, input)] |} in
  match llm_replies w with
  | r :: reps => (w' reps, r)
  | [] => (w' [], Raise (Exn LibraryError (lit "LLM client: no response")))
  end.

(** [\{.*\}] with [re.DOTALL]; 123 and 125 are the braces. *)
Definition re_braces : regex := [One (N.eqb 123); Many any_char 0; One (N.eqb 125)].

(** [,\s*([}\]])]; 44 is the comma, 93 the closing bracket. *)
Definition is_closer (c : char) : bool := (N.eqb c 125 || N.eqb c 93)%bool.
Definition re_trailing_comma : regex := [One (N.eqb 44); Many is_space 0; One is_closer].

Definition extract_json_safely (text : pystr) : result pystr :=
  match text with
  | [] => Raise (Exn ValueError (lit "Empty LLM output"))
  | _ =>
      match re_search re_braces text with
      | None => Raise (Exn ValueError (lit "No JSON object found in LLM output"))
      | Some m =>
          let s := strip (group0 m) in
          let s := replace [10%N] (lit " ") (replace [13%N] (lit " ") s) in
          let s := re_sub re_trailing_comma (piece 2) s in
          Return s
      end
  end.

(** [if debug_dir: write_text(debug_dir / name, content)] *)
Definition debug_write (debug_dir : option pystr) (name content : pystr) : M unit :=
  match debug_dir with
  | Some d => write_text (path_join d name) (Some content)
  | None => mret tt
  end.

Section Pipeline.
Context `{E : Externals} {F : Type} `{AF : Arith F}.

Definition analyze_fit_core (client : OpenAIClient)
    (system_prompt user_template cv_text job_text : pystr) (debug_dir : option pystr)
  : M FitCore :=
  user_prompt ← lift (str_format user_template
                        [(lit "cv_text", cv_text); (lit "job_text", job_text)]);
  debug_write debug_dir (lit "fit_core_system.txt") system_prompt;;
  debug_write debug_dir (lit "fit_core_user_prompt.txt") user_prompt;;
  raw ← invoke client user_prompt system_prompt;
  debug_write debug_dir (lit "fit_core_raw.txt") raw;;
  json_text ← lift (extract_json_safely raw);
  debug_write debug_dir (lit "fit_core_json_extracted.txt") json_text;;
  data ← try_except (lift (json_loads json_text))
           (fun e => debug_write debug_dir (lit "fit_core_parse_error.txt") (exn_msg e);;
                     raise e);
  try_except (lift (FitCore_model_validate data))
    (fun e => debug_write debug_dir (lit "fit_core_validation_error.txt") (exn_msg e);;
              raise e).

Definition analyze_fit_suggestions (client : OpenAIClient)
    (system_prompt user_template cv_text job_text : pystr) (fit_core : FitCore)
    (debug_dir : option pystr)
  : M FitSuggestions :=
  user_prompt ← lift (str_format user_template
                        [(lit "cv_text", cv_text); (lit "job_text", job_text);
                         (lit "fit_core_json", json_pretty (FitCore_dump fit_core))]);
  debug_write debug_dir (lit "fit_suggestions_system.txt") system_prompt;;
  debug_write debug_dir (lit "fit_suggestions_user_prompt.txt") user_prompt;;
  raw ← invoke client user_prompt system_prompt;
  debug_write debug_dir (lit "fit_suggestions_raw.txt") raw;;
  json_text ← lift (extract_json_safely raw);
  debug_write debug_dir (lit "fit_suggestions_json_extracted.txt") json_text;;
  data ← try_except (lift (json_loads json_text))
           (fun e => debug_write debug_dir (lit "fit_suggestions_parse_error.txt") (exn_msg e);;
                     raise e);
  try_except (lift (FitSuggestions_model_validate data))
    (fun e => debug_write debug_dir (lit "fit_suggestions_validation_error.txt") (exn_msg e);;
              raise e).

(** The nested function [section] of [compute_fit_score]. *)
Definition score_section (items : list MatchItem) (total : F) : F :=
  match items with
  | [] => of_int 0
  | _ =>
      let w := f_div total (of_int (Z.of_nat (length items))) in
      fold_left
        (fun s it =>
           match status it with
           | Match => f_add s w
           | Partial => f_add s (f_mul half w)
           | Missing => s
           end)
        items (of_int 0)
  end.

Definition compute_fit_score (must_have nice_to_have : list MatchItem)
    (must_total nice_total : F) : Z :=
  let score := f_add (score_section must_have must_total)
                     (score_section nice_to_have nice_total) in
  let score_i := py_round score in
  Z.max 0 (Z.min 100 score_i).

(** The default arguments [must_total=70.0], [nice_total=30.0]. *)
Definition must_total_default : F := of_int 70.
Definition nice_total_default : F := of_int 30.

(** The [FitReport(...)] built at the end of [process_job]. *)
Definition merge_final_report (computed_score : Z) (fit_core : FitCore)
    (suggestions : FitSuggestions) : FitReport :=
  {| fit_score := computed_score;
     confidence := core_confidence fit_core;
     summary := sugg_summary suggestions;
     must_have_match := core_must_have_match fit_core;
     nice_to_have_match := core_nice_to_have_match fit_core;
     gaps := core_gaps fit_core;
     cv_suggestions := sugg_cv_suggestions suggestions;
     linkedin_suggestions := sugg_linkedin_suggestions suggestions;
     ats_keywords := sugg_ats_keywords suggestions;
     final_note := sugg_final_note suggestions |}.

Definition process_job (app_root templates_dir job_id
    system_prompt_core user_template_core system_prompt_sugg user_template_sugg
    cv_txt job_txt job_title : pystr)
  : M (list (pystr * pystr)) :=
  client ← build_client;
  jd ← job_dir app_root job_id;
  llm_debug_dir ← ensure_dir (path_join jd (lit "llm"));
  let cv_txt := normalize_spaced_text (Some cv_txt) in
  let job_txt := normalize_spaced_text (Some job_txt) in
  fit_core ← analyze_fit_core client system_prompt_core user_template_core
               cv_txt job_txt (Some llm_debug_dir);
  let computed_score :=
    compute_fit_score (core_must_have_match fit_core) (core_nice_to_have_match fit_core)
      must_total_default nice_total_default in
  suggestions ← try_except
      (analyze_fit_suggestions client system_prompt_sugg user_template_sugg
         cv_txt job_txt fit_core (Some llm_debug_dir))
      (fun e =>
         write_text (path_join llm_debug_dir (lit "fit_suggestions_error.txt"))
           (Some (exn_msg e));;
         mret FitSuggestions_default);
  let final_report := merge_final_report computed_score fit_core suggestions in
  out ← out_dir app_root job_id;
  let json_path := path_join out (lit "fit_report.json") in
  write_text json_path (Some (json_pretty (FitReport_dump final_report)));;
  let html :=
    render_report_html final_report json_path
      (path_join templates_dir (lit "report.html")) job_title in
  let html_path := path_join out (lit "report.html") in
  write_text html_path (Some html);;
  mret [(lit "json_path", json_path); (lit "html_path", html_path)].

(** ** webapp.py *)

Definition set_status (job_id status : pystr) (error : option pystr)
    (extra : list (pystr * pystr)) : M unit := fun w =>
  ({| files := files w;
      job_table := <[job_id := {| js_status := status; js_error := error;
                                  js_extra := extra |}]> (job_table w);
      environ := environ w;
      llm_replies := llm_replies w;
      llm_calls := llm_calls w |}, Return tt).

Definition run_job (PROJECT_ROOT TEMPLATES_DIR
    SYSTEM_PROMPT_CORE USER_TEMPLATE_CORE SYSTEM_PROMPT_SUGG USER_TEMPLATE_SUGG
    job_id cv_txt job_txt job_title : pystr) : M unit :=
  try_except
    (set_status job_id (lit "RUNNING") None [];;
     paths ← process_job PROJECT_ROOT TEMPLATES_DIR job_id
               SYSTEM_PROMPT_CORE USER_TEMPLATE_CORE SYSTEM_PROMPT_SUGG USER_TEMPLATE_SUGG
               cv_txt job_txt job_title;
     set_status job_id (lit "DONE") None paths)
    (fun e =>
       try_except
         (save_text_input PROJECT_ROOT job_id (lit "error.txt") (exn_msg e);; mret tt)
         (fun _ => mret tt);;
       set_status job_id (lit "ERROR") (Some (exn_msg e)) []).
End Pipeline.

(** * More of the sources *)

(** ** webapp.py: the routes that read JOB_STATUS *)

(** What a route returns.  [TemplateResponse] carries the template name
    and the context without its [request]. *)
Inductive response :=
  | JSONResponse (content : JobRecord) (status_code : Z)
  | RedirectResponse (url : pystr) (status_code : Z)
  | FileResponse (path media_type : pystr) (filename : option pystr)
  | TemplateResponse (name : pystr) (context : list (pystr * pystr)).

(** [JOB_STATUS.get(job_id)] *)
Definition JOB_STATUS_get (job_id : pystr) : M (option JobRecord) := fun w =>
  (w, Return (job_table w !! job_id)).

(** [data[key]] for a key of the [**extra] part of an entry; a missing key
    is Python's [KeyError], whose message is the [repr] of the key (39 is
    the single quote).  The model has no class of its own for it. *)
Definition extra_item (data : JobRecord) (key : pystr) : result pystr :=
  match find (fun kv => bool_decide (fst kv = key)) (js_extra data) with
  | Some kv => Return (snd kv)
  | None => Raise (Exn LibraryError (39%N :: key ++ [39%N]))
  end.

(** [f"/wait/{job_id}"] *)
Definition wait_url (job_id : pystr) : pystr := lit "/wait/" ++ job_id.

(** An entry always has its two fixed keys, so [not data] is [data is None]. *)
Definition api_status (job_id : pystr) : M response :=
  data ← JOB_STATUS_get job_id;
  match data with
  | None =>
      mret (JSONResponse {| js_status := lit "NOT_FOUND"; js_error := None; js_extra := [] |} 404)
  | Some data => mret (JSONResponse data 200)
  end.

Definition page_report (job_id : pystr) : M response :=
  data ← JOB_STATUS_get job_id;
  match data with
  | None => mret (RedirectResponse (lit "/") 303)
  | Some data =>
      if bool_decide (js_status data <> lit "DONE")
      then mret (RedirectResponse (wait_url job_id) 303)
      else
        html_path ← lift (extra_item data (lit "html_path"));
        mret (FileResponse html_path (lit "text/html") None)
  end.

Definition download_json (job_id : pystr) : M response :=
  data ← JOB_STATUS_get job_id;
  match data with
  | None => mret (RedirectResponse (wait_url job_id) 303)
  | Some data =>
      if bool_decide (js_status data <> lit "DONE")
      then mret (RedirectResponse (wait_url job_id) 303)
      else
        json_path ← lift (extra_item data (lit "json_path"));
        mret (FileResponse json_path (lit "application/json") (Some (lit "fit_report.json")))
  end.

Definition download_html (job_id : pystr) : M response :=
  data ← JOB_STATUS_get job_id;
  match data with
  | None => mret (RedirectResponse (wait_url job_id) 303)
  | Some data =>
      if bool_decide (js_status data <> lit "DONE")
      then mret (RedirectResponse (wait_url job_id) 303)
      else
        html_path ← lift (extra_item data (lit "html_path"));
        mret (FileResponse html_path (lit "text/html") (Some (lit "report.html")))
  end.

(** [data.get("error") or "An unexpected ..."], with [data] the entry or
    the empty dict. *)
Definition page_error (job_id : pystr) : M response :=
  data ← JOB_STATUS_get job_id;
  let error_msg :=
    match data ≫= js_error with
    | None | Some [] => lit "An unexpected error occurred during the analysis."
    | Some msg => msg
    end in
  mret (TemplateResponse (lit "error.html") [(lit "job_id", job_id); (lit "error", error_msg)]).

Definition page_wait (job_id : pystr) : M response :=
  mret (TemplateResponse (lit "wait.html") [(lit "job_id", job_id)]).

(** ** utility.py: cleaning extracted text *)

(** [[ \t]+\n] and [\n{3,}]; 32 is the space, 9 the tab, 10 the newline. *)
Definition is_blank (c : char) : bool := (N.eqb c 32 || N.eqb c 9)%bool.
Definition is_newline (c : char) : bool := N.eqb c 10.
Definition re_blank_eol : regex := [Many is_blank 1; One is_newline].
Definition re_newlines : regex := [Many is_newline 3].

Definition sanitize_whitespace (text : option pystr) : pystr :=
  let text := or_empty text in
  let text := replace [13%N] [10%N] (replace [13%N; 10%N] [10%N] text) in
  let text := re_sub re_blank_eol (fun _ => [10%N]) text in
  let text := re_sub re_newlines (fun _ => [10%N; 10%N]) text in
  strip text.

(** [text[:max_chars]] for an [int]: a negative bound counts from the end. *)
Definition slice_to (max_chars : Z) (s : pystr) : pystr :=
  if (0 <=? max_chars)%Z then take (Z.to_nat max_chars) s
  else take (length s - Z.to_nat (- max_chars)) s.

Definition clamp_chars (text : option pystr) (max_chars : Z) : pystr :=
  strip (slice_to max_chars (or_empty text)).

(** The body of [pdf_bytes_to_text] once the reader has opened the file:
    [pages] is what [page.extract_text()] returned, page by page. *)
Definition pdf_pages_to_text (pages : list (option pystr)) : pystr :=
  sanitize_whitespace (Some (join [nl] (map or_empty pages))).

(** ** utility.py: the LinkedIn page *)

(** [sub in s] *)
Fixpoint occurs (sub s : pystr) : bool :=
  (starts_with sub s
   || match s with
      | [] => false
      | _ :: s' => occurs sub s'
      end)%bool.

Definition job_signals : list pystr :=
  [ lit "jobs-guest-frontend"; lit "d_jobs_guest_details";
    lit "mx-details-container-padding"; lit "description__text";
    lit "decorated-job-posting__details" ].

Definition strong_authwall : list pystr :=
  [ lit "authwall"; lit "checkpoint/challenge"; lit "/uas/login";
    lit "session_redirect"; lit "fromsignin=true" ].

(** [lower] is the Latin-1 one of the model.  Of the markers only
    [checkpoint/challenge] has a letter that a character outside Latin-1
    lower-cases to (the Kelvin sign, to [k]): on a page that spells the
    marker with it, Python finds the marker and this definition does not. *)
Definition looks_like_authwall (html : option pystr) : bool :=
  let h := lower (or_empty html) in
  if existsb (fun s => occurs s h) job_signals then false
  else existsb (fun s => occurs s h) strong_authwall.

(** The line boundaries of [str.splitlines]: LF, VT, FF, CR (and CR LF as
    one), FS, GS, RS, NEL, LS and PS. *)
Definition is_linebreak (c : char) : bool :=
  (in_range 10 13 c || in_range 28 30 c || N.eqb c 133 || N.eqb c 8232 || N.eqb c 8233)%bool.

(** [s.splitlines()]: the lines without their ends; no empty last line. *)
Fixpoint splitlines (s : pystr) : list pystr :=
  match s with
  | [] => []
  | c :: s' =>
      if is_linebreak c then
        [] :: (if N.eqb c 13
               then match s' with
                    | d :: s'' => if N.eqb d 10 then splitlines s'' else splitlines s'
                    | [] => splitlines s'
                    end
               else splitlines s')
      else
        match splitlines s' with
        | line :: lines => (c :: line) :: lines
        | [] => [[c]]
        end
  end.

(** The lines [remove_show_more_less] keeps.  No character outside Latin-1
    lower-cases to a letter of the two phrases, so the Latin-1 [lower] of
    the model decides as Python's does. *)
Definition kept_line (line : pystr) : Prop :=
  line <> [] /\ lower line <> lit "show more" /\ lower line <> lit "show less".

#[global] Instance kept_line_dec line : Decision (kept_line line).
Proof. unfold kept_line. apply _. Defined.

Definition remove_show_more_less (text : option pystr) : pystr :=
  join [nl] (filter kept_line (map strip (splitlines (or_empty text)))).

(** ** webapp.py: the upload *)

(** [s.endswith(suffix)] *)
Definition ends_with (suffix s : pystr) : bool := starts_with (rev suffix) (rev s).

(** The uploaded file: what [cv.file.read()] gives, and [cv.filename]. *)
Record UploadFile := {
  file_bytes : list N;
  filename : option pystr }.

(** The libraries behind the upload: [pypdf] (the text of each page, or
    the exception of the reader), the UTF-8 decoder with [errors="ignore"],
    [requests] ([r.text], or the exception of the request or of
    [raise_for_status]) and the two [BeautifulSoup] selections of
    utility.py, before the repository's own clean-up of their text. *)
Class WebLibraries := {
  PdfReader_pages_text : list N -> result (list (option pystr));
  decode_utf8_ignore : list N -> pystr;
  requests_get_text : pystr -> result pystr;
  soup_job_text : pystr -> pystr;
  soup_title_text : pystr -> pystr }.

Section Upload.
Context `{L : WebLibraries}.

Definition pdf_bytes_to_text (data : list N) : result pystr :=
  match PdfReader_pages_text data with
  | Raise e => Raise e
  | Return pages => Return (pdf_pages_to_text pages)
  end.

Definition fetch_html (url : pystr) : M pystr := lift (requests_get_text url).

Definition extract_job_text_from_linkedin_html (html : pystr) : pystr :=
  sanitize_whitespace (Some (remove_show_more_less (Some (soup_job_text html)))).

Definition extract_linkedin_job_title (html : pystr) : pystr :=
  sanitize_whitespace (Some (soup_title_text html)).

(** The arguments of the [run_job] task handed to [background_tasks]. *)
Record Task := {
  task_job_id : pystr;
  task_cv_txt : pystr;
  task_job_txt : pystr;
  task_job_title : pystr }.

(** [upload]: [job_id] is what [new_job_id()] returned; the result is the
    response and the task added to [background_tasks], if any. *)
Definition upload (PROJECT_ROOT job_id : pystr) (cv : UploadFile) (job_url : pystr)
  : M (response * option Task) :=
  let wait := RedirectResponse (wait_url job_id) 303 in
  set_status job_id (lit "UPLOADED") None [];;
  let cv_bytes := file_bytes cv in
  match cv_bytes with
  | [] =>
      set_status job_id (lit "ERROR") (Some (lit "File CV vuoto o non leggibile.")) [];;
      mret (wait, None)
  | _ =>
      let cv_name := lower (or_empty (filename cv)) in
      cv_txt ← (if ends_with (lit ".pdf") cv_name
                then lift (pdf_bytes_to_text cv_bytes)
                else mret (decode_utf8_ignore cv_bytes));
      let cv_txt := sanitize_whitespace (Some cv_txt) in
      save_text_input PROJECT_ROOT job_id (lit "cv.txt") cv_txt;;
      let job_url_clean := strip job_url in
      match job_url_clean with
      | [] =>
          set_status job_id (lit "ERROR")
            (Some (lit "URL della posizione LinkedIn mancante.")) [];;
          mret (wait, None)
      | _ =>
          (* the [try] covers the call of [fetch_html] only *)
          fetched ← try_except (html ← fetch_html job_url_clean; mret (Return html))
                      (fun e => mret (Raise e));
          match fetched with
          | Raise e =>
              save_text_input PROJECT_ROOT job_id (lit "fetch_error.txt") (exn_msg e);;
              set_status job_id (lit "ERROR")
                (Some (lit "Errore nel recupero della pagina LinkedIn (fetch).")) [];;
              mret (wait, None)
          | Return html =>
              save_text_input PROJECT_ROOT job_id (lit "linkedin_job_raw.html") html;;
              if looks_like_authwall (Some html) then
                set_status job_id (lit "ERROR")
                  (Some (lit "LinkedIn ha restituito una pagina di login/authwall.")) [];;
                mret (wait, None)
              else
                let job_title := extract_linkedin_job_title html in
                let job_txt := extract_job_text_from_linkedin_html html in
                let job_txt := sanitize_whitespace (Some job_txt) in
                mret (wait, Some {| task_job_id := job_id; task_cv_txt := cv_txt;
                                    task_job_txt := job_txt; task_job_title := job_title |})
          end
      end
  end.
End Upload.

(** * Reference definitions

    What the specification says in words, written as functions of their
    own, to be compared with the functions translated from the sources. *)

(** The top blockers as the specification words them: the gaps sorted by
    impact, capped at three, and the missing must-have requirements only
    when there is no gap at all. *)
Definition blockers_as_specified (report : FitReport) : list pystr :=
  match gaps report with
  | [] => take 3 (map requirement (filter (has_status Missing) (must_have_match report)))
  | gs => take 3 (map gap (sorted impact_rank gs))
  end.

(** The gaps of a given impact, in their order in the report. *)
Definition gaps_of_impact (l : Level) (gs : list GapItem) : list GapItem :=
  filter (fun g => impact g = l) gs.

(** What [html_escape] does to one character, in a single pass: 60 and 62
    are the angle brackets. *)
Definition escape_char (c : char) : pystr :=
  if N.eqb c amp then ent_amp
  else if N.eqb c 60 then ent_lt
  else if N.eqb c 62 then ent_gt
  else if N.eqb c dquote then ent_quot
  else if N.eqb c squote then ent_apos
  else [c].

(** The text starts with one of the five entities. *)
Definition begins_entity (l : pystr) : bool :=
  (starts_with ent_amp l || starts_with ent_lt l || starts_with ent_gt l
   || starts_with ent_quot l || starts_with ent_apos l)%bool.

(** Every ampersand of the text starts an entity. *)
Fixpoint amps_begin_entities (l : pystr) : bool :=
  match l with
  | [] => true
  | c :: l' => ((if N.eqb c amp then begins_entity l else true) && amps_begin_entities l')%bool
  end.

(** A character that must not reach HTML text unescaped. *)
Definition markup_char (c : char) : Prop :=
  c = 60%N \/ c = 62%N \/ c = dquote \/ c = squote.

(** The keys of the value map whose values are not escaped as a whole. *)
Definition unescaped_key (k : pystr) : Prop :=
  k = lit "score_bar_class" \/ k = lit "strengths_cards" \/ k = lit "blockers_cards".

(** A stand-in for the libraries, for running the pipeline on examples: the
    validators answer with fixed models, [format] appends its arguments and
    the template shows the score. *)
Definition demo_core : FitCore :=
  {| core_fit_score := 99;
     core_confidence := High;
     core_must_have_match :=
       [ {| requirement := lit "Python"; status := Match; evidence := [] |};
         {| requirement := lit "Docker"; status := Partial; evidence := [] |};
         {| requirement := lit "Kubernetes"; status := Missing; evidence := [] |} ];
     core_nice_to_have_match :=
       [ {| requirement := lit "MLflow"; status := Match; evidence := [] |} ];
     core_gaps := [ {| gap := lit "No Kubernetes"; impact := High; how_to_fix := [] |} ] |}.

Definition demo_suggestions : FitSuggestions :=
  {| sugg_summary := lit "Good fit";
     sugg_cv_suggestions := [];
     sugg_linkedin_suggestions := [];
     sugg_ats_keywords := [];
     sugg_final_note := lit "Apply" |}.

Definition demo_externals : Externals :=
  {| json_dumps_pretty := fun v =>
       match v with
       | PyDict ((_, PyInt n) :: _) => lit "fit_score=" ++ str_of_Z n
       | _ => lit "{}"
       end;
     str_format := fun tpl kw => Return (tpl ++ concat (map snd kw));
     FitCore_model_validate := fun data =>
       match data with
       | PyDict _ => Return demo_core
       | _ => Raise (Exn LibraryError (lit "ValidationError"))
       end;
     FitSuggestions_model_validate := fun data =>
       match data with
       | PyDict ((_, PyStr _) :: _) => Return demo_suggestions
       | _ => Raise (Exn LibraryError (lit "ValidationError"))
       end;
     report_template := lit "<h1>{{job_title}}</h1><p>{{fit_score}}</p>" |}.

(** The scorer as the specification words it, in exact arithmetic: an item
    contributes its full weight on a match, half of it on a partial match
    and nothing when missing. *)
Definition contribution (weight : Q) (it : MatchItem) : Q :=
  match status it with
  | Match => weight
  | Partial => weight / 2
  | Missing => 0
  end.

Definition section_sum (weight : Q) (items : list MatchItem) : Q :=
  fold_right (fun it acc => contribution weight it + acc)%Q 0%Q items.

(** Each item of a non-empty list weighs [section_weight / item_count]; an
    empty list contributes 0. *)
Definition section_reference (items : list MatchItem) (section_weight : Q) : Q :=
  match items with
  | [] => 0
  | _ => section_sum (section_weight / inject_Z (Z.of_nat (length items))) items
  end.

Definition score_reference (must_have nice_to_have : list MatchItem) : Q :=
  (section_reference must_have 70 + section_reference nice_to_have 30)%Q.

(** [r] is an integer nearest to [q]. *)
Definition nearest_integer (q : Q) (r : Z) : Prop :=
  (inject_Z r - (1 # 2) <= q)%Q /\ (q <= inject_Z r + (1 # 2))%Q.

Definition clamp_0_100 (z : Z) : Z := Z.max 0 (Z.min 100 z).

(** An upgrade of a status: missing to partial, partial to match, or
    missing to match. *)
Inductive upgrades : Status -> Status -> Prop :=
  | up_missing_partial : upgrades Missing Partial
  | up_partial_match : upgrades Partial Match
  | up_missing_match : upgrades Missing Match.

Definition with_status (st : Status) (m : MatchItem) : MatchItem :=
  {| requirement := requirement m; status := st; evidence := evidence m |}.

(** The second list is the first with the status of one item upgraded. *)
Inductive upgrade_one : list MatchItem -> list MatchItem -> Prop :=
  | upgrade_at pre it st post :
      upgrades (status it) st ->
      upgrade_one (pre ++ it :: post) (pre ++ with_status st it :: post).

Definition item (st : Status) : MatchItem :=
  {| requirement := lit "requirement"; status := st; evidence := [] |}.

(** Where [process_job] keeps its files. *)
Definition llm_debug_dir_of (app_root job_id : pystr) : pystr :=
  path_join (path_join (path_join app_root (lit "jobs")) job_id) (lit "llm").

Definition json_path_of (app_root job_id : pystr) : pystr :=
  path_join (path_join (path_join app_root (lit "outputs")) job_id) (lit "fit_report.json").

Definition html_path_of (app_root job_id : pystr) : pystr :=
  path_join (path_join (path_join app_root (lit "outputs")) job_id) (lit "report.html").

Definition paths_of (app_root job_id : pystr) : list (pystr * pystr) :=
  [(lit "json_path", json_path_of app_root job_id);
   (lit "html_path", html_path_of app_root job_id)].

(** The suggestions a stage-2 outcome leaves the merge with. *)
Definition suggestions_or_default (stage2 : result FitSuggestions) : FitSuggestions :=
  match stage2 with
  | Return s => s
  | Raise _ => FitSuggestions_default
  end.

(** The report [process_job] writes, given what the two stages returned. *)
Definition report_of {F : Type} `{Arith F}
    (fit_core : FitCore) (stage2 : result FitSuggestions) : FitReport :=
  merge_final_report
    (compute_fit_score (core_must_have_match fit_core) (core_nice_to_have_match fit_core)
       must_total_default nice_total_default)
    fit_core (suggestions_or_default stage2).

(** A stage-1 result that reports another [fit_score]. *)
Definition with_core_fit_score (v : Z) (c : FitCore) : FitCore :=
  {| core_fit_score := v;
     core_confidence := core_confidence c;
     core_must_have_match := core_must_have_match c;
     core_nice_to_have_match := core_nice_to_have_match c;
     core_gaps := core_gaps c |}.

(** A world with an API key, an empty file system and a scripted LLM. *)
Definition demo_world (replies : list (result pystr)) : world :=
  {| files := ∅;
     job_table := ∅;
     environ := {[ lit "OPENAI_API_KEY" := lit "sk-demo" ]};
     llm_replies := replies;
     llm_calls := [] |}.


(** [{"a":1}] and [{"summary":"ok"}] *)
Definition demo_reply_core : pystr := lit "{" ++ dq (lit "a") ++ lit ":1}".
Definition demo_reply_sugg : pystr :=
  lit "{" ++ dq (lit "summary") ++ lit ":" ++ dq (lit "ok") ++ lit "}".

(** The status entries [run_job] ends with. *)
Definition job_done (paths : list (pystr * pystr)) : JobRecord :=
  {| js_status := lit "DONE"; js_error := None; js_extra := paths |}.

Definition job_error (msg : pystr) : JobRecord :=
  {| js_status := lit "ERROR"; js_error := Some msg; js_extra := [] |}.

(** The world [run_job] hands to [process_job]: the job is marked RUNNING. *)
Definition running (job_id : pystr) (w : world) : world :=
  fst (set_status job_id (lit "RUNNING") None [] w).

(** The character after the leading whitespace of [s], if any. *)
Definition after_spaces (s : pystr) : option char := head (drop (span_len is_space s) s).

(** The leading whitespace of [s] is followed by a character of class [p]. *)
Definition spaces_then (p : char -> bool) (s : pystr) : bool :=
  match after_spaces s with
  | Some d => p d
  | None => false
  end.

(** Every run of two or more whitespace characters becomes one space; a
    whitespace character on its own stays as it is.  [in_run] says that the
    space for the current run is already out. *)
Fixpoint collapse_runs (in_run : bool) (s : pystr) : pystr :=
  match s with
  | [] => []
  | c :: s' =>
      if is_space c then
        if in_run then collapse_runs true s'
        else
          match s' with
          | d :: _ => if is_space d then 32%N :: collapse_runs true s'
                      else c :: collapse_runs false s'
          | [] => [c]
          end
      else c :: collapse_runs false s'
  end.

(** Every whitespace run, of any length, that stands between two
    alphanumeric characters is deleted.  [after_alnum] says that the last
    character kept is alphanumeric and nothing but deleted whitespace
    followed it. *)
Fixpoint delete_runs_between_alnum (after_alnum : bool) (s : pystr) : pystr :=
  match s with
  | [] => []
  | c :: s' =>
      if (is_space c && after_alnum && spaces_then is_alnum s')%bool
      then delete_runs_between_alnum true s'
      else c :: delete_runs_between_alnum (is_alnum c) s'
  end.

(** Only a whitespace character standing alone between two alphanumeric
    characters is deleted. *)
Fixpoint delete_single_spaces_between_alnum (after_alnum : bool) (s : pystr) : pystr :=
  match s with
  | [] => []
  | c :: s' =>
      if (is_space c && after_alnum
          && match s' with d :: _ => is_alnum d | [] => false end)%bool
      then delete_single_spaces_between_alnum false s'
      else c :: delete_single_spaces_between_alnum (is_alnum c) s'
  end.

(** The normalizer with a given treatment of spaced-out text. *)
Definition normalize_with (despace : pystr -> pystr) (text : option pystr) : pystr :=
  let t := strip (or_empty text) in
  match t with
  | [] => []
  | _ =>
      if length (re_findall re_pair t) <? 25
      then strip (collapse_runs false t)
      else strip (collapse_runs false (despace t))
  end.

(** The normalizer as the specification words it. *)
Definition normalize_as_specified : option pystr -> pystr :=
  normalize_with (delete_single_spaces_between_alnum false).

(** Neither the first nor the last character is whitespace. *)
Definition trimmed (s : pystr) : Prop :=
  (forall c, head s = Some c -> is_space c = false)
  /\ (forall c, last s = Some c -> is_space c = false).

(** Text as some PDF extractors give it: letters one space apart, words
    three spaces apart. *)
Definition spaced_out_text : pystr :=
  lit "S e n i o r   D a t a   E n g i n e e r   w i t h   P y t h o n   a n d   S Q L   s k i l l s   a n d   c l o u d   e x p e r i e n c e".

(** Index of the first character of class [p]. *)
Fixpoint find_index (p : char -> bool) (s : pystr) : option nat :=
  match s with
  | [] => None
  | c :: s' => if p c then Some 0 else S <$> find_index p s'
  end.

(** Index of the last character of class [p]. *)
Fixpoint last_index (p : char -> bool) (s : pystr) : option nat :=
  match s with
  | [] => None
  | c :: s' =>
      match last_index p s' with
      | Some j => Some (S j)
      | None => if p c then Some 0 else None
      end
  end.

(** The text from the first opening brace to the last closing brace after
    it, both included. *)
Definition brace_span (s : pystr) : option pystr :=
  match find_index (N.eqb 123) s with
  | None => None
  | Some i =>
      match last_index (N.eqb 125) (drop (S i) s) with
      | None => None
      | Some k => Some (take (k + 2) (drop i s))
      end
  end.

(** A carriage return or a newline becomes a space. *)
Definition nl_to_space (c : char) : char :=
  if (N.eqb c 13 || N.eqb c 10)%bool then 32%N else c.

(** A comma followed, after optional whitespace, by a closing brace or
    bracket is deleted together with that whitespace.  [in_gap] says that
    such a comma has just been deleted. *)
Fixpoint drop_trailing_commas (in_gap : bool) (s : pystr) : pystr :=
  match s with
  | [] => []
  | c :: s' =>
      if (N.eqb 44 c && spaces_then is_closer s')%bool then drop_trailing_commas true s'
      else if (in_gap && is_space c)%bool then drop_trailing_commas true s'
      else c :: drop_trailing_commas false s'
  end.

(** Only the comma is deleted. *)
Fixpoint drop_commas_only (s : pystr) : pystr :=
  match s with
  | [] => []
  | c :: s' =>
      if (N.eqb 44 c && spaces_then is_closer s')%bool then drop_commas_only s'
      else c :: drop_commas_only s'
  end.

(** The extractor with a given repair of trailing commas. *)
Definition extract_with (repair : pystr -> pystr) (text : pystr) : result pystr :=
  match text with
  | [] => Raise (Exn ValueError (lit "Empty LLM output"))
  | _ =>
      match brace_span text with
      | None => Raise (Exn ValueError (lit "No JSON object found in LLM output"))
      | Some span => Return (repair (map nl_to_space span))
      end
  end.

(** The extractor as the specification words it. *)
Definition extract_as_specified : pystr -> result pystr := extract_with drop_commas_only.

(** [Here is the result: {"a":1,} done], [{"a":1}], [{"a":1, }] and
    [{"a":1 }]. *)
Definition llm_text_example : pystr :=
  lit "Here is the result: {" ++ dq (lit "a") ++ lit ":1,} done".
Definition json_a1 : pystr := lit "{" ++ dq (lit "a") ++ lit ":1}".
Definition json_a1_comma_space : pystr := lit "{" ++ dq (lit "a") ++ lit ":1, }".
Definition json_a1_space : pystr := lit "{" ++ dq (lit "a") ++ lit ":1 }".

(** ** Running the scorer in binary64 next to exact arithmetic

    To compare the floating-point scorer with the reference on every pair
    of lists up to a given length, the values its accumulator can take are
    enumerated, each with the exact sum it stands for. *)

#[global] Instance spec_float_eq_dec : EqDecision spec_float.
Proof. solve_decision. Defined.

#[global] Instance float_eq_dec : EqDecision float.
Proof.
  intros x y. destruct (decide (Prim2SF x = Prim2SF y)) as [Heq|Hne].
  - left. by apply Prim2SF_inj.
  - right. intros ->. by apply Hne.
Defined.

#[global] Instance Q_eq_dec : EqDecision Q.
Proof. solve_decision. Defined.

(** One turn of the loop of [section], on the binary64 accumulator and on
    the exact sum (kept in lowest terms). *)
Definition lock_step (wf : float) (wq : Q) (a : float * Q) (st : Status) : float * Q :=
  match st with
  | Match => (f_add (fst a) wf, Qred (snd a + wq))
  | Partial => (f_add (fst a) (f_mul half wf), Qred (snd a + wq / 2))
  | Missing => a
  end.

Definition successors (wf : float) (wq : Q) (states : list (float * Q)) : list (float * Q) :=
  remove_dups
    (flat_map (fun a => [lock_step wf wq a Match; lock_step wf wq a Partial;
                         lock_step wf wq a Missing]) states).

(** The accumulator values after [k] items of weight [wf]. *)
Fixpoint reach (wf : float) (wq : Q) (k : nat) : list (float * Q) :=
  match k with
  | 0 => [(of_int 0, 0%Q)]
  | S k' => successors wf wq (reach wf wq k')
  end.

(** The values of [section] on the lists of at most [bound] items. *)
Definition section_values (total : Z) (bound : nat) : list (float * Q) :=
  remove_dups
    (flat_map
       (fun n => reach (f_div (of_int total) (of_int (Z.of_nat n)))
                   (inject_Z total / inject_Z (Z.of_nat n)) n)
       (seq 0 (S bound))).

Definition nearest_integer_b (q : Q) (r : Z) : bool :=
  (Qle_bool (inject_Z r - (1 # 2)) q && Qle_bool q (inject_Z r + (1 # 2)))%bool.

(** Every binary64 score of two lists of at most [bound] items is an
    integer nearest to the exact sum. *)
Definition scores_nearest (bound : nat) : bool :=
  let must_values := section_values 70 bound in
  let nice_values := section_values 30 bound in
  forallb
    (fun a =>
       forallb
         (fun b =>
            nearest_integer_b (snd a + snd b)
              (Z.max 0 (Z.min 100 (py_round (f_add (fst a) (fst b))))))
         nice_values)
    must_values.

(** The list length up to which the binary64 scorer is checked. *)
Definition checked_length : nat := 15.

(** Four matches, a partial match (in third place) and a missing item out of
    six must-haves,
    one partial match out of five nice-to-haves: the exact sum is 55.5. *)
Definition tie_must : list MatchItem :=
  [item Match; item Match; item Partial; item Match; item Match; item Missing].
Definition tie_nice : list MatchItem :=
  [item Partial; item Missing; item Missing; item Missing; item Missing].

(** ** What a computation leaves alone *)

(** [m] takes every world to one related to it by [R]. *)
Definition respects (R : world -> world -> Prop) {A} (m : M A) : Prop :=
  forall w, R w (fst (m w)).

(** The job table is as before. *)
Definition same_jobs (w w' : world) : Prop := job_table w' = job_table w.

(** Every file outside the paths [P] is as before. *)
Definition same_files_outside (P : pystr -> Prop) (w w' : world) : Prop :=
  forall p, ~ P p -> files w' !! p = files w !! p.

(** [p] is a file directly inside the directory [d]. *)
Definition inside (d p : pystr) : Prop := exists name, p = path_join d name.

(** The files [process_job] may write for a job: its LLM debug files and
    its two reports. *)
Definition job_outputs (app_root job_id p : pystr) : Prop :=
  inside (llm_debug_dir_of app_root job_id) p
  \/ p = json_path_of app_root job_id
  \/ p = html_path_of app_root job_id.

Definition error_path_of (app_root job_id : pystr) : pystr :=
  path_join (path_join (path_join app_root (lit "jobs")) job_id) (lit "error.txt").

(** The environment is as before. *)
Definition same_environ (w w' : world) : Prop := environ w' = environ w.

(** ** One LLM stage, step by step *)


(** The world after [path] was written. *)
Definition with_file (path content : pystr) (w : world) : world :=
  fst (write_text path (Some content) w).

(** The world after the LLM was asked and [rest] of its script is left. *)
Definition asked (system_prompt user_prompt : pystr) (rest : list (result pystr))
    (w : world) : world :=
  {| files := files w; job_table := job_table w; environ := environ w;
     llm_replies := rest;
     llm_calls := llm_calls w ++ [(system_prompt, user_prompt)] |}.

(** What a stage with debug directory [d] and file prefix [stage] does once
    its prompt is formatted: the two analysis functions are instances. *)
Definition stage_run {A} (stage : pystr) (validate : pyval -> result A)
    (system_prompt : pystr) (user_prompt : result pystr) (d : pystr) (w : world)
  : world * result A :=
  let file name := path_join d (stage ++ lit name) in
  match user_prompt with
  | Raise e => (w, Raise e)
  | Return prompt =>
      let w1 := with_file (file "_user_prompt.txt") prompt
                  (with_file (file "_system.txt") system_prompt w) in
      match llm_replies w with
      | [] => (asked system_prompt prompt [] w1,
               Raise (Exn LibraryError (lit "LLM client: no response")))
      | Raise e :: rest => (asked system_prompt prompt rest w1, Raise e)
      | Return raw :: rest =>
          let w2 := with_file (file "_raw.txt") raw (asked system_prompt prompt rest w1) in
          match extract_json_safely raw with
          | Raise e => (w2, Raise e)
          | Return json_text =>
              let w3 := with_file (file "_json_extracted.txt") json_text w2 in
              match json_loads json_text with
              | Raise e => (with_file (file "_parse_error.txt") (exn_msg e) w3, Raise e)
              | Return data =>
                  match validate data with
                  | Raise e =>
                      (with_file (file "_validation_error.txt") (exn_msg e) w3, Raise e)
                  | Return a => (w3, Return a)
                  end
              end
          end
      end
  end.

(** The requests of [w'] are those of [w] followed by [k] more, answered
    by the next [k] replies of the script. *)
Definition asked_times (k : nat) (w w' : world) : Prop :=
  take (length (llm_calls w)) (llm_calls w') = llm_calls w
  /\ length (llm_calls w') = length (llm_calls w) + k
  /\ llm_replies w' = drop k (llm_replies w).

(** ** The job table and the routes *)

(** Every finished job carries the two paths the file routes read. *)
Definition done_has_paths (tbl : gmap pystr JobRecord) : Prop :=
  forall id r, tbl !! id = Some r -> js_status r = lit "DONE" ->
    (exists p, extra_item r (lit "html_path") = Return p)
    /\ (exists p, extra_item r (lit "json_path") = Return p).

Definition default_error_message : pystr :=
  lit "An unexpected error occurred during the analysis.".

(** ** Texts the extractor has nothing to repair in *)

(** Somewhere a comma is followed, after optional whitespace, by a closing
    brace or bracket. *)
Fixpoint has_trailing_comma (s : pystr) : bool :=
  match s with
  | [] => false
  | c :: s' => (N.eqb 44 c && spaces_then is_closer s') || has_trailing_comma s'
  end.

Definition line_break (c : char) : Prop := c = 13%N \/ c = 10%N.

(** Brace-delimited, on one line, without a trailing comma. *)
Definition tidy_object (s : pystr) : Prop :=
  head s = Some 123%N /\ last s = Some 125%N /\ 2 <= length s
  /\ Forall (fun c => ~ line_break c) s
  /\ has_trailing_comma s = false.

(** ** Clean text *)

(** A space or tab stands right before a newline. *)
Fixpoint blank_eol (s : pystr) : bool :=
  match s with
  | [] => false
  | c :: s' => (is_blank c && bool_decide (head s' = Some 10%N)) || blank_eol s'
  end.

(** Three newlines in a row. *)
Fixpoint triple_newline (s : pystr) : bool :=
  match s with
  | [] => false
  | _ :: s' => (3 <=? span_len is_newline s) || triple_newline s'
  end.

(** No carriage return, no blank at the end of a line, at most one empty
    line in a row, no whitespace at either end. *)
Definition clean_text (s : pystr) : Prop :=
  (13%N ∉ s) /\ blank_eol s = false /\ triple_newline s = false /\ trimmed s.

(** The blanks before a newline go; read from the right, a blank is dropped
    when what follows it in the result is a newline. *)
Definition keep_unless_blank_eol (c : char) (acc : pystr) : pystr :=
  if (is_blank c && bool_decide (head acc = Some 10%N))%bool then acc else c :: acc.

Definition strip_eol_blanks (s : pystr) : pystr := foldr keep_unless_blank_eol [] s.

(** Of a run of newlines the first two stay; [k] newlines of the current
    run are already out. *)
Fixpoint squeeze_newlines (k : nat) (s : pystr) : pystr :=
  match s with
  | [] => []
  | c :: s' =>
      if is_newline c then
        if k <? 2 then c :: squeeze_newlines (S k) s' else squeeze_newlines k s'
      else c :: squeeze_newlines 0 s'
  end.

(** ** Decisions in order *)

(** NO below MAYBE below YES. *)
Definition decision_rank (d : UiDecision) : nat :=
  if decide (d_code d = lit "YES") then 2
  else if decide (d_code d = lit "MAYBE") then 1
  else 0.

(** [demo_core] with its partial match upgraded to a match. *)
Definition demo_core_upgraded : FitCore :=
  {| core_fit_score := 99;
     core_confidence := High;
     core_must_have_match :=
       [ {| requirement := lit "Python"; status := Match; evidence := [] |};
         with_status Match {| requirement := lit "Docker"; status := Partial; evidence := [] |};
         {| requirement := lit "Kubernetes"; status := Missing; evidence := [] |} ];
     core_nice_to_have_match := core_nice_to_have_match demo_core;
     core_gaps := core_gaps demo_core |}.

(** ** The upload *)

(** The text of the uploaded CV before it is sanitized: the PDF reader for
    a file named [*.pdf] in any case, the UTF-8 decoder otherwise. *)
Definition cv_text_of `{L : WebLibraries} (cv : UploadFile) : result pystr :=
  if ends_with (lit ".pdf") (lower (or_empty (filename cv)))
  then pdf_bytes_to_text (file_bytes cv)
  else Return (decode_utf8_ignore (file_bytes cv)).

Definition job_uploaded : JobRecord :=
  {| js_status := lit "UPLOADED"; js_error := None; js_extra := [] |}.

(** A file of the job directory. *)
Definition job_file (project_root job_id name : pystr) : pystr :=
  path_join (path_join (path_join project_root (lit "jobs")) job_id) name.

(** A stand-in for the libraries of the upload: no PDF can be read, bytes
    decode to themselves, every page fetched is the one given. *)
Definition demo_web (page : result pystr) : WebLibraries :=
  {| PdfReader_pages_text := fun _ => Raise (Exn LibraryError (lit "PdfReadError"));
     decode_utf8_ignore := fun b => b;
     requests_get_text := fun _ => page;
     soup_job_text := fun html => html;
     soup_title_text := fun _ => lit "Engineer" |}.

(** ** Counting the spaced-out pairs *)

(** Where the scan for [alnum, whitespace run, alnum] stands: nothing
    pending, right after an alphanumeric character, or in the whitespace
    after one. *)
Inductive pair_state := Idle | AfterAlnum | InGap.

(** The number of non-overlapping pairs, read in one pass: the character
    that closes a pair cannot open the next one. *)
Fixpoint count_pairs (st : pair_state) (s : pystr) : nat :=
  match s with
  | [] => 0
  | c :: s' =>
      if is_alnum c then
        match st with
        | InGap => S (count_pairs Idle s')
        | _ => count_pairs AfterAlnum s'
        end
      else if is_space c then
        match st with
        | Idle => count_pairs Idle s'
        | _ => count_pairs InGap s'
        end
      else count_pairs Idle s'
  end.

(** Two whitespace characters in a row. *)
Fixpoint double_space (s : pystr) : bool :=
  match s with
  | [] => false
  | c :: s' =>
      (is_space c && match s' with d :: _ => is_space d | [] => false end)
      || double_space s'
  end.

(** * Theorems *)

(** ** Facts about lists *)

Section Filter.
Context {A : Type} (P : A -> Prop) `{!forall x, Decision (P x)}.

Lemma filter_all (l : list A) : Forall P l -> filter P l = l.
Proof.
  induction 1 as [|x l Hx _ IH]; [reflexivity |].
  rewrite filter_cons_True by assumption. by rewrite IH.
Qed.

Lemma filter_none (l : list A) : Forall (fun x => ~ P x) l -> filter P l = [].
Proof.
  induction 1 as [|x l Hx _ IH]; [reflexivity |].
  by rewrite filter_cons_False.
Qed.
End Filter.

(** ** The decision mapper *)

Lemma has_missing_must_iff (must : list MatchItem) :
  (0 <? length (filter (has_status Missing) must)) = true
  <-> Exists (has_status Missing) must.
Proof.
  rewrite Nat.ltb_lt. induction must as [|m must IH]; simpl.
  - split; [lia | intros Hx; inversion Hx].
  - rewrite filter_cons. destruct (decide (has_status Missing m)) as [Hm|Hm]; simpl.
    + split; [intros _; by left | lia].
    + rewrite IH. split; [by right | intros Hx; inversion Hx; subst; [done | assumption]].
Qed.

Lemma has_high_gap_iff (gs : list GapItem) :
  existsb (fun g => bool_decide (impact g = High)) gs = true
  <-> Exists (fun g => impact g = High) gs.
Proof.
  rewrite existsb_exists, Exists_exists. split.
  - intros (g & Hin & Hg). exists g. split; [by apply list_elem_of_In | by apply bool_decide_eq_true in Hg].
  - intros (g & Hin & Hg). exists g. split; [by apply list_elem_of_In | by apply bool_decide_eq_true].
Qed.

(** C4. [decide_ui] answers YES on a score of at least 75 with no missing
    must-have and no high-impact gap, MAYBE on such a score with a missing
    must-have or a high-impact gap, MAYBE on every score from 55 to 74
    whatever the lists hold, and NO below 55, where the reason is the one for
    missing must-haves if there is one, else the one for high-impact gaps if
    there is one, else the generic low-fit reason. *)
Theorem decide_ui_rules (report : FitReport) :
  let missing := Exists (has_status Missing) (must_have_match report) in
  let high := Exists (fun g => impact g = High) (gaps report) in
  let d := decide_ui report in
  ((75 <= fit_score report)%Z -> ~ missing -> ~ high -> d_code d = lit "YES")
  /\ ((75 <= fit_score report)%Z -> missing \/ high -> d_code d = lit "MAYBE")
  /\ ((55 <= fit_score report < 75)%Z -> d_code d = lit "MAYBE")
  /\ ((fit_score report < 55)%Z ->
        d_code d = lit "NO"
        /\ (missing -> d_reason d = reason_missing_must)
        /\ (~ missing -> high -> d_reason d = reason_high_gap)
        /\ (~ missing -> ~ high -> d_reason d = reason_low)).
Proof.
  intros missing high d. subst d. unfold decide_ui.
  pose proof (has_missing_must_iff (must_have_match report)) as Hm.
  pose proof (has_high_gap_iff (gaps report)) as Hh.
  fold missing in Hm. fold high in Hh.
  destruct (0 <? length (filter (has_status Missing) (must_have_match report))) eqn:Em;
    destruct (existsb (fun g => bool_decide (impact g = High)) (gaps report)) eqn:Eh;
    destruct (75 <=? fit_score report)%Z eqn:E75;
    destruct (55 <=? fit_score report)%Z eqn:E55;
    try apply Z.leb_le in E75; try apply Z.leb_gt in E75;
    try apply Z.leb_le in E55; try apply Z.leb_gt in E55;
    simpl; repeat split; intros; try reflexivity; try lia;
    try (exfalso; tauto); try (exfalso; intuition congruence).
Qed.

(** ** Section canonicalization *)

Lemma ALLOWED_SECTIONS_spec (s : pystr) :
  s ∈ ALLOWED_SECTIONS
  <-> s = lit "summary" \/ s = lit "experience" \/ s = lit "skills"
      \/ s = lit "projects" \/ s = lit "other".
Proof. unfold ALLOWED_SECTIONS. rewrite !elem_of_union, !elem_of_singleton. tauto. Qed.

Lemma other_allowed : lit "other" ∈ ALLOWED_SECTIONS.
Proof. apply ALLOWED_SECTIONS_spec. tauto. Qed.


Lemma normalize_section_in (v : pyval) : normalize_section v ∈ ALLOWED_SECTIONS.
Proof.
  destruct v; simpl; try apply other_allowed.
  case_decide; [assumption | apply other_allowed].
Qed.



(** ** Top blockers *)

Section InsertSorted.
Context {A : Type} (key : A -> nat).

Lemma insert_sorted_front (x : A) (l : list A) :
  Forall (fun y => key x <= key y) l -> insert_sorted key x l = x :: l.
Proof.
  destruct l as [|y l]; [reflexivity |].
  intros Hall. apply Forall_cons in Hall as [Hy _]. simpl.
  apply Nat.leb_le in Hy. by rewrite Hy.
Qed.

Lemma insert_sorted_skip (x : A) (pre l : list A) :
  Forall (fun y => key y < key x) pre ->
  insert_sorted key x (pre ++ l) = pre ++ insert_sorted key x l.
Proof.
  induction pre as [|y pre IH]; [reflexivity |].
  intros Hall. apply Forall_cons in Hall as [Hy Hpre]. simpl.
  apply Nat.leb_gt in Hy. rewrite Hy. f_equal. by apply IH.
Qed.
End InsertSorted.

Lemma gaps_of_impact_rank (l : Level) (gs : list GapItem) :
  Forall (fun g => impact g = l) (gaps_of_impact l gs).
Proof.
  unfold gaps_of_impact. apply Forall_forall. intros g Hg.
  by apply list_elem_of_filter in Hg as [Hg _].
Qed.

(** Python's stable sort by impact rank lists the high gaps, then the medium
    ones, then the low ones, each group in its original order. *)
Lemma sorted_by_impact (gs : list GapItem) :
  sorted impact_rank gs
  = gaps_of_impact High gs ++ gaps_of_impact Medium gs ++ gaps_of_impact Low gs.
Proof.
  induction gs as [|g gs IH]; [reflexivity |].
  unfold sorted in *. simpl. rewrite IH. clear IH.
  pose proof (gaps_of_impact_rank High gs) as HH.
  pose proof (gaps_of_impact_rank Medium gs) as HM.
  pose proof (gaps_of_impact_rank Low gs) as HL.
  unfold gaps_of_impact at 4 5 6. rewrite !filter_cons.
  fold (gaps_of_impact High gs) (gaps_of_impact Medium gs) (gaps_of_impact Low gs).
  destruct (impact g) eqn:Eg; simpl.
  - apply insert_sorted_front.
    apply Forall_forall. intros y _. unfold impact_rank. rewrite Eg. lia.
  - rewrite insert_sorted_skip.
    + f_equal. apply insert_sorted_front. apply Forall_app. split.
      * eapply Forall_impl; [exact HM |]. intros y Hy. unfold impact_rank. by rewrite Eg, Hy.
      * eapply Forall_impl; [exact HL |]. intros y Hy. unfold impact_rank. rewrite Eg, Hy. lia.
    + eapply Forall_impl; [exact HH |]. intros y Hy. unfold impact_rank. rewrite Eg, Hy. lia.
  - rewrite app_assoc, insert_sorted_skip.
    + rewrite <- app_assoc. do 2 f_equal. apply insert_sorted_front.
      eapply Forall_impl; [exact HL |]. intros y Hy. unfold impact_rank. by rewrite Eg, Hy.
    + apply Forall_app. split.
      * eapply Forall_impl; [exact HH |]. intros y Hy. unfold impact_rank. rewrite Eg, Hy. lia.
      * eapply Forall_impl; [exact HM |]. intros y Hy. unfold impact_rank. rewrite Eg, Hy. lia.
Qed.

Lemma filter_high_medium_sorted (gs : list GapItem) :
  filter (fun g => impact g = High \/ impact g = Medium) (sorted impact_rank gs)
  = gaps_of_impact High gs ++ gaps_of_impact Medium gs.
Proof.
  rewrite sorted_by_impact, !filter_app.
  assert (Hkeep : forall l, l = High \/ l = Medium ->
            filter (fun g => impact g = High \/ impact g = Medium) (gaps_of_impact l gs)
            = gaps_of_impact l gs).
  { intros l Hl. apply filter_all.
    eapply Forall_impl; [apply gaps_of_impact_rank |]. intros g Hg. simpl. rewrite Hg. exact Hl. }
  rewrite (Hkeep High), (Hkeep Medium) by tauto.
  assert (Hdrop : filter (fun g => impact g = High \/ impact g = Medium) (gaps_of_impact Low gs)
                  = []).
  { apply filter_none.
    eapply Forall_impl; [apply (gaps_of_impact_rank Low) |]. intros g Hg. simpl. rewrite Hg.
    intros [?|?]; discriminate. }
  rewrite Hdrop. by rewrite app_nil_r.
Qed.

(** A report with one low-impact gap and one missing must-have. *)
Definition report_low_gap : FitReport :=
  {| fit_score := 40; confidence := Medium; summary := [];
     must_have_match := [ {| requirement := lit "Kubernetes"; status := Missing; evidence := [] |} ];
     nice_to_have_match := [];
     gaps := [ {| gap := lit "No public talks"; impact := Low; how_to_fix := [] |} ];
     cv_suggestions := []; linkedin_suggestions := []; ats_keywords := [];
     final_note := [] |}.

(** C8, as stated, fails: with a single low-impact gap the renderer shows the
    missing must-have, not the gap. *)
Lemma blockers_low_gap_counterexample :
  blockers_of report_low_gap = [lit "Kubernetes"]
  /\ blockers_as_specified report_low_gap = [lit "No public talks"]
  /\ blockers_of report_low_gap <> blockers_as_specified report_low_gap.
Proof. split; [| split]; vm_compute; [reflexivity | reflexivity | discriminate]. Qed.

(** C8, amended. The top blockers are the texts of the gaps of impact high
    or medium, the high ones first, each group in report order, capped at
    three; low-impact gaps never appear.  The names of the missing must-have
    requirements (capped at three) are shown exactly when no gap has impact
    high or medium. *)
Theorem blockers_of_spec (report : FitReport) :
  let ranked := gaps_of_impact High (gaps report) ++ gaps_of_impact Medium (gaps report) in
  let missing := filter (has_status Missing) (must_have_match report) in
  blockers_of report
  = (if decide (ranked = []) then take 3 (map requirement missing)
     else take 3 (map gap ranked))
  /\ (ranked = [] <-> Forall (fun g => impact g = Low) (gaps report)).
Proof.
  intros ranked missing. unfold blockers_of.
  rewrite filter_high_medium_sorted. fold ranked. fold missing.
  split.
  - case_decide as Hr; [by rewrite Hr |].
    destruct ranked as [|g r]; [done | reflexivity].
  - subst ranked. unfold gaps_of_impact. split.
    + intros Hnil. apply app_eq_nil in Hnil as [HH HM].
      apply Forall_forall. intros g Hg.
      destruct (impact g) eqn:Eg; [| | reflexivity]; exfalso.
      * by apply (filter_nil_not_elem_of _ _ g HH).
      * by apply (filter_nil_not_elem_of _ _ g HM).
    + intros Hall. rewrite !filter_none; [reflexivity | |];
        (eapply Forall_impl; [exact Hall |]; intros g Hg; simpl; rewrite Hg; discriminate).
Qed.

(** ** HTML escaping *)

(** Replacing a one-character [old] rewrites each character on its own. *)
Definition replace_one (c : char) (new : pystr) (x : char) : pystr :=
  if N.eqb c x then new else [x].

Lemma replace_one_ne (c x : char) (new : pystr) : x <> c -> replace_one c new x = [x].
Proof.
  intros Hne. unfold replace_one.
  destruct (N.eqb_spec c x) as [->|_]; [done | reflexivity].
Qed.

Lemma replace_char (c : char) (new s : pystr) :
  replace [c] new s = flat_map (replace_one c new) s.
Proof.
  unfold replace, replace_one. induction s as [|x s IH]; [reflexivity |].
  simpl. destruct (N.eqb c x); simpl; by rewrite IH.
Qed.

Lemma html_escape_chain_char (c : char) :
  replace [squote] ent_apos
    (replace [dquote] ent_quot
      (replace (lit ">") ent_gt
        (replace (lit "<") ent_lt
          (replace [amp] ent_amp [c]))))
  = escape_char c.
Proof.
  unfold escape_char.
  destruct (N.eqb_spec c amp) as [->|H1]; [vm_compute; reflexivity |].
  destruct (N.eqb_spec c 60) as [->|H2]; [vm_compute; reflexivity |].
  destruct (N.eqb_spec c 62) as [->|H3]; [vm_compute; reflexivity |].
  destruct (N.eqb_spec c dquote) as [->|H4]; [vm_compute; reflexivity |].
  destruct (N.eqb_spec c squote) as [->|H5]; [vm_compute; reflexivity |].
  change (lit ">") with [62%N]. change (lit "<") with [60%N].
  rewrite (replace_char amp). cbn [flat_map]. rewrite (replace_one_ne _ _ _ H1). cbn [app].
  rewrite (replace_char 60%N). cbn [flat_map]. rewrite (replace_one_ne _ _ _ H2). cbn [app].
  rewrite (replace_char 62%N). cbn [flat_map]. rewrite (replace_one_ne _ _ _ H3). cbn [app].
  rewrite (replace_char dquote). cbn [flat_map]. rewrite (replace_one_ne _ _ _ H4). cbn [app].
  rewrite (replace_char squote). cbn [flat_map]. rewrite (replace_one_ne _ _ _ H5). reflexivity.
Qed.

(** The five replacements in a row act as one pass over the characters. *)
Lemma html_escape_single_pass (s : option pystr) :
  html_escape s = flat_map escape_char (or_empty s).
Proof.
  unfold html_escape. generalize (or_empty s). clear s. intros s.
  induction s as [|c s IH]; [reflexivity |].
  cbn [flat_map]. rewrite <- IH, <- html_escape_chain_char.
  change (lit ">") with [62%N]. change (lit "<") with [60%N].
  change (c :: s) with ([c] ++ s).
  rewrite !replace_char, !flat_map_app. reflexivity.
Qed.

Lemma escape_char_cases (c : char) :
  (escape_char c = [c] /\ ~ markup_char c /\ c <> amp)
  \/ escape_char c = ent_amp \/ escape_char c = ent_lt \/ escape_char c = ent_gt
  \/ escape_char c = ent_quot \/ escape_char c = ent_apos.
Proof.
  unfold escape_char, markup_char.
  destruct (N.eqb_spec c amp); [tauto |].
  destruct (N.eqb_spec c 60); [tauto |].
  destruct (N.eqb_spec c 62); [tauto |].
  destruct (N.eqb_spec c dquote); [tauto |].
  destruct (N.eqb_spec c squote); [tauto |].
  left. tauto.
Qed.

Lemma html_escape_no_markup (s : option pystr) :
  Forall (fun c => ~ markup_char c) (html_escape s).
Proof.
  rewrite html_escape_single_pass. induction (or_empty s) as [|c l IH]; [constructor |].
  simpl. apply Forall_app. split; [| exact IH].
  destruct (escape_char_cases c) as [(-> & Hc & _)|[->|[->|[->|[->| ->]]]]].
  - by constructor.
  - repeat constructor; unfold markup_char; vm_compute; intuition discriminate.
  - repeat constructor; unfold markup_char; vm_compute; intuition discriminate.
  - repeat constructor; unfold markup_char; vm_compute; intuition discriminate.
  - repeat constructor; unfold markup_char; vm_compute; intuition discriminate.
  - repeat constructor; unfold markup_char; vm_compute; intuition discriminate.
Qed.

Lemma html_escape_amps (s : option pystr) :
  amps_begin_entities (html_escape s) = true.
Proof.
  rewrite html_escape_single_pass. induction (or_empty s) as [|c l IH]; [reflexivity |].
  simpl. revert IH. generalize (flat_map escape_char l). intros rest IH.
  destruct (escape_char_cases c) as [(-> & _ & Hc)|[->|[->|[->|[->| ->]]]]].
  - simpl. apply N.eqb_neq in Hc. by rewrite Hc.
  - rewrite <- IH. vm_compute. reflexivity.
  - rewrite <- IH. vm_compute. reflexivity.
  - rewrite <- IH. vm_compute. reflexivity.
  - rewrite <- IH. vm_compute. reflexivity.
  - rewrite <- IH. vm_compute. reflexivity.
Qed.

(** C10, as stated, fails in its last part: the strengths card fragment of
    the value map holds raw markup, so it is not an output of
    [html_escape]. *)
Lemma value_map_not_all_escaped :
  ~ (forall (E : Externals) (report : FitReport) (json_path job_title k v : pystr),
       (k, v) ∈ render_values report json_path job_title ->
       exists raw, v = html_escape raw).
Proof.
  intros Hall.
  destruct (Hall demo_externals report_low_gap (lit "out/j1/fit_report.json") []
              (lit "strengths_cards")
              (lit "<div class=" ++ dq (lit "qempty")
               ++ lit ">Nessun punto a favore rilevante.</div>")) as [raw Hraw].
  - unfold render_values. do 14 (apply elem_of_cons; right).
    apply elem_of_cons; left. vm_compute. reflexivity.
  - pose proof (html_escape_no_markup raw) as Hno. rewrite <- Hraw in Hno.
    apply Forall_cons in Hno as [Hno _]. apply Hno. left. reflexivity.
Qed.

(** C10, amended. [html_escape] (with [None] read as the empty string)
    replaces the ampersand first and then the two angle brackets and the two
    quotes; the result is the input with each of these five characters
    replaced once by its entity, so it holds no raw angle bracket or quote,
    every ampersand in it starts one of the five entities, and nothing is
    escaped twice.  In the value map of the rendered report every value is an
    output of [html_escape], except [score_bar_class] (one of three fixed
    class names) and the two card fragments, which are markup built by
    [_card] around the escaped text. *)
Theorem html_escape_spec :
  (forall s,
      html_escape s
      = replace [squote] ent_apos
          (replace [dquote] ent_quot
            (replace (lit ">") ent_gt
              (replace (lit "<") ent_lt
                (replace [amp] ent_amp (or_empty s))))))
  /\ (forall s, html_escape s = flat_map escape_char (or_empty s))
  /\ (forall s, Forall (fun c => ~ markup_char c) (html_escape s))
  /\ (forall s, amps_begin_entities (html_escape s) = true)
  /\ html_escape None = []
  /\ (forall (E : Externals) report json_path job_title k v,
        (k, v) ∈ render_values report json_path job_title ->
        (~ unescaped_key k -> exists raw, v = html_escape (Some raw))
        /\ (k = lit "score_bar_class" ->
              v = lit "bar-red" \/ v = lit "bar-yellow" \/ v = lit "bar-green")
        /\ (k = lit "strengths_cards" ->
              v = or_else (join [nl] (map (fun x => _card x (lit "pos"))
                                        (take 3 (strengths_of report))))
                    (lit "<div class=" ++ dq (lit "qempty")
                     ++ lit ">Nessun punto a favore rilevante.</div>"))
        /\ (k = lit "blockers_cards" ->
              v = or_else (join [nl] (map (fun x => _card x (lit "neg"))
                                        (take 3 (blockers_of report))))
                    (lit "<div class=" ++ dq (lit "qempty")
                     ++ lit ">Nessun blocco principale.</div>")))
  /\ (forall text kind,
        exists before after,
          _card text kind = before ++ html_escape (Some text) ++ after
          /\ before = lit "<div class=" ++ dq (lit "qitem") ++ lit ">"
                      ++ lit "  <div class=" ++ dq (lit "qicon " ++ kind) ++ lit ">"
                      ++ (if decide (kind = lit "pos") then [10003%N] else lit "!")
                      ++ lit "</div>" ++ lit "  <div class=" ++ dq (lit "qtext") ++ lit ">"
          /\ after = lit "</div></div>").
Proof.
  split; [reflexivity |].
  split; [apply html_escape_single_pass |].
  split; [apply html_escape_no_markup |].
  split; [apply html_escape_amps |].
  split; [reflexivity |].
  split.
  - intros E report json_path job_title k v Hin.
    unfold render_values in Hin.
    repeat (apply elem_of_cons in Hin as [Hin|Hin]; [injection Hin as -> -> |]);
      try (by apply elem_of_nil in Hin);
      (split; [| split; [| split]]);
      try (intros _; eexists; reflexivity);
      try (intros Hk; vm_compute in Hk; discriminate Hk);
      try (intros Hk; exfalso; apply Hk; unfold unescaped_key; tauto);
      try (intros _; reflexivity).
    intros _. unfold score_bar_class_of.
    destruct (_ <=? 50)%Z; [tauto |]. destruct (_ <=? 75)%Z; tauto.
  - intros text kind. eexists _, _. split; [| split; reflexivity].
    unfold _card. rewrite <- !app_assoc. reflexivity.
Qed.

(** ** The fit score *)

Lemma round_half_even_comp (x y : Q) : (x == y)%Q -> round_half_even x = round_half_even y.
Proof.
  intros Hxy. unfold round_half_even.
  rewrite (Qfloor_comp x y Hxy).
  assert (Hc : (x - inject_Z (Qfloor y) ?= 1 # 2)%Q = (y - inject_Z (Qfloor y) ?= 1 # 2)%Q).
  { apply Qcompare_comp; [by rewrite Hxy | reflexivity]. }
  by rewrite Hc.
Qed.

Lemma round_half_even_nearest (q : Q) : nearest_integer q (round_half_even q).
Proof.
  unfold nearest_integer, round_half_even.
  pose proof (Qfloor_le q) as Hlo. pose proof (Qlt_floor q) as Hhi.
  rewrite inject_Z_plus in Hhi. change (inject_Z 1) with 1%Q in Hhi.
  destruct (Qcompare_spec (q - inject_Z (Qfloor q)) (1 # 2)) as [He|Hl|Hg].
  - destruct (Z.even (Qfloor q)).
    + split; lra.
    + rewrite inject_Z_plus. change (inject_Z 1) with 1%Q. split; lra.
  - split; lra.
  - rewrite inject_Z_plus. change (inject_Z 1) with 1%Q. split; lra.
Qed.

Lemma round_half_even_cases (q : Q) :
  round_half_even q = Qfloor q \/ round_half_even q = (Qfloor q + 1)%Z.
Proof.
  unfold round_half_even.
  destruct (_ ?= _)%Q; [destruct (Z.even _) | |]; tauto.
Qed.

Lemma round_half_even_mono (x y : Q) :
  (x <= y)%Q -> (round_half_even x <= round_half_even y)%Z.
Proof.
  intros Hxy. pose proof (Qfloor_resp_le x y Hxy) as Hf.
  destruct (Z.eq_dec (Qfloor x) (Qfloor y)) as [Heq|Hne].
  - unfold round_half_even. rewrite Heq.
    destruct (Qcompare_spec (x - inject_Z (Qfloor y)) (1 # 2)) as [He|Hl|Hg];
      destruct (Qcompare_spec (y - inject_Z (Qfloor y)) (1 # 2)) as [He'|Hl'|Hg'];
      try destruct (Z.even (Qfloor y)); try lia; exfalso; lra.
  - destruct (round_half_even_cases x) as [-> | ->];
      destruct (round_half_even_cases y) as [-> | ->]; lia.
Qed.

Lemma clamp_0_100_mono (a b : Z) : (a <= b)%Z -> (clamp_0_100 a <= clamp_0_100 b)%Z.
Proof. unfold clamp_0_100. lia. Qed.


(** The accumulation loop of [section] adds up the contributions. *)
Lemma score_loop_sum (w : Q) (items : list MatchItem) (acc : Q) :
  (fold_left
     (fun s it =>
        match status it with
        | Match => f_add s w
        | Partial => f_add s (f_mul half w)
        | Missing => s
        end)
     items acc
   == acc + section_sum w items)%Q.
Proof.
  revert acc. induction items as [|it items IH]; intros acc; simpl.
  - lra.
  - rewrite IH. unfold contribution, Qdiv. change (/ 2)%Q with (1 # 2)%Q.
    destruct (status it); simpl; lra.
Qed.

Lemma score_section_reference (items : list MatchItem) (total : Q) :
  (score_section items total == section_reference items total)%Q.
Proof.
  unfold score_section, section_reference.
  destruct items as [|it items]; [reflexivity |].
  rewrite score_loop_sum. exact (Qplus_0_l _).
Qed.

Lemma compute_fit_score_reference (must nice : list MatchItem) (mt nt : Q) :
  compute_fit_score must nice mt nt
  = clamp_0_100 (round_half_even (section_reference must mt + section_reference nice nt)).
Proof.
  unfold compute_fit_score, clamp_0_100. simpl py_round. simpl f_add.
  do 2 f_equal. apply round_half_even_comp.
  by rewrite !score_section_reference.
Qed.

(** *** The scorer in binary64 *)

Lemma lock_step_fst (wf : float) (wq : Q) (l : list MatchItem) (a : float * Q) :
  fst (fold_left (lock_step wf wq) (map status l) a)
  = fold_left
      (fun s it =>
         match status it with
         | Match => f_add s wf
         | Partial => f_add s (f_mul half wf)
         | Missing => s
         end)
      l (fst a).
Proof.
  revert a. induction l as [|it l IH]; intros a; [reflexivity |].
  cbn [map fold_left]. rewrite IH. f_equal. unfold lock_step. by destruct (status it).
Qed.

Lemma lock_step_snd (wf : float) (wq : Q) (l : list MatchItem) (a : float * Q) :
  (snd (fold_left (lock_step wf wq) (map status l) a) == snd a + section_sum wq l)%Q.
Proof.
  revert a. induction l as [|it l IH]; intros a.
  - cbn [map fold_left]. change (section_sum wq []) with 0%Q. lra.
  - cbn [map fold_left]. rewrite IH.
    change (section_sum wq (it :: l)) with (contribution wq it + section_sum wq l)%Q.
    unfold lock_step, contribution, Qdiv. change (/ 2)%Q with (1 # 2)%Q.
    destruct (status it); cbn [snd]; rewrite ?Qred_correct; lra.
Qed.

Lemma lock_step_reach (wf : float) (wq : Q) (sts : list Status) :
  fold_left (lock_step wf wq) sts (of_int 0, 0%Q) ∈ reach wf wq (length sts).
Proof.
  induction sts as [|st sts IH] using rev_ind.
  - apply list_elem_of_singleton. reflexivity.
  - rewrite fold_left_app, length_app, Nat.add_1_r. cbn [fold_left reach].
    unfold successors. apply elem_of_remove_dups, list_elem_of_In, in_flat_map.
    eexists. split; [apply list_elem_of_In, IH |].
    destruct st; simpl; tauto.
Qed.

(** The binary64 value of [section] on a list of at most [bound] items is in
    the table, beside the exact value. *)
Lemma section_value_listed (total : Z) (bound : nat) (l : list MatchItem) :
  length l <= bound ->
  exists q, (score_section (F := float) l (of_int total), q) ∈ section_values total bound
            /\ (q == section_reference l (inject_Z total))%Q.
Proof.
  intros Hlen.
  set (wf := f_div (of_int total) (of_int (Z.of_nat (length l)))).
  set (wq := (inject_Z total / inject_Z (Z.of_nat (length l)))%Q).
  set (a := fold_left (lock_step wf wq) (map status l) (of_int 0, 0%Q)).
  exists (snd a). split.
  - unfold section_values. apply elem_of_remove_dups, list_elem_of_In, in_flat_map.
    exists (length l). split; [apply in_seq; lia |].
    apply list_elem_of_In. fold wf wq.
    replace (score_section l (of_int total), snd a) with a.
    + pose proof (lock_step_reach wf wq (map status l)) as Hr.
      by rewrite length_map in Hr.
    + rewrite (surjective_pairing a) at 1. f_equal.
      unfold a. rewrite lock_step_fst. unfold score_section. by destruct l.
  - unfold a. rewrite lock_step_snd. cbn [snd].
    unfold section_reference. destruct l; [reflexivity |]. fold wq. lra.
Qed.

Lemma nearest_integer_b_spec (q : Q) (r : Z) :
  nearest_integer_b q r = true -> nearest_integer q r.
Proof.
  unfold nearest_integer_b, nearest_integer. intros Hb.
  apply andb_prop in Hb as [Hlo Hhi]. by rewrite <- !Qle_bool_iff.
Qed.

Lemma nearest_integer_comp (q q' : Q) (r : Z) :
  (q == q')%Q -> nearest_integer q r -> nearest_integer q' r.
Proof. unfold nearest_integer. intros Hq [Hlo Hhi]. split; lra. Qed.

Lemma scores_nearest_spec (bound : nat) :
  scores_nearest bound = true ->
  forall a b,
    a ∈ section_values 70 bound -> b ∈ section_values 30 bound ->
    nearest_integer (snd a + snd b)
      (Z.max 0 (Z.min 100 (py_round (f_add (fst a) (fst b))))).
Proof.
  unfold scores_nearest. cbn zeta. intros Hall a b Ha Hb.
  rewrite forallb_forall in Hall. apply list_elem_of_In in Ha, Hb.
  specialize (Hall a Ha). rewrite forallb_forall in Hall.
  apply nearest_integer_b_spec, Hall, Hb.
Qed.

Lemma scores_nearest_checked : scores_nearest checked_length = true.
Proof. vm_compute. reflexivity. Qed.

(** In binary64, on lists of at most [checked_length] items, the score is
    an integer nearest to the sum of the reference algorithm. *)
Lemma compute_fit_score_binary64_nearest (must nice : list MatchItem) :
  length must <= checked_length -> length nice <= checked_length ->
  nearest_integer (score_reference must nice)
    (compute_fit_score (F := float) must nice must_total_default nice_total_default).
Proof.
  intros Hm Hn.
  destruct (section_value_listed 70 checked_length must Hm) as (qm & Hqm & Hm_eq).
  destruct (section_value_listed 30 checked_length nice Hn) as (qn & Hqn & Hn_eq).
  pose proof (scores_nearest_spec checked_length scores_nearest_checked _ _ Hqm Hqn) as Hall.
  eapply nearest_integer_comp; [| exact Hall].
  unfold score_reference. cbn [snd]. rewrite Hm_eq, Hn_eq. reflexivity.
Qed.

(** On an exact tie the two arithmetics may part: the binary64 sum falls
    just below 55.5 and rounds to 55, the exact sum rounds to the even 56. *)
Lemma compute_fit_score_tie :
  (score_reference tie_must tie_nice == 111 # 2)%Q
  /\ compute_fit_score (F := float) tie_must tie_nice must_total_default nice_total_default
     = 55%Z
  /\ compute_fit_score (F := Q) tie_must tie_nice must_total_default nice_total_default
     = 56%Z.
Proof. repeat split; vm_compute; reflexivity. Qed.


(** ** Monotonicity of the score *)

Lemma section_sum_app (w : Q) (l1 l2 : list MatchItem) :
  (section_sum w (l1 ++ l2) == section_sum w l1 + section_sum w l2)%Q.
Proof.
  induction l1 as [|it l1 IH]; simpl.
  - lra.
  - rewrite IH. lra.
Qed.

Lemma contribution_upgrade (w : Q) (it : MatchItem) (st : Status) :
  (0 <= w)%Q -> upgrades (status it) st ->
  (contribution w it <= contribution w (with_status st it))%Q.
Proof.
  intros Hw Hup. unfold contribution, Qdiv. change (/ 2)%Q with (1 # 2)%Q. simpl.
  destruct (status it); inversion Hup; subst; lra.
Qed.

Lemma item_weight_nonneg (total : Q) (n : nat) :
  (0 <= total)%Q -> (0 <= total / inject_Z (Z.of_nat n))%Q.
Proof.
  intros Ht. unfold Qdiv. apply Qmult_le_0_compat; [exact Ht |].
  apply Qinv_le_0_compat. change 0%Q with (inject_Z 0). rewrite <- Zle_Qle. lia.
Qed.

Lemma section_reference_nonempty (l : list MatchItem) (total : Q) :
  l <> [] ->
  section_reference l total = section_sum (total / inject_Z (Z.of_nat (length l))) l.
Proof. by destruct l. Qed.

Lemma section_reference_upgrade (l l' : list MatchItem) (total : Q) :
  (0 <= total)%Q -> upgrade_one l l' ->
  (section_reference l total <= section_reference l' total)%Q.
Proof.
  intros Ht Hup. destruct Hup as [pre it st post Hst].
  rewrite !section_reference_nonempty by (by destruct pre).
  assert (Hlen : length (pre ++ with_status st it :: post) = length (pre ++ it :: post)).
  { rewrite !length_app. reflexivity. }
  rewrite Hlen.
  set (w := (total / inject_Z (Z.of_nat (length (pre ++ it :: post))))%Q).
  assert (Hw : (0 <= w)%Q) by apply item_weight_nonneg, Ht.
  rewrite !section_sum_app. simpl.
  pose proof (contribution_upgrade w it st Hw Hst). lra.
Qed.

Lemma compute_fit_score_mono (must nice must' nice' : list MatchItem) (mt nt : Q) :
  (section_reference must mt <= section_reference must' mt)%Q ->
  (section_reference nice nt <= section_reference nice' nt)%Q ->
  (compute_fit_score must nice mt nt <= compute_fit_score must' nice' mt nt)%Z.
Proof.
  intros Hm Hn. rewrite !compute_fit_score_reference.
  apply clamp_0_100_mono, round_half_even_mono. lra.
Qed.

Lemma upgrade_one_length (l l' : list MatchItem) :
  upgrade_one l l' -> length l' = length l.
Proof. intros [pre it st post _]. rewrite !length_app. reflexivity. Qed.

Lemma contribution_upgrade_gap (w : Q) (it : MatchItem) (st : Status) :
  (0 <= w)%Q -> upgrades (status it) st ->
  (contribution w it + w * (1 # 2) <= contribution w (with_status st it))%Q.
Proof.
  intros Hw Hup. unfold contribution, Qdiv. change (/ 2)%Q with (1 # 2)%Q. simpl.
  destruct (status it); inversion Hup; subst; lra.
Qed.

(** On a list of at most 15 items of a section weighing at least 30, one
    upgrade adds at least 1 to the exact section sum. *)
Lemma section_reference_upgrade_gap (l l' : list MatchItem) (total : Q) :
  (30 <= total)%Q -> length l <= 15 -> upgrade_one l l' ->
  (section_reference l total + 1 <= section_reference l' total)%Q.
Proof.
  intros Ht Hlen Hup. destruct Hup as [pre it st post Hst].
  rewrite !section_reference_nonempty by (by destruct pre).
  assert (Hlen' : length (pre ++ with_status st it :: post) = length (pre ++ it :: post)).
  { rewrite !length_app. reflexivity. }
  rewrite Hlen'.
  set (n := length (pre ++ it :: post)) in *.
  assert (Hn : 0 < n) by (unfold n; rewrite length_app; simpl; lia).
  set (w := (total / inject_Z (Z.of_nat n))%Q).
  assert (Hw : (2 <= w)%Q).
  { unfold w. apply Qle_shift_div_l.
    - change 0%Q with (inject_Z 0). rewrite <- Zlt_Qlt. lia.
    - assert (Hq : (inject_Z (Z.of_nat n) <= inject_Z 15)%Q) by (rewrite <- Zle_Qle; lia).
      change (inject_Z 15) with 15%Q in Hq. lra. }
  rewrite !section_sum_app. simpl.
  pose proof (contribution_upgrade_gap w it st ltac:(lra) Hst). lra.
Qed.

Lemma nearest_integer_gap (q q' : Q) (r r' : Z) :
  nearest_integer q r -> nearest_integer q' r' -> (q + 1 <= q')%Q -> (r <= r')%Z.
Proof.
  unfold nearest_integer. intros [Hlo Hhi] [Hlo' Hhi'] Hgap.
  rewrite Zle_Qle. lra.
Qed.

(** Monotonicity in binary64, on lists of at most 15 items. *)
Lemma compute_fit_score_binary64_mono (must nice must' nice' : list MatchItem) :
  length must <= 15 -> length nice <= 15 ->
  (upgrade_one must must' /\ nice' = nice) \/ (must' = must /\ upgrade_one nice nice') ->
  (compute_fit_score (F := float) must nice must_total_default nice_total_default
   <= compute_fit_score (F := float) must' nice' must_total_default nice_total_default)%Z.
Proof.
  intros Hm Hn Hup.
  assert (Hm' : length must' <= 15).
  { destruct Hup as [[Hup _]|[-> _]]; [by rewrite (upgrade_one_length _ _ Hup) | done]. }
  assert (Hn' : length nice' <= 15).
  { destruct Hup as [[_ ->]|[_ Hup]]; [done | by rewrite (upgrade_one_length _ _ Hup)]. }
  eapply nearest_integer_gap.
  - by apply compute_fit_score_binary64_nearest.
  - by apply compute_fit_score_binary64_nearest.
  - unfold score_reference. destruct Hup as [[Hup ->]|[-> Hup]].
    + pose proof (section_reference_upgrade_gap must must' 70 ltac:(lra) Hm Hup). lra.
    + pose proof (section_reference_upgrade_gap nice nice' 30 ltac:(lra) Hn Hup). lra.
Qed.



(** ** The pipeline *)

Lemma bind_unfold {A B} (m : M A) (k : A -> M B) (w : world) :
  (m ≫= k) w = match m w with
               | (w', Return a) => k a w'
               | (w', Raise e) => (w', Raise e)
               end.
Proof. reflexivity. Qed.

Lemma ret_bind {A B} (a : A) (k : A -> M B) (w : world) : (mret a ≫= k) w = k a w.
Proof. reflexivity. Qed.

Lemma json_html_paths_differ (app_root job_id : pystr) :
  json_path_of app_root job_id <> html_path_of app_root job_id.
Proof.
  unfold json_path_of, html_path_of, path_join. intros Heq.
  apply app_inv_head in Heq. vm_compute in Heq. discriminate.
Qed.

Section PipelineFacts.
Context `{E : Externals} {F : Type} `{AF : Arith F}.
Variables app_root templates_dir job_id : pystr.
Variables system_prompt_core user_template_core : pystr.
Variables system_prompt_sugg user_template_sugg : pystr.
Variables cv_txt job_txt job_title : pystr.

Let cv := normalize_spaced_text (Some cv_txt).
Let job := normalize_spaced_text (Some job_txt).
Let dbg := Some (llm_debug_dir_of app_root job_id).

(** [process_job], stage by stage: it fails exactly when the client cannot
    be built or stage 1 fails, and otherwise writes the merged report. *)
Lemma process_job_stages (w : world) :
  process_job app_root templates_dir job_id
    system_prompt_core user_template_core system_prompt_sugg user_template_sugg
    cv_txt job_txt job_title w
  = match build_client w with
    | (w0, Raise e) => (w0, Raise e)
    | (w0, Return client) =>
        match analyze_fit_core client system_prompt_core user_template_core cv job dbg w0 with
        | (w1, Raise e) => (w1, Raise e)
        | (w1, Return fit_core) =>
            let '(w2, stage2) :=
              analyze_fit_suggestions client system_prompt_sugg user_template_sugg
                cv job fit_core dbg w1 in
            let w3 :=
              match stage2 with
              | Return _ => w2
              | Raise e =>
                  fst (write_text
                         (path_join (llm_debug_dir_of app_root job_id)
                            (lit "fit_suggestions_error.txt"))
                         (Some (exn_msg e)) w2)
              end in
            let report := report_of fit_core stage2 in
            let json_path := json_path_of app_root job_id in
            let html_path := html_path_of app_root job_id in
            let w4 := fst (write_text json_path
                             (Some (json_pretty (FitReport_dump report))) w3) in
            let w5 := fst (write_text html_path
                             (Some (render_report_html report json_path
                                      (path_join templates_dir (lit "report.html"))
                                      job_title)) w4) in
            (w5, Return (paths_of app_root job_id))
        end
    end.
Proof.
  unfold process_job. rewrite bind_unfold.
  destruct (build_client w) as [w0 [e|client]]; [reflexivity |].
  unfold job_dir, ensure_dir. rewrite !ret_bind, bind_unfold. fold cv job.
  change (Some (path_join (path_join (path_join app_root (lit "jobs")) job_id) (lit "llm")))
    with dbg.
  destruct (analyze_fit_core _ _ _ _ _ _ w0) as [w1 [e|fit_core]]; [reflexivity |].
  rewrite bind_unfold. unfold try_except at 1.
  destruct (analyze_fit_suggestions _ _ _ _ _ _ _ w1) as [w2 [e|sugg]]; reflexivity.
Qed.

(** [run_job]: RUNNING, then DONE with the paths or ERROR with the message. *)
Lemma run_job_outcome (w0 : world) :
  run_job app_root templates_dir
    system_prompt_core user_template_core system_prompt_sugg user_template_sugg
    job_id cv_txt job_txt job_title w0
  = match process_job app_root templates_dir job_id
            system_prompt_core user_template_core system_prompt_sugg user_template_sugg
            cv_txt job_txt job_title (running job_id w0) with
    | (w', Return paths) => set_status job_id (lit "DONE") None paths w'
    | (w', Raise e) =>
        set_status job_id (lit "ERROR") (Some (exn_msg e)) []
          (fst (save_text_input app_root job_id (lit "error.txt") (exn_msg e) w'))
    end.
Proof.
  unfold run_job, try_except at 1, running. rewrite bind_unfold. cbn [set_status fst].
  rewrite bind_unfold.
  match goal with |- context [process_job _ _ _ _ _ _ _ _ _ _ ?w] =>
    destruct (process_job app_root templates_dir job_id
                system_prompt_core user_template_core system_prompt_sugg user_template_sugg
                cv_txt job_txt job_title w) as [w' [e|paths]] end; reflexivity.
Qed.

(** C2. When stage 1 succeeds and stage 2 raises, whatever the exception,
    [process_job] returns its two paths: the report it wrote carries the
    confidence, match lists and gaps of stage 1, the computed score, and
    every suggestion field at its default; [run_job] records DONE. *)
Theorem stage2_failure_is_not_fatal (w0 w1 w2 : world)
    (client : OpenAIClient) (fit_core : FitCore) (e : exn)
    (Hclient : build_client (running job_id w0) = (running job_id w0, Return client))
    (Hstage1 : analyze_fit_core client system_prompt_core user_template_core
                 cv job dbg (running job_id w0) = (w1, Return fit_core))
    (Hstage2 : analyze_fit_suggestions client system_prompt_sugg user_template_sugg
                 cv job fit_core dbg w1 = (w2, Raise e)) :
  let report :=
    {| fit_score :=
         compute_fit_score (core_must_have_match fit_core) (core_nice_to_have_match fit_core)
           must_total_default nice_total_default;
       confidence := core_confidence fit_core;
       summary := [];
       must_have_match := core_must_have_match fit_core;
       nice_to_have_match := core_nice_to_have_match fit_core;
       gaps := core_gaps fit_core;
       cv_suggestions := [];
       linkedin_suggestions := [];
       ats_keywords := [];
       final_note := [] |} in
  let json_path := json_path_of app_root job_id in
  let html_path := html_path_of app_root job_id in
  exists w' w'',
    process_job app_root templates_dir job_id
      system_prompt_core user_template_core system_prompt_sugg user_template_sugg
      cv_txt job_txt job_title (running job_id w0)
    = (w', Return (paths_of app_root job_id))
    /\ files w' !! json_path = Some (json_pretty (FitReport_dump report))
    /\ files w' !! html_path
       = Some (render_report_html report json_path
                 (path_join templates_dir (lit "report.html")) job_title)
    /\ run_job app_root templates_dir
         system_prompt_core user_template_core system_prompt_sugg user_template_sugg
         job_id cv_txt job_txt job_title w0
       = (w'', Return tt)
    /\ job_table w'' !! job_id = Some (job_done (paths_of app_root job_id)).
Proof.
  intros report json_path html_path.
  pose proof (process_job_stages (running job_id w0)) as Hp.
  rewrite Hclient, Hstage1, Hstage2 in Hp. cbn zeta in Hp.
  eexists _, _. split; [exact Hp |].
  split; [| split; [| split]].
  - cbn [write_text fst files]. rewrite lookup_insert_ne by (symmetry; apply json_html_paths_differ).
    rewrite lookup_insert_eq. reflexivity.
  - cbn [write_text fst files]. rewrite lookup_insert_eq. reflexivity.
  - rewrite run_job_outcome, Hp. reflexivity.
  - cbn [set_status fst job_table]. rewrite lookup_insert_eq. reflexivity.
Qed.
End PipelineFacts.

(** A run in binary64 arithmetic: stage 1 answers, the second call to the
    LLM times out. *)
Lemma stage2_failure_is_not_fatal_witness :
  let w0 := demo_world [Return demo_reply_core; Raise (Exn LibraryError (lit "timeout"))] in
  exists w' w'',
    process_job (E := demo_externals) (F := float) (lit "r") (lit "t") (lit "j")
      (lit "sys1") (lit "usr1") (lit "sys2") (lit "usr2")
      (lit "cv") (lit "job") (lit "title") (running (lit "j") w0)
    = (w', Return (paths_of (lit "r") (lit "j")))
    /\ files w' !! json_path_of (lit "r") (lit "j") = Some (lit "fit_score=65")
    /\ job_table w'' !! lit "j" = Some (job_done (paths_of (lit "r") (lit "j")))
    /\ run_job (E := demo_externals) (F := float) (lit "r") (lit "t")
         (lit "sys1") (lit "usr1") (lit "sys2") (lit "usr2")
         (lit "j") (lit "cv") (lit "job") (lit "title") w0
       = (w'', Return tt).
Proof.
  intros w0.
  edestruct (stage2_failure_is_not_fatal (E := demo_externals) (F := float)
               (lit "r") (lit "t") (lit "j")
               (lit "sys1") (lit "usr1") (lit "sys2") (lit "usr2")
               (lit "cv") (lit "job") (lit "title") w0)
    as (w' & w'' & Hp & Hjson & _ & Hrun & Hdone).
  - vm_compute. reflexivity.
  - vm_compute. reflexivity.
  - vm_compute. reflexivity.
  - exists w', w''. split; [exact Hp |]. split; [| split; [exact Hdone | exact Hrun]].
    rewrite Hjson. vm_compute. reflexivity.
Defined.

Lemma build_client_world (w : world) : fst (build_client w) = w.
Proof.
  unfold build_client, getenv. rewrite bind_unfold.
  destruct (environ w !! lit "OPENAI_API_KEY") as [[|c key]|]; reflexivity.
Qed.

Section ReportFacts.
Context `{E : Externals} {F : Type} `{AF : Arith F}.
Variables app_root templates_dir job_id : pystr.
Variables system_prompt_core user_template_core : pystr.
Variables system_prompt_sugg user_template_sugg : pystr.
Variables cv_txt job_txt job_title : pystr.

Let cv := normalize_spaced_text (Some cv_txt).
Let job := normalize_spaced_text (Some job_txt).
Let dbg := Some (llm_debug_dir_of app_root job_id).

(** C3. After a successful run the report on disk is the merge of the two
    stages: its [fit_score] is [compute_fit_score] of the validated stage-1
    match lists, its confidence, match lists and gaps are those of stage 1,
    its summary, suggestion lists and final note are those of stage 2 or,
    when stage 2 failed, the defaults.  The [fit_score] stage 1 reported
    plays no part: any other reported value gives the same report. *)
Theorem final_report_is_recomputed (w w' : world) (paths : list (pystr * pystr))
    (Hrun : process_job app_root templates_dir job_id
              system_prompt_core user_template_core system_prompt_sugg user_template_sugg
              cv_txt job_txt job_title w
            = (w', Return paths)) :
  exists (client : OpenAIClient) (w1 w2 : world) (fit_core : FitCore)
         (stage2 : result FitSuggestions),
    build_client w = (w, Return client)
    /\ analyze_fit_core client system_prompt_core user_template_core cv job dbg w
       = (w1, Return fit_core)
    /\ analyze_fit_suggestions client system_prompt_sugg user_template_sugg
         cv job fit_core dbg w1
       = (w2, stage2)
    /\ let report := report_of fit_core stage2 in
       let suggestions := suggestions_or_default stage2 in
       paths = paths_of app_root job_id
       /\ files w' !! json_path_of app_root job_id
          = Some (json_pretty (FitReport_dump report))
       /\ files w' !! html_path_of app_root job_id
          = Some (render_report_html report (json_path_of app_root job_id)
                    (path_join templates_dir (lit "report.html")) job_title)
       /\ fit_score report
          = compute_fit_score (core_must_have_match fit_core)
              (core_nice_to_have_match fit_core) must_total_default nice_total_default
       /\ (forall v, report_of (with_core_fit_score v fit_core) stage2 = report)
       /\ confidence report = core_confidence fit_core
       /\ must_have_match report = core_must_have_match fit_core
       /\ nice_to_have_match report = core_nice_to_have_match fit_core
       /\ gaps report = core_gaps fit_core
       /\ summary report = sugg_summary suggestions
       /\ cv_suggestions report = sugg_cv_suggestions suggestions
       /\ linkedin_suggestions report = sugg_linkedin_suggestions suggestions
       /\ ats_keywords report = sugg_ats_keywords suggestions
       /\ final_note report = sugg_final_note suggestions.
Proof.
  rewrite process_job_stages in Hrun.
  pose proof (build_client_world w) as Hw.
  destruct (build_client w) as [w0 [e|client]] eqn:H0; [discriminate |].
  simpl in Hw. subst w0.
  fold cv job dbg in Hrun.
  destruct (analyze_fit_core client system_prompt_core user_template_core cv job dbg w)
    as [w1 [e|fit_core]] eqn:H1; [discriminate |].
  destruct (analyze_fit_suggestions client system_prompt_sugg user_template_sugg
              cv job fit_core dbg w1) as [w2 stage2] eqn:H2.
  cbn zeta in Hrun. injection Hrun as Hw' Hpaths.
  exists client, w1, w2, fit_core, stage2.
  split; [reflexivity |]. split; [exact H1 |]. split; [exact H2 |].
  intros report suggestions. subst w'.
  split; [by symmetry |]. split; [| split].
  - cbn [write_text fst files].
    rewrite lookup_insert_ne by (symmetry; apply json_html_paths_differ).
    by rewrite lookup_insert_eq.
  - cbn [write_text fst files]. by rewrite lookup_insert_eq.
  - repeat split; reflexivity.
Qed.
End ReportFacts.

(** A run in binary64 arithmetic where stage 1 reports a [fit_score] of 99:
    the report on disk holds the recomputed 65. *)
Lemma final_report_is_recomputed_witness :
  let w := demo_world [Return demo_reply_core; Return demo_reply_sugg] in
  let run := process_job (E := demo_externals) (F := float) (lit "r") (lit "t") (lit "j")
               (lit "sys1") (lit "usr1") (lit "sys2") (lit "usr2")
               (lit "cv") (lit "job") (lit "title") w in
  snd run = Return (paths_of (lit "r") (lit "j"))
  /\ exists (fit_core : FitCore) (stage2 : result FitSuggestions),
       core_fit_score fit_core = 99%Z
       /\ fit_score (report_of (F := float) fit_core stage2) = 65%Z
       /\ files (fst run) !! json_path_of (lit "r") (lit "j")
          = Some (json_pretty (E := demo_externals)
                    (FitReport_dump (report_of (F := float) fit_core stage2))).
Proof.
  intros w run. split; [vm_compute; reflexivity |].
  destruct (final_report_is_recomputed (E := demo_externals) (F := float)
              (lit "r") (lit "t") (lit "j")
              (lit "sys1") (lit "usr1") (lit "sys2") (lit "usr2")
              (lit "cv") (lit "job") (lit "title") w (fst run) (paths_of (lit "r") (lit "j")))
    as (client & w1 & w2 & fit_core & stage2 & _ & Hs1 & _ & _ & Hjson & _).
  - vm_compute. reflexivity.
  - exists fit_core, stage2.
    assert (Hcore : fit_core = demo_core).
    { vm_compute in Hs1. by injection Hs1 as _ <-. }
    split; [by rewrite Hcore |]. split; [by rewrite Hcore; vm_compute |]. exact Hjson.
Defined.

(** ** The matcher *)

Lemma span_len_drop_lt (p : char -> bool) (s : pystr) (j : nat) :
  j < span_len p s -> exists c t, drop j s = c :: t /\ p c = true.
Proof.
  revert j. induction s as [|c s IH]; intros j Hj; simpl in Hj; [lia |].
  destruct (p c) eqn:Hc; [| lia].
  destruct j as [|j]; [by exists c, s |].
  simpl. apply IH. lia.
Qed.

Lemma span_len_drop (p : char -> bool) (s : pystr) :
  match drop (span_len p s) s with
  | c :: _ => p c = false
  | [] => True
  end.
Proof.
  induction s as [|c s IH]; simpl; [done |].
  destruct (p c) eqn:Hc; simpl; [exact IH | exact Hc].
Qed.

Lemma span_len_le (p : char -> bool) (s : pystr) : span_len p s <= length s.
Proof. induction s as [|c s IH]; simpl; [lia |]. destruct (p c); simpl; lia. Qed.

Lemma span_len_cons_false (p : char -> bool) (c : char) (s : pystr) :
  p c = false -> span_len p (c :: s) = 0.
Proof. intros Hc. simpl. by rewrite Hc. Qed.

Lemma span_len_cons_true (p : char -> bool) (c : char) (s : pystr) :
  p c = true -> span_len p (c :: s) = S (span_len p s).
Proof. intros Hc. simpl. by rewrite Hc. Qed.

Section BacktrackFacts.
Variable k : pystr -> option (list pystr).
Variable s : pystr.
Variable lo : nat.

Lemma backtrack_unfold (n : nat) :
  backtrack k s lo n
  = if n <? lo then None
    else match k (drop n s) with
         | Some ps => Some (take n s :: ps)
         | None => match n with
                   | 0 => None
                   | S n' => backtrack k s lo n'
                   end
         end.
Proof. destruct n; reflexivity. Qed.

Lemma backtrack_all_none (n : nat) :
  (forall j, j <= n -> k (drop j s) = None) -> backtrack k s lo n = None.
Proof.
  induction n as [|n IH]; intros Hnone; rewrite backtrack_unfold.
  - destruct (0 <? lo); [done |]. by rewrite (Hnone 0).
  - destruct (S n <? lo); [done |]. rewrite (Hnone (S n)) by lia.
    apply IH. intros j Hj. apply Hnone. lia.
Qed.

(** When only the full repetition can be followed by the rest of the
    pattern, backtracking has one candidate. *)
Lemma backtrack_exact (n : nat) :
  (forall j, j < n -> k (drop j s) = None) ->
  backtrack k s lo n
  = if lo <=? n then cons (take n s) <$> k (drop n s) else None.
Proof.
  intros Hnone. rewrite backtrack_unfold.
  destruct (Nat.ltb_spec n lo) as [Hlt|Hge].
  - destruct (Nat.leb_spec lo n); [lia | done].
  - destruct (Nat.leb_spec lo n); [| lia].
    destruct (k (drop n s)) as [ps|] eqn:Hk; [done |].
    destruct n as [|n]; [done |]. simpl.
    apply backtrack_all_none. intros j Hj. apply Hnone. lia.
Qed.

Lemma backtrack_Some (n : nat) (r : list pystr) :
  backtrack k s lo n = Some r ->
  exists j ps, lo <= j <= n /\ k (drop j s) = Some ps /\ r = take j s :: ps
               /\ forall i, j < i <= n -> k (drop i s) = None.
Proof.
  induction n as [|n IH]; rewrite backtrack_unfold.
  - destruct (Nat.ltb_spec 0 lo); [done |].
    destruct (k (drop 0 s)) as [ps|] eqn:Hk; [| done].
    intros [= <-]. exists 0, ps. repeat split; [lia | lia | done | intros; lia].
  - destruct (Nat.ltb_spec (S n) lo); [done |].
    destruct (k (drop (S n) s)) as [ps|] eqn:Hk.
    + intros [= <-]. exists (S n), ps. repeat split; [lia | lia | done | intros; lia].
    + intros Hb. destruct (IH Hb) as (j & ps & Hj & Hkj & -> & Habove).
      exists j, ps. repeat split; [lia | lia | done |].
      intros i Hi. destruct (decide (i = S n)) as [->|]; [done | apply Habove; lia].
Qed.

Lemma backtrack_None (n : nat) :
  backtrack k s lo n = None -> forall j, lo <= j <= n -> k (drop j s) = None.
Proof.
  induction n as [|n IH]; rewrite backtrack_unfold.
  - destruct (Nat.ltb_spec 0 lo); [intros; lia |].
    destruct (k (drop 0 s)) eqn:Hk; [done |].
    intros _ j Hj. by replace j with 0 by lia.
  - destruct (Nat.ltb_spec (S n) lo); [intros; lia |].
    destruct (k (drop (S n) s)) eqn:Hk; [done |].
    intros Hb j Hj. destruct (decide (j = S n)) as [->|]; [done |].
    apply IH; [done | lia].
Qed.
End BacktrackFacts.

(** Scanning resumes after the characters a match consumed. *)
Lemma re_sub_from_skip (r : regex) (repl : list pystr -> pystr) (s : pystr) (k : nat) :
  re_sub_from r repl s k = re_sub_from r repl (drop k s) 0.
Proof.
  revert k. induction s as [|c s IH]; intros k.
  - by rewrite drop_nil.
  - destruct k as [|k]; [reflexivity |]. simpl. apply IH.
Qed.

Lemma re_sub_step (r : regex) (repl : list pystr -> pystr) (c : char) (s : pystr) :
  re_sub r repl (c :: s)
  = match match_here r (c :: s) with
    | Some ps =>
        match length (concat ps) with
        | S k => repl ps ++ re_sub r repl (drop k s)
        | 0 => c :: re_sub r repl s
        end
    | None => c :: re_sub r repl s
    end.
Proof.
  unfold re_sub. cbn [re_sub_from].
  destruct (match_here r (c :: s)) as [ps|]; [| reflexivity].
  destruct (length (concat ps)); [reflexivity |]. by rewrite re_sub_from_skip.
Qed.

Lemma re_sub_nil (r : regex) (repl : list pystr -> pystr) : re_sub r repl [] = [].
Proof. reflexivity. Qed.

(** The two classes of [normalize_spaced_text] are disjoint, and so are
    whitespace and the closing brackets. *)
Lemma space_not_alnum (c : char) : is_space c = true -> is_alnum c = false.
Proof.
  unfold is_space, is_alnum, in_range. intros Hs.
  repeat (apply orb_prop in Hs as [Hs|Hs]);
    repeat match goal with
           | H : (_ && _)%bool = true |- _ => apply andb_prop in H as [? ?]
           | H : N.leb _ _ = true |- _ => apply N.leb_le in H
           | H : N.eqb _ _ = true |- _ => apply N.eqb_eq in H
           end;
    repeat (apply orb_false_intro); apply andb_false_iff;
    rewrite !N.leb_gt; lia.
Qed.

Lemma space_not_closer (c : char) : is_space c = true -> is_closer c = false.
Proof.
  unfold is_space, is_closer, in_range. intros Hs.
  repeat (apply orb_prop in Hs as [Hs|Hs]);
    repeat match goal with
           | H : (_ && _)%bool = true |- _ => apply andb_prop in H as [? ?]
           | H : N.leb _ _ = true |- _ => apply N.leb_le in H
           | H : N.eqb _ _ = true |- _ => apply N.eqb_eq in H
           end;
    apply orb_false_intro; apply N.eqb_neq; lia.
Qed.

(** A pattern [p q{lo,} r] whose last class [r] excludes the repeated class
    [q]: the repetition takes the whole run of [q]. *)
Lemma match_one_many_one (p q r : char -> bool) (lo : nat) (c : char) (s : pystr) :
  (forall x, q x = true -> r x = false) ->
  match_here [One p; Many q lo; One r] (c :: s)
  = if (p c && (lo <=? span_len q s))%bool
    then match drop (span_len q s) s with
         | d :: _ => if r d then Some [[c]; take (span_len q s) s; [d]] else None
         | [] => None
         end
    else None.
Proof.
  intros Hqr. cbn [match_here]. destruct (p c); [| reflexivity]. simpl andb.
  rewrite backtrack_exact.
  - destruct (lo <=? span_len q s); [| reflexivity].
    destruct (drop (span_len q s) s) as [|d t]; [reflexivity |].
    cbn [match_here]. destruct (r d); reflexivity.
  - intros j Hj. destruct (span_len_drop_lt q s j Hj) as (x & t & -> & Hx).
    cbn [match_here]. by rewrite (Hqr x Hx).
Qed.

Lemma match_one_many_ahead (p q r : char -> bool) (lo : nat) (c : char) (s : pystr) :
  (forall x, q x = true -> r x = false) ->
  match_here [One p; Many q lo; Ahead r] (c :: s)
  = if (p c && (lo <=? span_len q s))%bool
    then match drop (span_len q s) s with
         | d :: _ => if r d then Some [[c]; take (span_len q s) s; []] else None
         | [] => None
         end
    else None.
Proof.
  intros Hqr. cbn [match_here]. destruct (p c); [| reflexivity]. simpl andb.
  rewrite backtrack_exact.
  - destruct (lo <=? span_len q s); [| reflexivity].
    destruct (drop (span_len q s) s) as [|d t]; [reflexivity |].
    cbn [match_here]. destruct (r d); reflexivity.
  - intros j Hj. destruct (span_len_drop_lt q s j Hj) as (x & t & -> & Hx).
    cbn [match_here]. by rewrite (Hqr x Hx).
Qed.

Lemma match_many (q : char -> bool) (lo : nat) (s : pystr) :
  match_here [Many q lo] s
  = if lo <=? span_len q s then Some [take (span_len q s) s] else None.
Proof.
  cbn [match_here]. rewrite backtrack_unfold.
  destruct (Nat.ltb_spec (span_len q s) lo); destruct (Nat.leb_spec lo (span_len q s));
    try lia; reflexivity.
Qed.

(** ** The text normalizer *)

Lemma lstrip_head (s : pystr) (c : char) : head (lstrip s) = Some c -> is_space c = false.
Proof.
  unfold lstrip. pose proof (span_len_drop is_space s) as Hd.
  destruct (drop (span_len is_space s) s); [done |]. by intros [= <-].
Qed.

Lemma lstrip_cons_nonspace (c : char) (s : pystr) :
  is_space c = false -> lstrip (c :: s) = c :: s.
Proof. intros Hc. unfold lstrip. by rewrite span_len_cons_false. Qed.

Lemma lstrip_snoc (l : pystr) (c : char) :
  is_space c = false -> lstrip (l ++ [c]) = lstrip l ++ [c].
Proof.
  intros Hc. unfold lstrip. induction l as [|x l IH]; simpl.
  - by rewrite Hc.
  - destruct (is_space x); [exact IH | reflexivity].
Qed.

Lemma rstrip_cons_nonspace (c : char) (s : pystr) :
  is_space c = false -> rstrip (c :: s) = c :: rstrip s.
Proof.
  intros Hc. unfold rstrip. simpl rev at 2.
  rewrite lstrip_snoc by exact Hc. by rewrite rev_unit.
Qed.

Lemma rstrip_snoc_nonspace (l : pystr) (c : char) :
  is_space c = false -> rstrip (l ++ [c]) = l ++ [c].
Proof.
  intros Hc. unfold rstrip. rewrite rev_unit, lstrip_cons_nonspace by exact Hc.
  simpl. by rewrite rev_involutive.
Qed.

Lemma last_rev (s : pystr) : last (rev s) = head s.
Proof. destruct s as [|c s]; [reflexivity |]. simpl. by rewrite last_snoc. Qed.

Lemma strip_trimmed (s : pystr) : trimmed (strip s).
Proof.
  unfold strip. split.
  - pose proof (lstrip_head s) as Hh.
    destruct (lstrip s) as [|c t]; [by intros c |].
    specialize (Hh c eq_refl). rewrite rstrip_cons_nonspace by exact Hh.
    by intros c' [= <-].
  - intros c. unfold rstrip. rewrite last_rev. apply lstrip_head.
Qed.

Lemma strip_all_space (s : pystr) : Forall (fun c => is_space c = true) s -> strip s = [].
Proof.
  intros Hall. assert (Hl : lstrip s = []).
  { unfold lstrip. induction Hall as [|c s Hc _ IH]; [reflexivity |].
    simpl. by rewrite Hc. }
  unfold strip. by rewrite Hl.
Qed.

Lemma trimmed_nil : trimmed [].
Proof. split; intros c; discriminate. Qed.

Lemma collapse_runs_skip (s : pystr) :
  collapse_runs true s = collapse_runs false (drop (span_len is_space s) s).
Proof.
  induction s as [|c s IH]; [reflexivity |].
  simpl. destruct (is_space c) eqn:Hc; [exact IH |].
  simpl. by rewrite Hc.
Qed.

Lemma collapse_runs_space_space (c d : char) (s : pystr) :
  is_space c = true -> is_space d = true ->
  collapse_runs false (c :: d :: s) = 32%N :: collapse_runs true (d :: s).
Proof. intros Hc Hd. cbn [collapse_runs]. by rewrite Hc, Hd. Qed.

Lemma collapse_runs_space_other (c d : char) (s : pystr) :
  is_space c = true -> is_space d = false ->
  collapse_runs false (c :: d :: s) = c :: collapse_runs false (d :: s).
Proof. intros Hc Hd. cbn [collapse_runs]. by rewrite Hc, Hd. Qed.

Lemma collapse_runs_nonspace (b : bool) (c : char) (s : pystr) :
  is_space c = false -> collapse_runs b (c :: s) = c :: collapse_runs false s.
Proof. intros Hc. cbn [collapse_runs]. by rewrite Hc. Qed.

(** [re.sub(r"\s{2,}", " ", s)] *)
Lemma re_sub_multispace (s : pystr) :
  re_sub re_multispace (fun _ => lit " ") s = collapse_runs false s.
Proof.
  remember (length s) as n eqn:Hn. revert s Hn.
  induction n as [n IH] using lt_wf_ind. intros s Hn.
  destruct s as [|c s]; [reflexivity |].
  rewrite re_sub_step. unfold re_multispace at 1. rewrite match_many.
  destruct (is_space c) eqn:Hc.
  - rewrite (span_len_cons_true _ _ _ Hc).
    destruct s as [|d s].
    + simpl. by rewrite Hc.
    + destruct (is_space d) eqn:Hd.
      * rewrite (span_len_cons_true _ _ _ Hd). cbn [Nat.leb].
        set (m := span_len is_space s).
        assert (Hm : m <= length s) by apply span_len_le.
        cbn [concat]. rewrite app_nil_r, length_take.
        replace (S (S m) `min` length (c :: d :: s)) with (S (S m)) by (simpl; lia).
        rewrite (collapse_runs_space_space _ _ _ Hc Hd).
        change (lit " ") with [32%N] at 1. cbn [app]. f_equal.
        rewrite collapse_runs_skip, (span_len_cons_true _ _ _ Hd). fold m.
        apply (IH (length (drop (S m) (d :: s)))); [| reflexivity].
        rewrite length_drop. simpl in *. lia.
      * rewrite (span_len_cons_false _ _ _ Hd). cbn [Nat.leb].
        rewrite (collapse_runs_space_other _ _ _ Hc Hd). f_equal.
        apply (IH (length (d :: s))); [simpl in *; lia | reflexivity].
  - rewrite (span_len_cons_false _ _ _ Hc). cbn [Nat.leb].
    rewrite (collapse_runs_nonspace _ _ _ Hc). f_equal.
    apply (IH (length s)); [simpl in *; lia | reflexivity].
Qed.

Lemma spaces_then_cons_space (p : char -> bool) (c : char) (s : pystr) :
  is_space c = true -> spaces_then p (c :: s) = spaces_then p s.
Proof.
  intros Hc. unfold spaces_then, after_spaces. by rewrite (span_len_cons_true _ _ _ Hc).
Qed.

(** After an alphanumeric character, a whitespace run that ends at an
    alphanumeric character goes; anything else is read afresh. *)
Lemma delete_runs_after_alnum (s : pystr) :
  delete_runs_between_alnum true s
  = if ((1 <=? span_len is_space s) && spaces_then is_alnum s)%bool
    then delete_runs_between_alnum false (drop (span_len is_space s) s)
    else delete_runs_between_alnum false s.
Proof.
  induction s as [|c s IH]; [reflexivity |].
  destruct (is_space c) eqn:Hc.
  - rewrite (span_len_cons_true _ _ _ Hc), (spaces_then_cons_space _ _ _ Hc).
    cbn [Nat.leb andb drop delete_runs_between_alnum]. rewrite Hc. cbn [andb].
    destruct (spaces_then is_alnum s) eqn:Hs.
    + rewrite IH, andb_true_r.
      destruct (span_len is_space s); reflexivity.
    + reflexivity.
  - rewrite (span_len_cons_false _ _ _ Hc). cbn [Nat.leb andb delete_runs_between_alnum].
    rewrite Hc. reflexivity.
Qed.

(** [re.sub(r"([alnum])\s+(?=[alnum])", r"\1", s)] *)
Lemma re_sub_spaced (s : pystr) :
  re_sub re_spaced (piece 0) s = delete_runs_between_alnum false s.
Proof.
  remember (length s) as n eqn:Hn. revert s Hn.
  induction n as [n IH] using lt_wf_ind. intros s Hn.
  destruct s as [|c s]; [reflexivity |].
  rewrite re_sub_step. unfold re_spaced.
  rewrite match_one_many_ahead by apply space_not_alnum.
  set (m := span_len is_space s).
  assert (Hm : m <= length s) by apply span_len_le.
  assert (Htail : c :: re_sub [One is_alnum; Many is_space 1; Ahead is_alnum] (piece 0) s
                  = c :: delete_runs_between_alnum false s).
  { f_equal. apply (IH (length s)); [simpl in *; lia | reflexivity]. }
  cbn [delete_runs_between_alnum]. rewrite andb_false_r. cbn [andb].
  destruct (is_alnum c) eqn:Ha; cbn [andb]; [| exact Htail].
  rewrite delete_runs_after_alnum. fold m.
  unfold spaces_then, after_spaces. fold m.
  destruct (1 <=? m) eqn:H1; cbn [andb]; [| exact Htail].
  destruct (drop m s) as [|d t] eqn:Hd; cbn [head]; [exact Htail |].
  destruct (is_alnum d) eqn:Hda; [| exact Htail].
  cbn [concat]. rewrite app_nil_r, length_app, length_take.
  replace (length [c] + m `min` length s) with (S m) by (simpl; lia).
  unfold piece at 1. cbn [nth app]. f_equal. rewrite Hd.
  apply (IH (length (d :: t))); [| reflexivity].
  rewrite <- Hd, length_drop. apply Nat.leb_le in H1. simpl in *. lia.
Qed.

(** The normalizer, with the two substitutions read as list functions. *)
Lemma normalize_spaced_text_reference (text : option pystr) :
  normalize_spaced_text text = normalize_with (delete_runs_between_alnum false) text.
Proof.
  unfold normalize_spaced_text, normalize_with.
  destruct (strip (or_empty text)) as [|c t]; [reflexivity |].
  by rewrite !re_sub_multispace, re_sub_spaced.
Qed.

(** C9, as stated, fails: on text with letters one space apart and words
    three spaces apart the code also deletes the gaps between the words,
    where the statement keeps one space. *)
Lemma normalize_word_gaps_counterexample :
  25 <= length (re_findall re_pair spaced_out_text)
  /\ normalize_spaced_text (Some spaced_out_text)
     = lit "SeniorDataEngineerwithPythonandSQLskillsandcloudexperience"
  /\ normalize_as_specified (Some spaced_out_text)
     = lit "Senior Data Engineer with Python and SQL skills and cloud experience"
  /\ normalize_spaced_text (Some spaced_out_text)
     <> normalize_as_specified (Some spaced_out_text).
Proof.
  split; [vm_compute; lia |]. split; [vm_compute; reflexivity |].
  split; [vm_compute; reflexivity |]. vm_compute. discriminate.
Qed.

(** C9, amended. The normalizer maps [None], the empty string and
    all-whitespace text to the empty string.  Otherwise, on the stripped
    text: with fewer than 25 non-overlapping matches of an alphanumeric
    character, a whitespace run and an alphanumeric character, it only
    turns each run of two or more whitespace characters into one space;
    with 25 or more it first deletes every whitespace run, of whatever
    length, that stands between two alphanumeric characters, and then turns
    each remaining run of two or more whitespace characters into one space.
    The result is trimmed, and the function is total. *)
Theorem normalize_spaced_text_spec (text : option pystr) :
  normalize_spaced_text text
  = (let t := strip (or_empty text) in
     if decide (t = []) then []
     else if length (re_findall re_pair t) <? 25
          then strip (collapse_runs false t)
          else strip (collapse_runs false (delete_runs_between_alnum false t)))
  /\ trimmed (normalize_spaced_text text)
  /\ (Forall (fun c => is_space c = true) (or_empty text) -> normalize_spaced_text text = [])
  /\ normalize_spaced_text None = [].
Proof.
  split; [| split; [| split; [| reflexivity]]].
  - rewrite normalize_spaced_text_reference. unfold normalize_with. cbn zeta.
    destruct (strip (or_empty text)); [reflexivity |]. by case_decide.
  - rewrite normalize_spaced_text_reference. unfold normalize_with.
    destruct (strip (or_empty text)); [apply trimmed_nil |].
    destruct (_ <? 25); apply strip_trimmed.
  - intros Hall. unfold normalize_spaced_text. by rewrite (strip_all_space _ Hall).
Qed.

(** ** The JSON extractor *)

Lemma match_one_drop (p : char -> bool) (s : pystr) (j : nat) :
  match_here [One p] (drop j s)
  = match s !! j with
    | Some d => if p d then Some [[d]] else None
    | None => None
    end.
Proof.
  revert j. induction s as [|c s IH]; intros j.
  - by rewrite drop_nil.
  - destruct j as [|j]; [| apply IH].
    simpl. destruct (p c); reflexivity.
Qed.

Lemma last_index_None (p : char -> bool) (s : pystr) :
  last_index p s = None -> forall i d, s !! i = Some d -> p d = false.
Proof.
  induction s as [|c s IH]; intros Hl i d Hd; [done |].
  simpl in Hl. destruct (last_index p s) eqn:Hl'; [done |].
  destruct (p c) eqn:Hc; [done |].
  destruct i as [|i]; [by injection Hd as <- |]. by apply (IH eq_refl i d).
Qed.

Lemma last_index_Some (p : char -> bool) (s : pystr) (j : nat) :
  last_index p s = Some j ->
  (exists d, s !! j = Some d /\ p d = true)
  /\ forall i d, j < i -> s !! i = Some d -> p d = false.
Proof.
  revert j. induction s as [|c s IH]; intros j; [done |].
  simpl. destruct (last_index p s) as [j'|] eqn:Hl.
  - intros [= <-]. destruct (IH j' eq_refl) as [Hat Habove]. split; [exact Hat |].
    intros [|i] d Hi Hd; [lia |]. apply (Habove i d); [lia | exact Hd].
  - destruct (p c) eqn:Hc; [| done]. intros [= <-]. split; [by exists c |].
    intros [|i] d Hi Hd; [lia |]. by apply (last_index_None p s Hl i d).
Qed.

Lemma eqb_125 (d : char) : N.eqb 125 d = true -> d = 125%N.
Proof. intros Hd. by apply N.eqb_eq in Hd. Qed.

Lemma match_here_One (p : char -> bool) (r : regex) (c : char) (s : pystr) :
  match_here (One p :: r) (c :: s) = if p c then cons [c] <$> match_here r s else None.
Proof. reflexivity. Qed.

Lemma match_here_Many (p : char -> bool) (lo : nat) (r : regex) (s : pystr) :
  match_here (Many p lo :: r) s = backtrack (match_here r) s lo (span_len p s).
Proof. reflexivity. Qed.

Lemma span_len_any (s : pystr) : span_len any_char s = length s.
Proof. induction s as [|x s IH]; [reflexivity |]. simpl. by rewrite IH. Qed.

(** At an opening brace, [\{.*\}] reaches the last closing brace. *)
Lemma match_braces (c : char) (s : pystr) :
  match_here re_braces (c :: s)
  = if N.eqb 123 c
    then (fun k => [[c]; take k s; [125%N]]) <$> last_index (N.eqb 125) s
    else None.
Proof.
  unfold re_braces. rewrite match_here_One. destruct (N.eqb 123 c); [| reflexivity].
  rewrite match_here_Many, span_len_any.
  set (k := match_here [One (N.eqb 125)]).
  destruct (backtrack k s 0 (length s)) as [r|] eqn:Hb;
    destruct (last_index (N.eqb 125) s) as [j'|] eqn:Hl; simpl.
  - apply backtrack_Some in Hb as (j & ps & Hj & Hk & -> & Habove).
    apply last_index_Some in Hl as [(d' & Hd' & Hp') Hmax].
    unfold k in Hk, Habove. rewrite match_one_drop in Hk.
    destruct (s !! j) as [d|] eqn:Hd; [| done].
    destruct (N.eqb 125 d) eqn:Hp; [| done]. injection Hk as <-.
    rewrite (eqb_125 d Hp).
    assert (j = j') as ->; [| reflexivity].
    destruct (Nat.lt_trichotomy j j') as [Hlt|[Heq|Hgt]]; [| exact Heq |].
    + assert (Hj' : j' < length s) by (apply lookup_lt_Some in Hd'; exact Hd').
      specialize (Habove j' ltac:(lia)). rewrite match_one_drop, Hd', Hp' in Habove. done.
    + rewrite (Hmax j d Hgt Hd) in Hp. done.
  - apply backtrack_Some in Hb as (j & ps & Hj & Hk & -> & Habove).
    unfold k in Hk. rewrite match_one_drop in Hk.
    destruct (s !! j) as [d|] eqn:Hd; [| done].
    by rewrite (last_index_None _ _ Hl j d Hd) in Hk.
  - apply last_index_Some in Hl as [(d' & Hd' & Hp') _].
    assert (Hj' : j' < length s) by (apply lookup_lt_Some in Hd'; exact Hd').
    pose proof (backtrack_None _ _ _ _ Hb j' ltac:(lia)) as Hk.
    unfold k in Hk. rewrite match_one_drop, Hd', Hp' in Hk. done.
  - reflexivity.
Qed.

Lemma match_braces_nil : match_here re_braces [] = None.
Proof. reflexivity. Qed.

Lemma last_index_cons_None (p : char -> bool) (c : char) (s : pystr) :
  last_index p (c :: s) = None -> last_index p s = None.
Proof. simpl. by destruct (last_index p s). Qed.

Lemma search_braces_no_close (s : pystr) (i0 : nat) :
  last_index (N.eqb 125) s = None -> re_search_from re_braces s i0 = None.
Proof.
  revert i0. induction s as [|c s IH]; intros i0 Hl; [reflexivity |].
  cbn [re_search_from]. rewrite match_braces.
  rewrite (last_index_cons_None _ _ _ Hl).
  destruct (N.eqb 123 c); simpl; apply IH; by apply last_index_cons_None in Hl.
Qed.

(** [re.search(r"\{.*\}", s, re.DOTALL)] *)
Lemma search_braces (s : pystr) (i0 : nat) :
  re_search_from re_braces s i0
  = match find_index (N.eqb 123) s with
    | None => None
    | Some i =>
        (fun k => (i0 + i, [[123%N]; take k (drop (S i) s); [125%N]]))
          <$> last_index (N.eqb 125) (drop (S i) s)
    end.
Proof.
  revert i0. induction s as [|c s IH]; intros i0; [reflexivity |].
  cbn [re_search_from find_index]. rewrite match_braces.
  destruct (N.eqb_spec 123 c) as [<-|Hc].
  - cbn [N.eqb Pos.eqb drop]. change (drop 0 s) with s.
    destruct (last_index (N.eqb 125) s) as [k|] eqn:Hl; simpl.
    + by rewrite Nat.add_0_r.
    + by apply search_braces_no_close.
  - rewrite IH. destruct (find_index (N.eqb 123) s) as [i|]; [| reflexivity].
    simpl. destruct (last_index (N.eqb 125) (drop (S i) s)); [| reflexivity].
    simpl. by rewrite Nat.add_succ_r.
Qed.

Lemma find_index_Some (p : char -> bool) (s : pystr) (i : nat) :
  find_index p s = Some i -> exists c, s !! i = Some c /\ p c = true.
Proof.
  revert i. induction s as [|c s IH]; intros i; [done |].
  simpl. destruct (p c) eqn:Hc.
  - intros [= <-]. by exists c.
  - destruct (find_index p s) as [j|]; [| done]. simpl. intros [= <-]. by apply IH.
Qed.

(** The match of [re.search] is the brace span. *)
Lemma search_braces_span (s : pystr) :
  group0 <$> re_search re_braces s = brace_span s.
Proof.
  unfold re_search, brace_span. rewrite search_braces.
  destruct (find_index (N.eqb 123) s) as [i|] eqn:Hi; [| reflexivity].
  destruct (last_index (N.eqb 125) (drop (S i) s)) as [k|] eqn:Hk; [| reflexivity].
  simpl. unfold group0. simpl. f_equal.
  apply find_index_Some in Hi as (c & Hc & Hp). apply N.eqb_eq in Hp. subst c.
  apply last_index_Some in Hk as [(d & Hd & Hp) _]. apply eqb_125 in Hp. subst d.
  rewrite (drop_S _ _ _ Hc).
  replace (k + 2) with (S (S k)) by lia. cbn [take]. f_equal.
  by rewrite (take_S_r _ _ _ Hd).
Qed.

Lemma brace_span_shape (s span : pystr) :
  brace_span s = Some span -> exists mid, span = 123%N :: mid ++ [125%N].
Proof.
  unfold brace_span.
  destruct (find_index (N.eqb 123) s) as [i|] eqn:Hi; [| done].
  destruct (last_index (N.eqb 125) (drop (S i) s)) as [k|] eqn:Hk; [| done].
  intros [= <-].
  apply find_index_Some in Hi as (c & Hc & Hp). apply N.eqb_eq in Hp. subst c.
  apply last_index_Some in Hk as [(d & Hd & Hp) _]. apply eqb_125 in Hp. subst d.
  exists (take k (drop (S i) s)).
  rewrite (drop_S _ _ _ Hc). replace (k + 2) with (S (S k)) by lia. cbn [take]. f_equal.
  by rewrite (take_S_r _ _ _ Hd).
Qed.

Lemma strip_braced (mid : pystr) :
  strip (123%N :: mid ++ [125%N]) = 123%N :: mid ++ [125%N].
Proof.
  unfold strip. rewrite lstrip_cons_nonspace by reflexivity.
  change (123%N :: mid ++ [125%N]) with ((123%N :: mid) ++ [125%N]).
  by rewrite rstrip_snoc_nonspace.
Qed.

(** [s.replace("\r", " ").replace("\n", " ")] *)
Lemma replace_cr_lf (s : pystr) :
  replace [10%N] (lit " ") (replace [13%N] (lit " ") s) = map nl_to_space s.
Proof.
  rewrite !replace_char. induction s as [|c s IH]; [reflexivity |].
  cbn [flat_map map]. rewrite flat_map_app, IH. f_equal.
  unfold replace_one, nl_to_space. rewrite (N.eqb_sym 13 c).
  destruct (N.eqb_spec c 13) as [->|H13]; [reflexivity |].
  cbn [flat_map app orb]. rewrite (N.eqb_sym 10 c).
  destruct (N.eqb c 10); reflexivity.
Qed.

Lemma closer_not_comma (d : char) : is_closer d = true -> N.eqb 44 d = false.
Proof.
  unfold is_closer. intros Hd. apply orb_prop in Hd as [Hd|Hd];
    apply N.eqb_eq in Hd; by subst d.
Qed.

Lemma space_not_comma (c : char) : is_space c = true -> N.eqb 44 c = false.
Proof.
  intros Hc. destruct (N.eqb_spec 44 c) as [<-|]; [| reflexivity].
  vm_compute in Hc. discriminate.
Qed.

(** In the gap after a deleted comma the whitespace goes, up to the
    closing bracket. *)
Lemma drop_trailing_commas_gap (s : pystr) :
  spaces_then is_closer s = true ->
  drop_trailing_commas true s
  = drop_trailing_commas false (drop (span_len is_space s) s).
Proof.
  induction s as [|c s IH]; intros Hs; [done |].
  destruct (is_space c) eqn:Hc.
  - rewrite (span_len_cons_true _ _ _ Hc). rewrite (spaces_then_cons_space _ _ _ Hc) in Hs.
    cbn [drop drop_trailing_commas]. rewrite (space_not_comma _ Hc), Hc. cbn [andb].
    by apply IH.
  - rewrite (span_len_cons_false _ _ _ Hc). cbn [drop drop_trailing_commas].
    rewrite Hc, andb_false_r. reflexivity.
Qed.

(** [re.sub(r",\s*([}\]])", r"\1", s)] *)
Lemma re_sub_trailing_comma (s : pystr) :
  re_sub re_trailing_comma (piece 2) s = drop_trailing_commas false s.
Proof.
  remember (length s) as n eqn:Hn. revert s Hn.
  induction n as [n IH] using lt_wf_ind. intros s Hn.
  destruct s as [|c s]; [reflexivity |].
  rewrite re_sub_step. unfold re_trailing_comma at 1.
  rewrite match_one_many_one by apply space_not_closer.
  set (m := span_len is_space s).
  assert (Hm : m <= length s) by apply span_len_le.
  assert (Htail : c :: re_sub re_trailing_comma (piece 2) s
                  = c :: drop_trailing_commas false s).
  { f_equal. apply (IH (length s)); [simpl in *; lia | reflexivity]. }
  cbn [drop_trailing_commas Nat.leb]. rewrite andb_true_r. cbn [andb].
  unfold spaces_then, after_spaces. fold m.
  destruct (N.eqb 44 c) eqn:Hc; cbn [andb]; [| exact Htail].
  destruct (drop m s) as [|d t] eqn:Hd; cbn [head]; [exact Htail |].
  destruct (is_closer d) eqn:Hcl; [| exact Htail].
  cbn [concat]. rewrite app_nil_r, !length_app, length_take.
  replace (length [c] + (m `min` length s + length [d])) with (S (S m)) by (simpl; lia).
  unfold piece at 1. cbn [nth app].
  rewrite drop_trailing_commas_gap
    by (unfold spaces_then, after_spaces; fold m; by rewrite Hd).
  fold m. rewrite Hd. cbn [drop_trailing_commas].
  rewrite (closer_not_comma _ Hcl). cbn [andb]. f_equal.
  assert (Ht : drop (S m) s = t).
  { replace (S m) with (m + 1) by lia. rewrite <- drop_drop, Hd. reflexivity. }
  rewrite Ht. apply (IH (length t)); [| reflexivity].
  rewrite <- Ht, length_drop. assert (length (drop m s) = S (length t)) by by rewrite Hd.
  rewrite length_drop in *. simpl in *. lia.
Qed.

(** The extractor, with the search and the substitutions read as list
    functions. *)
Lemma extract_json_safely_reference (text : pystr) :
  extract_json_safely text = extract_with (drop_trailing_commas false) text.
Proof.
  unfold extract_json_safely, extract_with.
  destruct text as [|c text]; [reflexivity |].
  pose proof (search_braces_span (c :: text)) as Hspan.
  destruct (re_search re_braces (c :: text)) as [m|]; simpl in Hspan; rewrite <- Hspan;
    [| reflexivity].
  destruct (brace_span_shape (c :: text) (group0 m) (eq_sym Hspan)) as [mid ->].
  by rewrite strip_braced, replace_cr_lf, re_sub_trailing_comma.
Qed.

(** C5, as stated, fails: on [{"a":1, }] the code returns [{"a":1}], the
    whitespace between the comma and the brace gone with the comma, where
    the statement removes the comma alone. *)
Lemma extract_comma_space_counterexample :
  extract_json_safely json_a1_comma_space = Return json_a1
  /\ extract_as_specified json_a1_comma_space = Return json_a1_space
  /\ extract_json_safely json_a1_comma_space <> extract_as_specified json_a1_comma_space.
Proof.
  split; [vm_compute; reflexivity |]. split; [vm_compute; reflexivity |].
  vm_compute. discriminate.
Qed.

(** C5, amended. The extractor raises exactly when its input is empty or
    has no brace span (no opening brace, or no closing brace after the first
    opening one).  Otherwise it returns the span from the first opening
    brace to the last closing brace, with every carriage return and newline
    replaced by a space and every comma that is followed, after optional
    whitespace, by a closing brace or bracket removed together with that
    whitespace.  On the example of the specification the result is
    [{"a":1}], which [json.loads] accepts; a result need not parse. *)
Theorem extract_json_safely_spec :
  (forall text,
      extract_json_safely text
      = match text with
        | [] => Raise (Exn ValueError (lit "Empty LLM output"))
        | _ =>
            match brace_span text with
            | None => Raise (Exn ValueError (lit "No JSON object found in LLM output"))
            | Some span => Return (drop_trailing_commas false (map nl_to_space span))
            end
        end)
  /\ (forall text,
        (exists e, extract_json_safely text = Raise e) <-> text = [] \/ brace_span text = None)
  /\ extract_json_safely llm_text_example = Return json_a1
  /\ json_loads json_a1 = Return (PyDict [(lit "a", PyInt 1)])
  /\ extract_json_safely (lit "no braces here") = Raise (Exn ValueError (lit "No JSON object found in LLM output"))
  /\ (exists text out e,
        extract_json_safely text = Return out /\ json_loads out = Raise e).
Proof.
  split; [apply extract_json_safely_reference |].
  split.
  - intros text. rewrite extract_json_safely_reference. unfold extract_with.
    destruct text as [|c text].
    + split; [tauto | intros _; eauto].
    + destruct (brace_span (c :: text)) as [span|].
      * split; [intros [e He]; discriminate | intros [?|?]; discriminate].
      * split; [tauto | intros _; eauto].
  - split; [vm_compute; reflexivity |]. split; [vm_compute; reflexivity |].
    split; [vm_compute; reflexivity |].
    exists (lit "{x}"), (lit "{x}"), json_error. split; vm_compute; reflexivity.
Qed.

(** * Further properties of the code *)

(** ** Footprints of the pipeline *)

Section Respects.
Variable R : world -> world -> Prop.
Hypothesis R_refl : forall w, R w w.
Hypothesis R_trans : forall w1 w2 w3, R w1 w2 -> R w2 w3 -> R w1 w3.

Lemma respects_ret {A} (a : A) : respects R (mret a).
Proof. intros w. apply R_refl. Qed.

Lemma respects_raise {A} (e : exn) : respects R (raise (A := A) e).
Proof. intros w. apply R_refl. Qed.

Lemma respects_lift {A} (r : result A) : respects R (lift r).
Proof. intros w. apply R_refl. Qed.

Lemma respects_bind {A B} (m : M A) (k : A -> M B) :
  respects R m -> (forall a, respects R (k a)) -> respects R (m ≫= k).
Proof.
  intros Hm Hk w. rewrite bind_unfold. specialize (Hm w).
  destruct (m w) as [w' [e|a]]; [exact Hm |].
  eapply R_trans; [exact Hm | apply Hk].
Qed.

Lemma respects_try_except {A} (m : M A) (h : exn -> M A) :
  respects R m -> (forall e, respects R (h e)) -> respects R (try_except m h).
Proof.
  intros Hm Hh w. unfold try_except. specialize (Hm w).
  destruct (m w) as [w' [e|a]]; [| exact Hm].
  eapply R_trans; [exact Hm | apply Hh].
Qed.
End Respects.

Lemma same_jobs_refl (w : world) : same_jobs w w.
Proof. reflexivity. Qed.

Lemma same_jobs_trans (w1 w2 w3 : world) : same_jobs w1 w2 -> same_jobs w2 w3 -> same_jobs w1 w3.
Proof. unfold same_jobs. congruence. Qed.

Lemma same_files_refl (P : pystr -> Prop) (w : world) : same_files_outside P w w.
Proof. by intros p _. Qed.

Lemma write_text_jobs (path : pystr) (content : option pystr) :
  respects same_jobs (write_text path content).
Proof. by intros w. Qed.

Lemma invoke_jobs (client : OpenAIClient) (input system_prompt : pystr) :
  respects same_jobs (invoke client input system_prompt).
Proof. intros w. unfold invoke. by destruct (llm_replies w). Qed.

Lemma debug_write_jobs (d : option pystr) (name content : pystr) :
  respects same_jobs (debug_write d name content).
Proof. destruct d; [apply write_text_jobs | by intros w]. Qed.

Lemma build_client_jobs : respects same_jobs build_client.
Proof. intros w. unfold same_jobs. by rewrite build_client_world. Qed.

(** Frame goals are settled by walking the structure of the computation. *)
Ltac frame_jobs :=
  repeat first
    [ apply write_text_jobs
    | apply debug_write_jobs
    | apply invoke_jobs
    | apply build_client_jobs
    | apply (respects_ret same_jobs same_jobs_refl)
    | apply (respects_raise same_jobs same_jobs_refl)
    | apply (respects_lift same_jobs same_jobs_refl)
    | apply (respects_bind same_jobs same_jobs_trans)
    | apply (respects_try_except same_jobs same_jobs_trans)
    | match goal with |- forall _, _ => intro end ].

Section Footprints.
Context `{E : Externals} {F : Type} `{AF : Arith F}.

Lemma analyze_fit_core_jobs client sp ut cv job d :
  respects same_jobs (analyze_fit_core client sp ut cv job d).
Proof. unfold analyze_fit_core. frame_jobs. Qed.

Lemma analyze_fit_suggestions_jobs client sp ut cv job core d :
  respects same_jobs (analyze_fit_suggestions client sp ut cv job core d).
Proof. unfold analyze_fit_suggestions. frame_jobs. Qed.

Lemma process_job_jobs app_root templates_dir job_id spc utc sps uts cv_txt job_txt title :
  respects same_jobs
    (process_job app_root templates_dir job_id spc utc sps uts cv_txt job_txt title).
Proof.
  unfold process_job, job_dir, out_dir, ensure_dir. frame_jobs;
    first [apply analyze_fit_core_jobs | apply analyze_fit_suggestions_jobs].
Qed.
End Footprints.

(** ** The two LLM stages *)


Section Stages.
Context `{E : Externals}.

Lemma analyze_fit_core_stage client sp ut cv job d w :
  analyze_fit_core client sp ut cv job (Some d) w
  = stage_run (lit "fit_core") FitCore_model_validate sp
      (str_format ut [(lit "cv_text", cv); (lit "job_text", job)]) d w.
Proof.
  unfold analyze_fit_core, stage_run. rewrite bind_unfold. unfold lift at 1.
  destruct (str_format ut _) as [e|prompt]; [reflexivity |].
  unfold debug_write, invoke, lift, try_except, raise, with_file, asked, write_text,
    mbind, M_bind, mret, M_ret.
  cbn [fst snd files job_table environ llm_replies llm_calls].
  destruct (llm_replies w) as [|[e|raw] rest]; [reflexivity .. |].
  destruct (extract_json_safely raw) as [e|json_text]; [reflexivity |].
  destruct (json_loads json_text) as [e|data]; [reflexivity |].
  destruct (FitCore_model_validate data); reflexivity.
Qed.

Lemma analyze_fit_suggestions_stage client sp ut cv job fit_core d w :
  analyze_fit_suggestions client sp ut cv job fit_core (Some d) w
  = stage_run (lit "fit_suggestions") FitSuggestions_model_validate sp
      (str_format ut [(lit "cv_text", cv); (lit "job_text", job);
                      (lit "fit_core_json", json_pretty (FitCore_dump fit_core))]) d w.
Proof.
  unfold analyze_fit_suggestions, stage_run. rewrite bind_unfold. unfold lift at 1.
  destruct (str_format ut _) as [e|prompt]; [reflexivity |].
  unfold debug_write, invoke, lift, try_except, raise, with_file, asked, write_text,
    mbind, M_bind, mret, M_ret.
  cbn [fst snd files job_table environ llm_replies llm_calls].
  destruct (llm_replies w) as [|[e|raw] rest]; [reflexivity .. |].
  destruct (extract_json_safely raw) as [e|json_text]; [reflexivity |].
  destruct (json_loads json_text) as [e|data]; [reflexivity |].
  destruct (FitSuggestions_model_validate data); reflexivity.
Qed.
End Stages.

Lemma asked_times_refl (w : world) : asked_times 0 w w.
Proof.
  unfold asked_times. rewrite firstn_all, Nat.add_0_r. by repeat split.
Qed.

Lemma asked_times_trans (k1 k2 : nat) (w w1 w2 : world) :
  asked_times k1 w w1 -> asked_times k2 w1 w2 -> asked_times (k1 + k2) w w2.
Proof.
  intros (Hp1 & Hl1 & Hr1) (Hp2 & Hl2 & Hr2). repeat split.
  - rewrite <- Hp1 at 2. rewrite <- Hp2. rewrite take_take.
    f_equal. lia.
  - lia.
  - by rewrite Hr2, Hr1, drop_drop.
Qed.

Lemma asked_times_with_file (k : nat) (path content : pystr) (w w' : world) :
  asked_times k w w' -> asked_times k w (with_file path content w').
Proof. exact id. Qed.

Lemma asked_times_asked (sp prompt : pystr) (w w' : world) :
  asked_times 0 w w' ->
  asked_times 1 w (asked sp prompt (drop 1 (llm_replies w)) w').
Proof.
  intros (Hp & Hl & Hr). rewrite Nat.add_0_r in Hl. unfold asked_times, asked.
  cbn [llm_calls llm_replies]. rewrite <- Hl in Hp. rewrite firstn_all in Hp.
  rewrite Hp. repeat split.
  - by rewrite take_app_length.
  - rewrite length_app. simpl. lia.
Qed.

(** A stage asks the LLM at most once, and exactly once when it returns. *)
Lemma stage_run_asked {A} (stage : pystr) (validate : pyval -> result A)
    (sp : pystr) (user_prompt : result pystr) (d : pystr) (w : world) :
  exists k, asked_times k w (fst (stage_run stage validate sp user_prompt d w))
            /\ k <= 1
            /\ (forall a, snd (stage_run stage validate sp user_prompt d w) = Return a -> k = 1).
Proof.
  unfold stage_run. destruct user_prompt as [e|prompt].
  { exists 0. split; [apply asked_times_refl | split; [lia | discriminate]]. }
  exists 1. split; [| split; [lia | done]].
  assert (H1 : forall p1 p2,
             asked_times 1 w
               (asked sp prompt (drop 1 (llm_replies w))
                  (with_file p1 prompt (with_file p2 sp w)))).
  { intros p1 p2.
    apply asked_times_asked, asked_times_with_file, asked_times_with_file, asked_times_refl. }
  destruct (llm_replies w) as [|[e|raw] rest]; cbn [drop] in H1; [apply H1 .. |].
  destruct (extract_json_safely raw) as [e|json_text]; [apply H1 |].
  destruct (json_loads json_text) as [e|data]; [apply H1 |].
  destruct (validate data); apply H1.
Qed.


Section StageOutcome.
Context `{E : Externals}.

End StageOutcome.


(** ** A job from start to finish *)

Lemma stage_run_files {A} (P : pystr -> Prop) (stage : pystr) (validate : pyval -> result A)
    (sp : pystr) (user_prompt : result pystr) (d : pystr) (w : world) :
  (forall name, P (path_join d name)) ->
  same_files_outside P w (fst (stage_run stage validate sp user_prompt d w)).
Proof.
  intros HP p Hp. unfold stage_run.
  assert (Hw : forall name c (w1 : world),
             files (with_file (path_join d name) c w1) !! p = files w1 !! p).
  { intros name c w1. cbn [with_file write_text fst files].
    apply lookup_insert_ne. intros <-. apply Hp, HP. }
  destruct user_prompt as [e|prompt]; [reflexivity |].
  destruct (llm_replies w) as [|[e|raw] rest]; cbn [fst];
    [unfold asked; cbn [files]; by rewrite !Hw .. |].
  destruct (extract_json_safely raw) as [e|json_text]; cbn [fst];
    [rewrite Hw; unfold asked; cbn [files]; by rewrite !Hw |].
  destruct (json_loads json_text) as [e|data]; cbn [fst];
    [rewrite !Hw; unfold asked; cbn [files]; by rewrite !Hw |].
  destruct (validate data); cbn [fst];
    rewrite !Hw; unfold asked; cbn [files]; by rewrite !Hw.
Qed.

Lemma stage_run_environ {A} (stage : pystr) (validate : pyval -> result A)
    (sp : pystr) (user_prompt : result pystr) (d : pystr) (w : world) :
  same_environ w (fst (stage_run stage validate sp user_prompt d w)).
Proof.
  unfold stage_run, same_environ.
  destruct user_prompt as [e|prompt]; [reflexivity |].
  destruct (llm_replies w) as [|[e|raw] rest]; [reflexivity .. |].
  destruct (extract_json_safely raw) as [e|json_text]; [reflexivity |].
  destruct (json_loads json_text) as [e|data]; [reflexivity |].
  destruct (validate data); reflexivity.
Qed.

(** Two paths below one root differ as soon as their first differing
    components do. *)
Ltac paths_differ H :=
  revert H;
  unfold job_outputs, inside, error_path_of, llm_debug_dir_of, json_path_of, html_path_of,
    path_join;
  rewrite <- ?app_assoc; intros H;
  repeat apply app_inv_head in H; vm_compute in H; discriminate.

Lemma save_text_input_world (project_root job_id filename content : pystr) (w : world) :
  fst (save_text_input project_root job_id filename content w)
  = with_file (path_join (path_join (path_join project_root (lit "jobs")) job_id) filename)
      content w.
Proof. reflexivity. Qed.

Lemma extra_item_html_path (j h : pystr) :
  extra_item (job_done [(lit "json_path", j); (lit "html_path", h)]) (lit "html_path")
  = Return h.
Proof. vm_compute. reflexivity. Qed.

Lemma extra_item_json_path (j h : pystr) :
  extra_item (job_done [(lit "json_path", j); (lit "html_path", h)]) (lit "json_path")
  = Return j.
Proof. vm_compute. reflexivity. Qed.

Section JobFacts.
Context `{E : Externals} {F : Type} `{AF : Arith F}.
Variables app_root templates_dir job_id : pystr.
Variables system_prompt_core user_template_core : pystr.
Variables system_prompt_sugg user_template_sugg : pystr.
Variables cv_txt job_txt job_title : pystr.

Let process := process_job app_root templates_dir job_id
                 system_prompt_core user_template_core system_prompt_sugg user_template_sugg
                 cv_txt job_txt job_title.
Let run := run_job app_root templates_dir
             system_prompt_core user_template_core system_prompt_sugg user_template_sugg
             job_id cv_txt job_txt job_title.

(** What [process_job] returns, when it returns. *)
Lemma process_job_returns (w w' : world) (paths : list (pystr * pystr)) :
  process w = (w', Return paths) -> paths = paths_of app_root job_id.
Proof.
  unfold process. rewrite process_job_stages.
  destruct (build_client w) as [w0 [e|client]]; [discriminate |].
  destruct (analyze_fit_core _ _ _ _ _ _ w0) as [w1 [e|fit_core]]; [discriminate |].
  destruct (analyze_fit_suggestions _ _ _ _ _ _ _ w1) as [w2 stage2].
  cbn zeta. by intros [= _ <-].
Qed.

Lemma process_job_files (w : world) :
  same_files_outside (job_outputs app_root job_id) w (fst (process w)).
Proof.
  assert (Hin : forall name,
             job_outputs app_root job_id (path_join (llm_debug_dir_of app_root job_id) name)).
  { intros name. left. by exists name. }
  unfold process. rewrite process_job_stages.
  pose proof (build_client_world w) as Hw.
  destruct (build_client w) as [w0 [e|client]]; cbn [fst] in Hw; subst w0;
    [apply same_files_refl |].
  rewrite analyze_fit_core_stage.
  match goal with |- context [stage_run ?s ?v ?sp ?up ?d w] =>
    pose proof (stage_run_files (job_outputs app_root job_id) s v sp up d w Hin) as H1;
    destruct (stage_run s v sp up d w) as [w1 [e|fit_core]] end; [exact H1 |].
  cbn [fst] in H1. rewrite analyze_fit_suggestions_stage.
  match goal with |- context [stage_run ?s ?v ?sp ?up ?d w1] =>
    pose proof (stage_run_files (job_outputs app_root job_id) s v sp up d w1 Hin) as H2;
    destruct (stage_run s v sp up d w1) as [w2 stage2] end.
  cbn [fst] in H2. cbn zeta. cbn [fst].
  intros p Hp. cbn [write_text fst files].
  rewrite lookup_insert_ne by (intros <-; apply Hp; right; by right).
  rewrite lookup_insert_ne by (intros <-; apply Hp; right; by left).
  destruct stage2 as [e|sugg].
  - cbn [write_text fst files].
    rewrite lookup_insert_ne by (intros <-; apply Hp, Hin).
    by rewrite (H2 p Hp), (H1 p Hp).
  - by rewrite (H2 p Hp), (H1 p Hp).
Qed.

Lemma process_job_environ (w : world) : same_environ w (fst (process w)).
Proof.
  unfold process. rewrite process_job_stages.
  pose proof (build_client_world w) as Hw.
  destruct (build_client w) as [w0 [e|client]]; cbn [fst] in Hw; subst w0; [reflexivity |].
  rewrite analyze_fit_core_stage.
  match goal with |- context [stage_run ?s ?v ?sp ?up ?d w] =>
    pose proof (stage_run_environ s v sp up d w) as H1;
    destruct (stage_run s v sp up d w) as [w1 [e|fit_core]] end; [exact H1 |].
  cbn [fst] in H1. rewrite analyze_fit_suggestions_stage.
  match goal with |- context [stage_run ?s ?v ?sp ?up ?d w1] =>
    pose proof (stage_run_environ s v sp up d w1) as H2;
    destruct (stage_run s v sp up d w1) as [w2 stage2] end.
  cbn [fst] in H2. cbn zeta. cbn [fst]. unfold same_environ in *.
  destruct stage2; cbn [write_text fst environ]; congruence.
Qed.

(** X: [process_job] calls [client.invoke] at most twice, each call taking
    the next reply of the client; it has called at least once when it
    returns, and at most once (stage 2 is never asked) when it raises. *)
Theorem process_job_llm_budget (w : world) :
  exists k,
    asked_times k w (fst (process w))
    /\ k <= 2
    /\ (forall paths, snd (process w) = Return paths -> 1 <= k)
    /\ (forall e, snd (process w) = Raise e -> k <= 1).
Proof.
  unfold process. rewrite process_job_stages.
  pose proof (build_client_world w) as Hw.
  destruct (build_client w) as [w0 [e|client]]; cbn [fst] in Hw; subst w0.
  { exists 0. split; [apply asked_times_refl |]. cbn [snd].
    split; [lia |]. split; [discriminate | lia]. }
  rewrite analyze_fit_core_stage.
  match goal with |- context [stage_run ?s ?v ?sp ?up ?d w] =>
    destruct (stage_run_asked s v sp up d w) as (k1 & H1 & Hk1 & Hr1);
    destruct (stage_run s v sp up d w) as [w1 [e|fit_core]] end.
  { exists k1. split; [exact H1 |]. cbn [snd]. split; [lia |]. split; [discriminate | lia]. }
  cbn [fst snd] in H1, Hr1. rewrite (Hr1 fit_core eq_refl) in H1.
  rewrite analyze_fit_suggestions_stage.
  match goal with |- context [stage_run ?s ?v ?sp ?up ?d w1] =>
    destruct (stage_run_asked s v sp up d w1) as (k2 & H2 & Hk2 & _);
    destruct (stage_run s v sp up d w1) as [w2 stage2] end.
  cbn [fst] in H2. cbn zeta. cbn [fst snd].
  exists (1 + k2). split; [| split; [lia | split; [lia | discriminate]]].
  pose proof (asked_times_trans 1 k2 w w1 w2 H1 H2) as H12.
  destruct stage2; exact H12.
Qed.

(** [run_job] returns, and the table it leaves is the one it found with
    the entry of its job set by the outcome of [process_job]. *)
Lemma run_job_table (w0 : world) :
  snd (run w0) = Return tt
  /\ job_table (fst (run w0))
     = <[job_id := match snd (process (running job_id w0)) with
                   | Return _ => job_done (paths_of app_root job_id)
                   | Raise e => job_error (exn_msg e)
                   end]> (job_table w0).
Proof.
  unfold run. rewrite run_job_outcome. fold process.
  pose proof (process_job_jobs app_root templates_dir job_id
                system_prompt_core user_template_core system_prompt_sugg user_template_sugg
                cv_txt job_txt job_title (running job_id w0)) as Hj.
  fold process in Hj. unfold same_jobs in Hj.
  destruct (process (running job_id w0)) as [w1 [e|paths]] eqn:Hp; cbn [fst snd] in *.
  - split; [reflexivity |]. rewrite save_text_input_world.
    cbn [set_status with_file write_text fst job_table].
    rewrite Hj. unfold running. cbn [set_status fst job_table].
    apply insert_insert_eq.
  - apply process_job_returns in Hp. subst paths.
    split; [reflexivity |].
    cbn [set_status fst job_table]. rewrite Hj. unfold running.
    cbn [set_status fst job_table]. apply insert_insert_eq.
Qed.

(** X: [run_job] never raises.  It replaces the entry of its own job and
    no other, and the entry it leaves is final: DONE with the two report
    paths, or ERROR with a message. *)
Theorem run_job_settles (w0 : world) :
  exists (w' : world) (r : JobRecord),
    run w0 = (w', Return tt)
    /\ job_table w' = <[job_id := r]> (job_table w0)
    /\ (r = job_done (paths_of app_root job_id) \/ exists msg, r = job_error msg).
Proof.
  destruct (run_job_table w0) as [Hret Htbl].
  exists (fst (run w0)). eexists. split; [| split; [exact Htbl |]].
  - rewrite <- Hret. by destruct (run w0).
  - destruct (snd (process (running job_id w0))) as [e|paths]; [right | left];
      [by exists (exn_msg e) | reflexivity].
Qed.

(** X: the files of a run.  [run_job] writes only the debug files under
    [jobs/<id>/llm], the two reports under [outputs/<id>] and
    [jobs/<id>/error.txt]; every other file, and the environment, is as
    before. *)
Theorem run_job_footprint (w0 : world) (p : pystr) :
  ~ job_outputs app_root job_id p -> p <> error_path_of app_root job_id ->
  files (fst (run w0)) !! p = files w0 !! p
  /\ environ (fst (run w0)) = environ w0.
Proof.
  intros Hp Herr. unfold run. rewrite run_job_outcome. fold process.
  pose proof (process_job_files (running job_id w0) p Hp) as Hf.
  pose proof (process_job_environ (running job_id w0)) as He.
  unfold same_environ in He.
  destruct (process (running job_id w0)) as [w1 [e|paths]]; cbn [fst] in Hf, He.
  - rewrite save_text_input_world.
    cbn [set_status with_file write_text fst files environ].
    split; [| exact He].
    rewrite lookup_insert_ne by (intros <-; by apply Herr). exact Hf.
  - cbn [set_status fst files environ]. by split.
Qed.

(** X: a failed run.  When [process_job] raises [e], [run_job] records
    ERROR with [str(e)] for the job, writes the same message to
    [jobs/<id>/error.txt], leaves the report files as they were and has
    asked the LLM at most once. *)
Theorem run_job_failure_recorded (w0 w1 : world) (e : exn)
    (Hfail : process (running job_id w0) = (w1, Raise e)) :
  exists w',
    run w0 = (w', Return tt)
    /\ job_table w' !! job_id = Some (job_error (exn_msg e))
    /\ files w' !! error_path_of app_root job_id = Some (exn_msg e)
    /\ files w' !! json_path_of app_root job_id = files w0 !! json_path_of app_root job_id
    /\ files w' !! html_path_of app_root job_id = files w0 !! html_path_of app_root job_id
    /\ length (llm_calls w') <= length (llm_calls w0) + 1.
Proof.
  unfold run. rewrite run_job_outcome. fold process. rewrite Hfail.
  eexists. split; [reflexivity |].
  rewrite save_text_input_world.
  cbn [set_status with_file write_text fst files job_table llm_calls or_empty].
  split; [by rewrite lookup_insert_eq |].
  split; [by rewrite lookup_insert_eq |].
  pose proof (process_job_stages app_root templates_dir job_id
                system_prompt_core user_template_core system_prompt_sugg user_template_sugg
                cv_txt job_txt job_title (running job_id w0)) as Hs.
  fold process in Hs. rewrite Hfail in Hs.
  pose proof (build_client_world (running job_id w0)) as Hw.
  destruct (build_client (running job_id w0)) as [wb [eb|client]]; cbn [fst] in Hw; subst wb.
  { injection Hs as -> _. cbn [running set_status fst files llm_calls].
    rewrite !lookup_insert_ne by (let H := fresh in intros H; paths_differ H).
    repeat split; lia. }
  rewrite analyze_fit_core_stage in Hs.
  assert (Hin : forall name, inside (llm_debug_dir_of app_root job_id)
                               (path_join (llm_debug_dir_of app_root job_id) name))
    by (intros name; by exists name).
  match type of Hs with context [stage_run ?s ?v ?sp ?up ?d ?w] =>
    pose proof (stage_run_files _ s v sp up d w Hin) as Hf;
    destruct (stage_run_asked s v sp up d w) as (k & (_ & Hk & _) & Hle & _);
    destruct (stage_run s v sp up d w) as [w1' [e1|fit_core]] end.
  2:{ destruct (analyze_fit_suggestions _ _ _ _ _ _ _ _). discriminate. }
  injection Hs as -> _. cbn [fst] in Hf, Hk.
  split; [| split].
  - rewrite lookup_insert_ne by (let H := fresh in intros H; paths_differ H).
    apply Hf. intros [name H]. paths_differ H.
  - rewrite lookup_insert_ne by (let H := fresh in intros H; paths_differ H).
    apply Hf. intros [name H]. paths_differ H.
  - rewrite Hk. cbn [running set_status fst llm_calls]. lia.
Qed.
End JobFacts.

(** A run whose only LLM reply is no JSON: the job ends in ERROR, the
    message is on disk, no report is written. *)
Lemma run_job_failure_recorded_witness :
  let w0 := demo_world [Return (lit "sorry")] in
  exists w',
    run_job (E := demo_externals) (F := float) (lit "r") (lit "t")
      (lit "sys1") (lit "usr1") (lit "sys2") (lit "usr2")
      (lit "j") (lit "cv") (lit "job") (lit "title") w0
    = (w', Return tt)
    /\ job_table w' !! lit "j" = Some (job_error (lit "No JSON object found in LLM output"))
    /\ files w' !! json_path_of (lit "r") (lit "j") = None.
Proof.
  intros w0.
  edestruct (run_job_failure_recorded (E := demo_externals) (F := float)
               (lit "r") (lit "t") (lit "j")
               (lit "sys1") (lit "usr1") (lit "sys2") (lit "usr2")
               (lit "cv") (lit "job") (lit "title") w0)
    as (w' & Hrun & Hjob & _ & Hjson & _).
  - vm_compute. reflexivity.
  - exists w'. split; [exact Hrun |]. split; [exact Hjob |].
    rewrite Hjson. reflexivity.
Defined.

(** A file of another job is not touched. *)
Lemma run_job_footprint_witness :
  let w0 := demo_world [Return demo_reply_core] in
  let other := json_path_of (lit "r") (lit "k") in
  files (fst (run_job (E := demo_externals) (F := float) (lit "r") (lit "t")
                (lit "sys1") (lit "usr1") (lit "sys2") (lit "usr2")
                (lit "j") (lit "cv") (lit "job") (lit "title") w0)) !! other
  = files w0 !! other.
Proof.
  intros w0 other.
  apply (run_job_footprint (E := demo_externals) (F := float)
           (lit "r") (lit "t") (lit "j")
           (lit "sys1") (lit "usr1") (lit "sys2") (lit "usr2")
           (lit "cv") (lit "job") (lit "title") w0 other).
  - intros [[name H] | [H | H]]; vm_compute in H; discriminate.
  - intros H. vm_compute in H. discriminate.
Defined.

(** ** The routes *)

Lemma done_has_paths_insert (tbl : gmap pystr JobRecord) (id : pystr) (r : JobRecord) :
  done_has_paths tbl ->
  (js_status r = lit "DONE" ->
   (exists p, extra_item r (lit "html_path") = Return p)
   /\ (exists p, extra_item r (lit "json_path") = Return p)) ->
  done_has_paths (<[id := r]> tbl).
Proof.
  intros Htbl Hr id' r' Hlook. destruct (decide (id = id')) as [<- | Hne].
  - rewrite lookup_insert_eq in Hlook. by injection Hlook as <-.
  - rewrite lookup_insert_ne in Hlook by done. by apply (Htbl id').
Qed.

Lemma file_route_total (w : world) (id : pystr) :
  done_has_paths (job_table w) ->
  (exists r, page_report id w = (w, Return r))
  /\ (exists r, download_json id w = (w, Return r))
  /\ (exists r, download_html id w = (w, Return r)).
Proof.
  intros Hinv. unfold page_report, download_json, download_html, JOB_STATUS_get.
  rewrite !bind_unfold.
  destruct (job_table w !! id) as [data|] eqn:Hd; [| by repeat split; eexists].
  destruct (decide (js_status data = lit "DONE")) as [Hs | Hs].
  - destruct (Hinv id data Hd Hs) as ([ph Hh] & [pj Hj]).
    rewrite !bool_decide_eq_false_2 by (intros H; by apply H).
    rewrite !bind_unfold. unfold lift. rewrite Hh, Hj. by repeat split; eexists.
  - rewrite !bool_decide_eq_true_2 by done. by repeat split; eexists.
Qed.

(** X: the routes on a job that is not in JOB_STATUS.  [api_status]
    answers 404 with status NOT_FOUND, [page_report] redirects to the upload
    page, both downloads redirect to the wait page of the job, and
    [page_error] shows the default message.  None of them changes the
    world. *)
Theorem routes_unknown_job (w : world) (job_id : pystr)
    (Hnew : job_table w !! job_id = None) :
  api_status job_id w
  = (w, Return (JSONResponse {| js_status := lit "NOT_FOUND"; js_error := None;
                                js_extra := [] |} 404))
  /\ page_report job_id w = (w, Return (RedirectResponse (lit "/") 303))
  /\ download_json job_id w = (w, Return (RedirectResponse (lit "/wait/" ++ job_id) 303))
  /\ download_html job_id w = (w, Return (RedirectResponse (lit "/wait/" ++ job_id) 303))
  /\ page_error job_id w
     = (w, Return (TemplateResponse (lit "error.html")
                     [(lit "job_id", job_id); (lit "error", default_error_message)])).
Proof.
  unfold api_status, page_report, download_json, download_html, page_error, JOB_STATUS_get.
  rewrite !bind_unfold, Hnew. by repeat split.
Qed.

Lemma routes_unknown_job_witness :
  api_status (lit "nobody") (demo_world [])
  = (demo_world [],
     Return (JSONResponse {| js_status := lit "NOT_FOUND"; js_error := None;
                             js_extra := [] |} 404)).
Proof.
  apply (routes_unknown_job (demo_world []) (lit "nobody")). reflexivity.
Defined.

Section RouteFacts.
Context `{E : Externals} {F : Type} `{AF : Arith F}.
Variables app_root templates_dir job_id : pystr.
Variables system_prompt_core user_template_core : pystr.
Variables system_prompt_sugg user_template_sugg : pystr.
Variables cv_txt job_txt job_title : pystr.

Let process := process_job app_root templates_dir job_id
                 system_prompt_core user_template_core system_prompt_sugg user_template_sugg
                 cv_txt job_txt job_title.
Let run := run_job app_root templates_dir
             system_prompt_core user_template_core system_prompt_sugg user_template_sugg
             job_id cv_txt job_txt job_title.

(** X: the file routes cannot fail on a key.  If every DONE entry of
    JOB_STATUS carries [html_path] and [json_path], then so does every DONE
    entry after [run_job], and [page_report], [download_json] and
    [download_html] return a response for every job id, known or not,
    without changing anything. *)
Theorem run_job_keeps_routes_total (w0 : world)
    (Hinv : done_has_paths (job_table w0)) :
  let w' := fst (run w0) in
  done_has_paths (job_table w')
  /\ forall id,
       (exists r, page_report id w' = (w', Return r))
       /\ (exists r, download_json id w' = (w', Return r))
       /\ (exists r, download_html id w' = (w', Return r)).
Proof.
  intros w'. assert (Hinv' : done_has_paths (job_table w')).
  { subst w' run.
    destruct (run_job_table app_root templates_dir job_id
                system_prompt_core user_template_core system_prompt_sugg user_template_sugg
                cv_txt job_txt job_title w0) as [_ Htbl].
    rewrite Htbl. apply done_has_paths_insert; [exact Hinv |].
    destruct (snd (process_job _ _ _ _ _ _ _ _ _ _ _)) as [e|paths].
    - intros H. vm_compute in H. discriminate.
    - intros _. unfold paths_of. rewrite extra_item_html_path, extra_item_json_path.
      split; by eexists. }
  split; [exact Hinv' |]. intros id. by apply file_route_total.
Qed.

(** X: a run that succeeds, seen through the routes.  When [process_job]
    returns, [api_status] reports DONE with both paths (status code 200),
    [page_report] serves [outputs/<id>/report.html] as text/html,
    [download_json] and [download_html] serve the two reports under their
    download names, and both files exist. *)
Theorem finished_job_is_served (w0 w1 : world) (paths : list (pystr * pystr))
    (Hok : process (running job_id w0) = (w1, Return paths)) :
  let w' := fst (run w0) in
  let json_path := json_path_of app_root job_id in
  let html_path := html_path_of app_root job_id in
  api_status job_id w'
  = (w', Return (JSONResponse (job_done [(lit "json_path", json_path);
                                         (lit "html_path", html_path)]) 200))
  /\ page_report job_id w' = (w', Return (FileResponse html_path (lit "text/html") None))
  /\ download_json job_id w'
     = (w', Return (FileResponse json_path (lit "application/json")
                      (Some (lit "fit_report.json"))))
  /\ download_html job_id w'
     = (w', Return (FileResponse html_path (lit "text/html") (Some (lit "report.html"))))
  /\ is_Some (files w' !! json_path)
  /\ is_Some (files w' !! html_path).
Proof.
  intros w' json_path html_path.
  pose proof (process_job_returns _ _ _ _ _ _ _ _ _ _ _ _ _ Hok) as ->.
  assert (Hw' : w' = fst (set_status job_id (lit "DONE") None (paths_of app_root job_id) w1)).
  { subst w' run. rewrite run_job_outcome. fold process. by rewrite Hok. }
  assert (Hjob : job_table w' !! job_id = Some (job_done (paths_of app_root job_id))).
  { rewrite Hw'. cbn [set_status fst job_table]. by rewrite lookup_insert_eq. }
  unfold api_status, page_report, download_json, download_html, JOB_STATUS_get.
  rewrite !bind_unfold, Hjob.
  rewrite !bool_decide_eq_false_2 by (intros H; by apply H).
  rewrite !bind_unfold. unfold lift, paths_of.
  rewrite extra_item_html_path, extra_item_json_path.
  do 4 (split; [reflexivity |]).
  rewrite Hw'. cbn [set_status fst files].
  pose proof (process_job_stages app_root templates_dir job_id
                system_prompt_core user_template_core system_prompt_sugg user_template_sugg
                cv_txt job_txt job_title (running job_id w0)) as Hs.
  fold process in Hs. rewrite Hok in Hs.
  destruct (build_client _) as [wb [e|client]]; [discriminate |].
  destruct (analyze_fit_core _ _ _ _ _ _ wb) as [wc [e|fit_core]]; [discriminate |].
  destruct (analyze_fit_suggestions _ _ _ _ _ _ _ wc) as [wd stage2].
  cbn zeta in Hs. injection Hs as ->. cbn [write_text fst files].
  split.
  - rewrite lookup_insert_ne by (symmetry; apply json_html_paths_differ).
    rewrite lookup_insert_eq. by eexists.
  - rewrite lookup_insert_eq. by eexists.
Qed.

(** X: a run that fails, seen through the routes.  When [process_job]
    raises [e], [api_status] reports ERROR with [str(e)] (still with status
    code 200), the report and both downloads redirect to the wait page, and
    [page_error] shows [str(e)], or the default message when [str(e)] is
    empty. *)
Theorem failed_job_is_reported (w0 w1 : world) (e : exn)
    (Hfail : process (running job_id w0) = (w1, Raise e)) :
  let w' := fst (run w0) in
  let wait := RedirectResponse (lit "/wait/" ++ job_id) 303 in
  api_status job_id w' = (w', Return (JSONResponse (job_error (exn_msg e)) 200))
  /\ page_report job_id w' = (w', Return wait)
  /\ download_json job_id w' = (w', Return wait)
  /\ download_html job_id w' = (w', Return wait)
  /\ page_error job_id w'
     = (w', Return (TemplateResponse (lit "error.html")
                      [(lit "job_id", job_id);
                       (lit "error",
                        if decide (exn_msg e = []) then default_error_message
                        else exn_msg e)])).
Proof.
  intros w' wait.
  destruct (run_job_table app_root templates_dir job_id
              system_prompt_core user_template_core system_prompt_sugg user_template_sugg
              cv_txt job_txt job_title w0) as [_ Htbl].
  fold process run in Htbl. rewrite Hfail in Htbl. cbn [snd] in Htbl.
  assert (Hjob : job_table w' !! job_id = Some (job_error (exn_msg e))).
  { subst w'. rewrite Htbl. apply lookup_insert_eq. }
  unfold api_status, page_report, download_json, download_html, page_error, JOB_STATUS_get.
  rewrite !bind_unfold, Hjob.
  rewrite !bool_decide_eq_true_2 by (cbn [job_error js_status]; intros H; vm_compute in H; discriminate).
  do 4 (split; [reflexivity |]).
  cbn [mbind option_bind job_error js_error]. by destruct (exn_msg e).
Qed.
End RouteFacts.

Lemma run_job_keeps_routes_total_witness :
  let w' := fst (run_job (E := demo_externals) (F := float) (lit "r") (lit "t")
                   (lit "sys1") (lit "usr1") (lit "sys2") (lit "usr2")
                   (lit "j") (lit "cv") (lit "job") (lit "title")
                   (demo_world [Return demo_reply_core])) in
  exists r, page_report (lit "j") w' = (w', Return r).
Proof.
  intros w'.
  refine (proj1 (proj2 (run_job_keeps_routes_total (E := demo_externals) (F := float)
                          (lit "r") (lit "t") (lit "j")
                          (lit "sys1") (lit "usr1") (lit "sys2") (lit "usr2")
                          (lit "cv") (lit "job") (lit "title")
                          (demo_world [Return demo_reply_core]) _) (lit "j"))).
  intros id r H. cbn [demo_world job_table] in H. rewrite lookup_empty in H. discriminate.
Defined.

(** Both stages answer: the report route serves the report of the job. *)
Lemma finished_job_is_served_witness :
  let w' := fst (run_job (E := demo_externals) (F := float) (lit "r") (lit "t")
                   (lit "sys1") (lit "usr1") (lit "sys2") (lit "usr2")
                   (lit "j") (lit "cv") (lit "job") (lit "title")
                   (demo_world [Return demo_reply_core; Return demo_reply_sugg])) in
  page_report (lit "j") w'
  = (w', Return (FileResponse (html_path_of (lit "r") (lit "j")) (lit "text/html") None)).
Proof.
  intros w'.
  edestruct (finished_job_is_served (E := demo_externals) (F := float)
               (lit "r") (lit "t") (lit "j")
               (lit "sys1") (lit "usr1") (lit "sys2") (lit "usr2")
               (lit "cv") (lit "job") (lit "title")
               (demo_world [Return demo_reply_core; Return demo_reply_sugg]))
    as (_ & Hreport & _).
  - vm_compute. reflexivity.
  - exact Hreport.
Defined.

(** The LLM client fails: the job is reported in ERROR with its message. *)
Lemma failed_job_is_reported_witness :
  let w' := fst (run_job (E := demo_externals) (F := float) (lit "r") (lit "t")
                   (lit "sys1") (lit "usr1") (lit "sys2") (lit "usr2")
                   (lit "j") (lit "cv") (lit "job") (lit "title")
                   (demo_world [Raise (Exn LibraryError (lit "timeout"))])) in
  api_status (lit "j") w' = (w', Return (JSONResponse (job_error (lit "timeout")) 200)).
Proof.
  intros w'.
  edestruct (failed_job_is_reported (E := demo_externals) (F := float)
               (lit "r") (lit "t") (lit "j")
               (lit "sys1") (lit "usr1") (lit "sys2") (lit "usr2")
               (lit "cv") (lit "job") (lit "title")
               (demo_world [Raise (Exn LibraryError (lit "timeout"))]))
    as (Hstatus & _).
  - vm_compute. reflexivity.
  - exact Hstatus.
Defined.

(** ** The LLM client *)






(** ** The score at its extremes, and what the decision makes of it *)

Lemma section_sum_bounds (w : Q) (l : list MatchItem) :
  (0 <= w)%Q ->
  (0 <= section_sum w l)%Q /\ (section_sum w l <= inject_Z (Z.of_nat (length l)) * w)%Q.
Proof.
  intros Hw. induction l as [|it l [IHlo IHhi]].
  - change (section_sum w []) with 0%Q. change (inject_Z (Z.of_nat (length (@nil MatchItem)))) with 0%Q.
    split; lra.
  - change (section_sum w (it :: l)) with (contribution w it + section_sum w l)%Q.
    cbn [length]. rewrite Nat2Z.inj_succ, <- Z.add_1_r, inject_Z_plus.
    change (inject_Z 1) with 1%Q.
    unfold contribution, Qdiv. change (/ 2)%Q with (1 # 2)%Q.
    destruct (status it); split; lra.
Qed.

Lemma section_sum_all_match (w : Q) (l : list MatchItem) :
  Forall (has_status Match) l ->
  (section_sum w l == inject_Z (Z.of_nat (length l)) * w)%Q.
Proof.
  induction 1 as [|it l Hit _ IH].
  - change (section_sum w []) with 0%Q. change (inject_Z (Z.of_nat (length (@nil MatchItem)))) with 0%Q.
    lra.
  - change (section_sum w (it :: l)) with (contribution w it + section_sum w l)%Q.
    cbn [length]. rewrite Nat2Z.inj_succ, <- Z.add_1_r, inject_Z_plus.
    change (inject_Z 1) with 1%Q. unfold contribution. rewrite Hit, IH. lra.
Qed.

Lemma whole_of_parts (total : Q) (n : nat) :
  0 < n -> (inject_Z (Z.of_nat n) * (total / inject_Z (Z.of_nat n)) == total)%Q.
Proof.
  intros Hn. apply Qmult_div_r. change 0%Q with (inject_Z 0). rewrite inject_Z_injective. lia.
Qed.

Lemma section_reference_bounds (l : list MatchItem) (total : Q) :
  (0 <= total)%Q -> (0 <= section_reference l total)%Q /\ (section_reference l total <= total)%Q.
Proof.
  intros Ht. destruct l as [|it l]; [by split |].
  rewrite section_reference_nonempty by done.
  pose proof (section_sum_bounds _ (it :: l) (item_weight_nonneg total (length (it :: l)) Ht))
    as [Hlo Hhi].
  rewrite whole_of_parts in Hhi by (simpl; lia). by split.
Qed.

Lemma section_reference_all_match (l : list MatchItem) (total : Q) :
  l <> [] -> Forall (has_status Match) l -> (section_reference l total == total)%Q.
Proof.
  intros Hne Hall. rewrite section_reference_nonempty by done.
  rewrite section_sum_all_match by done. apply whole_of_parts.
  destruct l; [done | simpl; lia].
Qed.

Lemma nearest_integer_le (q : Q) (r b : Z) :
  nearest_integer q r -> (q <= inject_Z b)%Q -> (r <= b)%Z.
Proof.
  intros [Hlo _] Hq. apply Z.lt_succ_r. rewrite <- Z.add_1_r, Zlt_Qlt, inject_Z_plus.
  change (inject_Z 1) with 1%Q. lra.
Qed.

Lemma nearest_integer_ge (q : Q) (r b : Z) :
  nearest_integer q r -> (inject_Z b <= q)%Q -> (b <= r)%Z.
Proof.
  intros [_ Hhi] Hq. apply Z.lt_succ_r. rewrite <- Z.add_1_r, Zlt_Qlt, inject_Z_plus.
  change (inject_Z 1) with 1%Q. lra.
Qed.

Lemma score_reference_bounds (must nice : list MatchItem) :
  (0 <= score_reference must nice)%Q /\ (score_reference must nice <= 100)%Q.
Proof.
  unfold score_reference.
  pose proof (section_reference_bounds must 70 ltac:(lra)) as [? ?].
  pose proof (section_reference_bounds nice 30 ltac:(lra)) as [? ?]. split; lra.
Qed.

(** In exact arithmetic too the score is a nearest integer of the sum: the
    clamp never has to act. *)
Lemma compute_fit_score_exact_nearest (must nice : list MatchItem) :
  nearest_integer (score_reference must nice)
    (compute_fit_score (F := Q) must nice must_total_default nice_total_default).
Proof.
  rewrite compute_fit_score_reference.
  change (section_reference must must_total_default + section_reference nice nice_total_default)%Q
    with (score_reference must nice).
  pose proof (round_half_even_nearest (score_reference must nice)) as Hn.
  pose proof (score_reference_bounds must nice) as [Hlo Hhi].
  pose proof (nearest_integer_le _ _ 100 Hn Hhi).
  pose proof (nearest_integer_ge _ _ 0 Hn Hlo).
  unfold clamp_0_100. by rewrite Z.min_r, Z.max_r by lia.
Qed.

(** What follows for any integer nearest to the sum. *)
Lemma nearest_score_extremes (must nice : list MatchItem) (r : Z) :
  nearest_integer (score_reference must nice) r ->
  (nice = [] -> r <= 70)%Z
  /\ (must = [] -> r <= 30)%Z
  /\ (must <> [] -> Forall (has_status Match) must -> 70 <= r)%Z
  /\ (must <> [] -> nice <> [] ->
      Forall (has_status Match) must -> Forall (has_status Match) nice -> r = 100%Z).
Proof.
  intros Hn. unfold score_reference in Hn.
  pose proof (section_reference_bounds must 70 ltac:(lra)) as [Hm0 Hm1].
  pose proof (section_reference_bounds nice 30 ltac:(lra)) as [Hn0 Hn1].
  split; [| split; [| split]].
  - intros ->. apply (nearest_integer_le _ _ 70 Hn). simpl section_reference.
    change (inject_Z 70) with 70%Q. lra.
  - intros ->. apply (nearest_integer_le _ _ 30 Hn). simpl section_reference.
    change (inject_Z 30) with 30%Q. lra.
  - intros Hne Hall. apply (nearest_integer_ge _ _ 70 Hn).
    pose proof (section_reference_all_match must 70 Hne Hall) as E1.
    change (inject_Z 70) with 70%Q. lra.
  - intros Hm Hnn Hallm Halln.
    pose proof (section_reference_all_match must 70 Hm Hallm) as E1.
    pose proof (section_reference_all_match nice 30 Hnn Halln) as E2.
    assert (r <= 100)%Z by (apply (nearest_integer_le _ _ 100 Hn); change (inject_Z 100) with 100%Q; lra).
    assert (100 <= r)%Z by (apply (nearest_integer_ge _ _ 100 Hn); change (inject_Z 100) with 100%Q; lra).
    lia.
Qed.

Lemma score_section_all_missing {F : Type} `{AF : Arith F} (l : list MatchItem) (total : F) :
  Forall (has_status Missing) l -> score_section l total = of_int 0.
Proof.
  intros Hall. unfold score_section. destruct l as [|it l]; [reflexivity |].
  generalize (f_div total (of_int (Z.of_nat (length (it :: l))))). intros w.
  generalize (of_int (F := F) 0). induction Hall as [|x l' Hx _ IH]; intros acc.
  - reflexivity.
  - cbn [fold_left]. rewrite Hx. apply IH.
Qed.

(** The code of a decision tells the band of the score. *)
Lemma decide_ui_code_score (report : FitReport) :
  (d_code (decide_ui report) = lit "YES" -> 75 <= fit_score report)%Z
  /\ (d_code (decide_ui report) = lit "NO" <-> fit_score report < 55)%Z.
Proof.
  unfold decide_ui.
  destruct (75 <=? fit_score report)%Z eqn:E75;
    destruct (55 <=? fit_score report)%Z eqn:E55;
    try apply Z.leb_le in E75; try apply Z.leb_gt in E75;
    try apply Z.leb_le in E55; try apply Z.leb_gt in E55;
    repeat match goal with |- context [if ?b then _ else _] => destruct b end;
    cbn [d_code]; (split; [| split]); intros H; try lia; try reflexivity;
    vm_compute in H; discriminate.
Qed.

(** X: the score and the decision when a list is empty or fully matched,
    for the report [process_job] writes.  With no nice-to-have item the
    score is at most 70 and the decision is never YES; with no must-have
    item it is at most 30 and the decision is NO; when every item of a
    non-empty must-have list matches it is at least 70 and the decision is
    never NO; when both lists are non-empty and every item matches it is
    100.  In exact arithmetic for all lists, in binary64 for lists of at most
    15 items. *)
Theorem empty_and_full_sections (fit_core : FitCore) (stage2 : result FitSuggestions) :
  let must := core_must_have_match fit_core in
  let nice := core_nice_to_have_match fit_core in
  let full (l : list MatchItem) := l <> [] /\ Forall (has_status Match) l in
  let claim (report : FitReport) :=
    (nice = [] ->
       (fit_score report <= 70)%Z /\ d_code (decide_ui report) <> lit "YES")
    /\ (must = [] ->
          (fit_score report <= 30)%Z /\ d_code (decide_ui report) = lit "NO")
    /\ (full must ->
          (70 <= fit_score report)%Z /\ d_code (decide_ui report) <> lit "NO")
    /\ (full must -> full nice -> fit_score report = 100%Z) in
  claim (report_of (F := Q) fit_core stage2)
  /\ (length must <= 15 -> length nice <= 15 -> claim (report_of (F := float) fit_core stage2)).
Proof.
  intros must nice full claim.
  assert (Hgen : forall report : FitReport,
             nearest_integer (score_reference must nice) (fit_score report) -> claim report).
  { intros report Hn.
    destruct (nearest_score_extremes must nice _ Hn) as (H70 & H30 & Hfull & H100).
    destruct (decide_ui_code_score report) as [Hyes Hno].
    unfold claim. split; [| split; [| split]].
    - intros Hnice. specialize (H70 Hnice). split; [exact H70 |].
      intros Hc. specialize (Hyes Hc). lia.
    - intros Hmust. specialize (H30 Hmust). split; [exact H30 |]. apply Hno. lia.
    - intros [Hne Hall]. specialize (Hfull Hne Hall). split; [exact Hfull |].
      intros Hc. apply Hno in Hc. lia.
    - intros [Hm Hallm] [Hnn Halln]. by apply H100. }
  split.
  - apply Hgen. apply compute_fit_score_exact_nearest.
  - intros Hm Hn. apply Hgen. by apply compute_fit_score_binary64_nearest.
Qed.

(** X: nothing matched.  When every item of both lists is missing the
    score is 0, in exact arithmetic and in binary64, whatever the lengths
    of the lists. *)
Theorem all_missing_scores_zero (must nice : list MatchItem)
    (Hmust : Forall (has_status Missing) must)
    (Hnice : Forall (has_status Missing) nice) :
  compute_fit_score (F := Q) must nice must_total_default nice_total_default = 0%Z
  /\ compute_fit_score (F := float) must nice must_total_default nice_total_default = 0%Z.
Proof.
  unfold compute_fit_score.
  rewrite !(score_section_all_missing must) by done.
  rewrite !(score_section_all_missing nice) by done.
  split; vm_compute; reflexivity.
Qed.

Lemma all_missing_scores_zero_witness :
  compute_fit_score (F := float) [item Missing; item Missing] [item Missing]
    must_total_default nice_total_default = 0%Z.
Proof.
  refine (proj2 (all_missing_scores_zero [item Missing; item Missing] [item Missing] _ _));
    repeat constructor.
Defined.

Lemma nearest_integer_close (q : Q) (r r' : Z) :
  nearest_integer q r -> nearest_integer q r' -> (Z.abs (r - r') <= 1)%Z.
Proof.
  intros [Hlo Hhi] [Hlo' Hhi'].
  assert (r <= r' + 1)%Z.
  { rewrite Zle_Qle, inject_Z_plus. change (inject_Z 1) with 1%Q. lra. }
  assert (r' <= r + 1)%Z.
  { rewrite Zle_Qle, inject_Z_plus. change (inject_Z 1) with 1%Q. lra. }
  lia.
Qed.

Lemma section_sum_Permutation (w : Q) (l l' : list MatchItem) :
  l ≡ₚ l' -> (section_sum w l == section_sum w l')%Q.
Proof.
  induction 1 as [|x l l' _ IH|x y l|l l' l'' _ IH1 _ IH2].
  - reflexivity.
  - change (contribution w x + section_sum w l == contribution w x + section_sum w l')%Q.
    by rewrite IH.
  - change (contribution w y + (contribution w x + section_sum w l)
            == contribution w x + (contribution w y + section_sum w l))%Q. lra.
  - by rewrite IH1.
Qed.

Lemma section_reference_Permutation (total : Q) (l l' : list MatchItem) :
  l ≡ₚ l' -> (section_reference l total == section_reference l' total)%Q.
Proof.
  intros Hp. destruct l as [|it l].
  - apply Permutation_nil in Hp. by subst.
  - destruct l' as [|it' l']; [by apply Permutation_sym, Permutation_nil in Hp |].
    rewrite !section_reference_nonempty by done.
    rewrite (Permutation_length Hp). by apply section_sum_Permutation.
Qed.

(** X: the order of the items.  In exact arithmetic the score does not
    depend on the order of the items of a list.  In binary64, which is what
    runs, it does: reordering the items of lists of at most 15 items moves
    the score by at most one point, and there are lists where it moves. *)
Theorem score_under_reordering :
  (forall must must' nice nice' : list MatchItem,
      must ≡ₚ must' -> nice ≡ₚ nice' ->
      compute_fit_score (F := Q) must nice must_total_default nice_total_default
      = compute_fit_score (F := Q) must' nice' must_total_default nice_total_default
      /\ (length must <= 15 -> length nice <= 15 ->
          (Z.abs (compute_fit_score (F := float) must nice must_total_default
                    nice_total_default
                  - compute_fit_score (F := float) must' nice' must_total_default
                      nice_total_default) <= 1)%Z))
  /\ exists must must' nice : list MatchItem,
       must ≡ₚ must'
       /\ compute_fit_score (F := float) must nice must_total_default nice_total_default
          <> compute_fit_score (F := float) must' nice must_total_default nice_total_default.
Proof.
  split.
  - intros must must' nice nice' Hm Hn.
    assert (Hs : (score_reference must nice == score_reference must' nice')%Q).
    { unfold score_reference.
      by rewrite (section_reference_Permutation 70 _ _ Hm),
                 (section_reference_Permutation 30 _ _ Hn). }
    split.
    + rewrite !compute_fit_score_reference. f_equal. apply round_half_even_comp.
      exact Hs.
    + intros Hlm Hln.
      pose proof (compute_fit_score_binary64_nearest must nice Hlm Hln) as H1.
      assert (Hlm' : length must' <= checked_length) by (by rewrite <- (Permutation_length Hm)).
      assert (Hln' : length nice' <= checked_length) by (by rewrite <- (Permutation_length Hn)).
      pose proof (compute_fit_score_binary64_nearest must' nice' Hlm' Hln') as H1'.
      apply (nearest_integer_comp _ (score_reference must nice)) in H1'; [| by symmetry].
      exact (nearest_integer_close _ _ _ H1 H1').
  - exists tie_must, [item Match; item Match; item Match; item Match; item Partial; item Missing],
      tie_nice.
    split; [| vm_compute; discriminate].
    unfold tie_must. do 2 apply perm_skip.
    exact (Permutation_middle [item Match; item Match] [item Missing] (item Partial)).
Qed.

(** ** [html_escape] as an encoding *)

(** A character [html_escape] leaves alone. *)
Lemma escape_char_which (c : char) :
  (escape_char c = [c] /\ ~ markup_char c /\ c <> amp)
  \/ (c = amp /\ escape_char c = ent_amp)
  \/ (c = 60%N /\ escape_char c = ent_lt)
  \/ (c = 62%N /\ escape_char c = ent_gt)
  \/ (c = dquote /\ escape_char c = ent_quot)
  \/ (c = squote /\ escape_char c = ent_apos).
Proof.
  unfold escape_char, markup_char.
  destruct (N.eqb_spec c amp); [tauto |].
  destruct (N.eqb_spec c 60); [tauto |].
  destruct (N.eqb_spec c 62); [tauto |].
  destruct (N.eqb_spec c dquote); [tauto |].
  destruct (N.eqb_spec c squote); [tauto |].
  left. split; [reflexivity |]. tauto.
Qed.

Lemma escape_char_length (c : char) : 1 <= length (escape_char c).
Proof.
  destruct (escape_char_which c)
    as [(-> & _)|[(_ & ->)|[(_ & ->)|[(_ & ->)|[(_ & ->)|(_ & ->)]]]]]; simpl; lia.
Qed.

Lemma escaped_length (s : pystr) : length s <= length (flat_map escape_char s).
Proof.
  induction s as [|c s IH]; [reflexivity |].
  cbn [flat_map length]. rewrite length_app. pose proof (escape_char_length c). lia.
Qed.

(** The escaped form of a character can be read back off the front of a
    text: the six forms are prefix-free. *)
Lemma escape_char_head (c d : char) (r r' : pystr) :
  escape_char c ++ r = escape_char d ++ r' -> c = d /\ r = r'.
Proof.
  intros H.
  destruct (escape_char_which c)
    as [(Ec & Hc & Hca)|[(-> & Ec)|[(-> & Ec)|[(-> & Ec)|[(-> & Ec)|(-> & Ec)]]]]];
    destruct (escape_char_which d)
      as [(Ed & Hd & Hda)|[(-> & Ed)|[(-> & Ed)|[(-> & Ed)|[(-> & Ed)|(-> & Ed)]]]]];
    rewrite ?Ec, ?Ed in H; vm_compute in H;
    try discriminate;
    try (injection H as <-; by split);
    try (injection H as -> _; exfalso; by apply Hca);
    try (injection H as <- _; exfalso; by apply Hda).
Qed.

Lemma escaped_injective (s t : pystr) :
  flat_map escape_char s = flat_map escape_char t -> s = t.
Proof.
  revert t. induction s as [|c s IH]; intros [|d t] H.
  - reflexivity.
  - cbn [flat_map] in H. pose proof (escape_char_length d).
    destruct (escape_char d); [simpl in *; lia | discriminate].
  - cbn [flat_map] in H. pose proof (escape_char_length c).
    destruct (escape_char c); [simpl in *; lia | discriminate].
  - cbn [flat_map] in H. apply escape_char_head in H as [-> H]. by rewrite (IH t H).
Qed.

Lemma escaped_fixed (s : pystr) :
  flat_map escape_char s = s <-> Forall (fun c => ~ markup_char c /\ c <> amp) s.
Proof.
  split.
  - induction s as [|c s IH]; [constructor |]. cbn [flat_map]. intros H.
    pose proof (escaped_length s) as Hl. revert H IH Hl.
    generalize (flat_map escape_char s). intros rest H IH Hl.
    destruct (escape_char_which c)
      as [(Ec & Hc & Hca)|[(-> & Ec)|[(-> & Ec)|[(-> & Ec)|[(-> & Ec)|(-> & Ec)]]]]];
      rewrite Ec in H; vm_compute in H; try discriminate.
    + injection H as H. constructor; [by split | by apply IH].
    + injection H as H. apply (f_equal length) in H. simpl in H.
      exfalso. clear IH Ec. unfold char in *. lia.
  - induction 1 as [|c s [Hc Hca] _ IH]; [reflexivity |]. cbn [flat_map].
    destruct (escape_char_which c)
      as [(Ec & _)|[(-> & _)|[(-> & _)|[(-> & _)|[(-> & _)|(-> & _)]]]]];
      try (exfalso; apply Hc; unfold markup_char; tauto); try done.
    rewrite Ec, IH. reflexivity.
Qed.

(** X: [html_escape] loses nothing.  Two texts with the same escaped form
    are the same text ([None] counting as the empty text); the escaped form
    of a concatenation is the concatenation of the escaped forms; it is never
    shorter than the text; it is the text itself exactly when the text has
    none of the five characters, and only then does escaping a second time
    change nothing. *)
Theorem html_escape_faithful :
  (forall a b : option pystr, html_escape a = html_escape b -> or_empty a = or_empty b)
  /\ (forall s t : pystr,
        html_escape (Some (s ++ t)) = html_escape (Some s) ++ html_escape (Some t))
  /\ (forall s : pystr, length s <= length (html_escape (Some s)))
  /\ (forall s : pystr,
        html_escape (Some s) = s <-> Forall (fun c => ~ markup_char c /\ c <> amp) s)
  /\ (forall s : pystr,
        html_escape (Some (html_escape (Some s))) = html_escape (Some s)
        <-> html_escape (Some s) = s).
Proof.
  split; [| split; [| split; [| split]]].
  - intros a b. rewrite !html_escape_single_pass. apply escaped_injective.
  - intros s t. rewrite !html_escape_single_pass. cbn [or_empty]. apply flat_map_app.
  - intros s. rewrite html_escape_single_pass. apply escaped_length.
  - intros s. rewrite html_escape_single_pass. apply escaped_fixed.
  - intros s. rewrite !html_escape_single_pass. cbn [or_empty]. split.
    + apply escaped_injective.
    + intros H. by rewrite !H.
Qed.

(** ** The quick view of the report *)

Lemma take_nil_iff {A} (n : nat) (l : list A) : 0 < n -> take n l = [] <-> l = [].
Proof. intros Hn. destruct n; [lia |]. by destruct l. Qed.

Lemma no_match_no_partial (l : list MatchItem) :
  map requirement (filter (has_status Match) l)
  ++ map requirement (filter (has_status Partial) l) = []
  <-> Forall (has_status Missing) l.
Proof.
  induction l as [|m l IH].
  - split; [constructor | reflexivity].
  - rewrite !filter_cons.
    destruct (decide (has_status Match m)) as [Hm | Hm].
    { split; [discriminate | intros H; inversion H; unfold has_status in *; congruence]. }
    destruct (decide (has_status Partial m)) as [Hp | Hp].
    { split.
      - intros H. apply app_eq_nil in H as [_ H]. discriminate.
      - intros H; inversion H; unfold has_status in *; congruence. }
    rewrite IH. split; [| intros H; by inversion H].
    intros H. constructor; [| exact H]. unfold has_status in *.
    by destruct (status m).
Qed.

(** X: the strengths of the quick view.  At most three are shown; each is
    the requirement of an item that matches or partially matches, never of
    a missing one; matches come first, so a partial match is shown only
    when fewer than three items match; and none is shown exactly when every
    item of both lists is missing.  The blockers are at most three too. *)
Theorem quick_view_strengths (report : FitReport) :
  let items := must_have_match report ++ nice_to_have_match report in
  let matched := map requirement (filter (has_status Match) items) in
  let shown := strengths_of report in
  length shown <= 3
  /\ (forall x, x ∈ shown ->
        exists m, m ∈ items /\ requirement m = x /\ status m <> Missing)
  /\ (3 <= length matched -> shown = take 3 matched)
  /\ (length matched <= 3 -> take (length matched) shown = matched)
  /\ (shown = [] <-> Forall (has_status Missing) items)
  /\ length (blockers_of report) <= 3.
Proof.
  intros items matched shown. subst shown. unfold strengths_of. fold items. fold matched.
  split; [rewrite length_take; lia |].
  split.
  { intros x Hx. apply subseteq_take in Hx. apply elem_of_app in Hx as [Hx | Hx];
      apply list_elem_of_In, in_map_iff in Hx as (m & <- & Hm);
      apply list_elem_of_In, list_elem_of_filter in Hm as [Hst Hin];
      exists m; unfold has_status in Hst; (split; [exact Hin |]);
      (split; [reflexivity | congruence]). }
  split; [intros H3; by apply take_app_le |].
  split.
  { intros H3. rewrite take_take, Nat.min_l by exact H3. apply take_app_length. }
  split.
  { rewrite take_nil_iff by lia. apply no_match_no_partial. }
  unfold blockers_of.
  destruct (take 3 (map gap _)) eqn:Hb.
  - rewrite length_take. lia.
  - rewrite <- Hb, length_take. lia.
Qed.

(** X: the colour of the score bar against the decision.  In the values
    [render_report_html] substitutes, a red bar goes with NO only, a NO
    never has a green bar, and a YES has a green bar unless the score is
    exactly 75, where the bar is yellow; the bar is green exactly above
    75. *)
Theorem score_bar_against_decision `{E : Externals}
    (report : FitReport) (json_path job_title : pystr) :
  let values := render_values report json_path job_title in
  let code := d_code (decide_ui report) in
  let bar := score_bar_class_of (Z.max 0 (Z.min 100 (fit_score report))) in
  (lit "score_bar_class", bar) ∈ values
  /\ (lit "decision_code", code) ∈ values
  /\ (bar = lit "bar-red" -> code = lit "NO")
  /\ (code = lit "NO" -> bar <> lit "bar-green")
  /\ (code = lit "YES" ->
        bar = lit "bar-green" \/ (fit_score report = 75%Z /\ bar = lit "bar-yellow"))
  /\ (bar = lit "bar-green" <-> (75 < fit_score report)%Z).
Proof.
  intros values code bar.
  split; [by apply (list_elem_of_lookup_2 _ 12) |].
  split.
  { apply (list_elem_of_lookup_2 _ 4). subst values code. unfold render_values.
    cbn [lookup list_lookup]. f_equal. f_equal. unfold decide_ui.
    repeat match goal with |- context [if ?b then _ else _] => destruct b end;
      vm_compute; reflexivity. }
  destruct (decide_ui_code_score report) as [Hyes Hno]. fold code in Hyes, Hno.
  assert (Hbar : (fit_score report <= 50 /\ bar = lit "bar-red")%Z
                 \/ (50 < fit_score report <= 75 /\ bar = lit "bar-yellow")%Z
                 \/ (75 < fit_score report /\ bar = lit "bar-green")%Z).
  { subst bar. unfold score_bar_class_of.
    destruct (Z.leb_spec (Z.max 0 (Z.min 100 (fit_score report))) 50);
      [left; split; [lia | reflexivity] |].
    destruct (Z.leb_spec (Z.max 0 (Z.min 100 (fit_score report))) 75);
      [right; left; split; [lia | reflexivity] | right; right; split; [lia | reflexivity]]. }
  assert (Hry : lit "bar-red" <> lit "bar-yellow") by (vm_compute; discriminate).
  assert (Hrg : lit "bar-red" <> lit "bar-green") by (vm_compute; discriminate).
  assert (Hyg : lit "bar-yellow" <> lit "bar-green") by (vm_compute; discriminate).
  destruct Hbar as [[Hs ->] | [[Hs ->] | [Hs ->]]].
  - split; [intros _; apply Hno; lia |]. split; [done |].
    split; [intros Hc; specialize (Hyes Hc); lia |]. split; [done | lia].
  - split; [by intros H; symmetry in H |]. split; [done |].
    split; [intros Hc; specialize (Hyes Hc); right; split; [lia | reflexivity] |].
    split; [done | lia].
  - split; [by intros H; symmetry in H |].
    split; [intros Hc; apply Hno in Hc; lia |].
    split; [intros _; by left |]. split; [done | reflexivity].
Qed.

(** ** What [extract_json_safely] hands to the parser *)

Lemma drop_trailing_commas_length (b : bool) (s : pystr) :
  length (drop_trailing_commas b s) <= length s.
Proof.
  revert b. induction s as [|c s IH]; intros b; [reflexivity |].
  cbn [drop_trailing_commas].
  destruct (N.eqb 44 c && spaces_then is_closer s)%bool; [specialize (IH true); simpl; lia |].
  destruct (b && is_space c)%bool; [specialize (IH true); simpl; lia |].
  specialize (IH false). simpl. lia.
Qed.

Lemma drop_trailing_commas_elem (b : bool) (s : pystr) (x : char) :
  x ∈ drop_trailing_commas b s -> x ∈ s.
Proof.
  revert b. induction s as [|c s IH]; intros b; [done |].
  cbn [drop_trailing_commas].
  destruct (N.eqb 44 c && spaces_then is_closer s)%bool;
    [intros H; right; by apply (IH true) |].
  destruct (b && is_space c)%bool; [intros H; right; by apply (IH true) |].
  rewrite !elem_of_cons. intros [-> | H]; [by left | right; by apply (IH false)].
Qed.

Lemma drop_trailing_commas_last (b : bool) (l : pystr) :
  last (drop_trailing_commas b (l ++ [125%N])) = Some 125%N.
Proof.
  revert b. induction l as [|c l IH]; intros b.
  - by destruct b.
  - cbn [app drop_trailing_commas].
    destruct (N.eqb 44 c && spaces_then is_closer (l ++ [125%N]))%bool; [apply IH |].
    destruct (b && is_space c)%bool; [apply IH |].
    specialize (IH false). destruct (drop_trailing_commas false (l ++ [125%N])); [done |].
    exact IH.
Qed.

(** A text is left as it is exactly when it has no trailing comma. *)
Lemma drop_trailing_commas_fixed (s : pystr) :
  has_trailing_comma s = false -> drop_trailing_commas false s = s.
Proof.
  induction s as [|c s IH]; [reflexivity |]. cbn [has_trailing_comma drop_trailing_commas].
  intros H. apply orb_false_elim in H as [Hc Hs]. rewrite Hc. cbn [andb].
  by rewrite IH.
Qed.

Lemma drop_trailing_commas_shrinks (b : bool) (s : pystr) :
  has_trailing_comma s = true -> length (drop_trailing_commas b s) < length s.
Proof.
  revert b. induction s as [|c s IH]; intros b; [done |].
  cbn [has_trailing_comma drop_trailing_commas]. intros H.
  destruct (N.eqb 44 c && spaces_then is_closer s)%bool.
  - pose proof (drop_trailing_commas_length true s). simpl. lia.
  - cbn [orb] in H. destruct (b && is_space c)%bool.
    + specialize (IH true H). simpl. lia.
    + specialize (IH false H). simpl. lia.
Qed.

Lemma nl_to_space_fixed (s : pystr) :
  map nl_to_space s = s <-> Forall (fun c => ~ line_break c) s.
Proof.
  unfold line_break. induction s as [|c s IH]; [by split; [constructor |] |].
  cbn [map]. split.
  - intros [= Hc Hs]. constructor; [| by apply IH].
    unfold nl_to_space in Hc.
    destruct (N.eqb_spec c 13) as [-> | H13]; [discriminate |].
    destruct (N.eqb_spec c 10) as [-> | H10]; [discriminate |]. tauto.
  - intros H. inversion H as [|? ? Hc Hs]; subst. f_equal; [| by apply IH].
    unfold nl_to_space.
    destruct (N.eqb_spec c 13) as [-> | H13]; [tauto |].
    destruct (N.eqb_spec c 10) as [-> | H10]; [tauto |]. reflexivity.
Qed.

Lemma nl_to_space_no_break (s : pystr) : Forall (fun c => ~ line_break c) (map nl_to_space s).
Proof.
  apply Forall_forall. intros x Hx. apply list_elem_of_In, in_map_iff in Hx as (c & <- & _).
  unfold nl_to_space, line_break.
  destruct (N.eqb_spec c 13) as [-> | H13]; [intros [H | H]; discriminate |].
  destruct (N.eqb_spec c 10) as [-> | H10]; [intros [H | H]; discriminate |].
  cbn [orb]. tauto.
Qed.

Lemma brace_span_length (s span : pystr) : brace_span s = Some span -> length span <= length s.
Proof.
  unfold brace_span.
  destruct (find_index (N.eqb 123) s) as [i|]; [| done].
  destruct (last_index (N.eqb 125) (drop (S i) s)) as [k|]; [| done].
  intros [= <-]. rewrite length_take, length_drop. lia.
Qed.

(** A text that begins with an opening brace and ends with a closing one is
    its own brace span. *)
Lemma brace_span_whole (mid : pystr) :
  brace_span (123%N :: mid ++ [125%N]) = Some (123%N :: mid ++ [125%N]).
Proof.
  unfold brace_span. cbn [find_index N.eqb Pos.eqb drop].
  assert (Hl : last_index (N.eqb 125) (mid ++ [125%N]) = Some (length mid)).
  { induction mid as [|c mid IH]; [reflexivity |]. cbn [app last_index length]. by rewrite IH. }
  rewrite drop_0, Hl. f_equal. rewrite firstn_all2; [reflexivity |].
  cbn [length]. rewrite length_app. simpl. lia.
Qed.

Lemma braces_around (s : pystr) :
  head s = Some 123%N -> last s = Some 125%N -> 2 <= length s ->
  exists mid, s = 123%N :: mid ++ [125%N].
Proof.
  intros Hh Hl Hlen. destruct s as [|c s]; [done |]. injection Hh as ->.
  destruct s as [|d s] using rev_ind; [simpl in Hlen; lia |].
  exists s. f_equal. f_equal.
  change (123%N :: s ++ [d]) with ((123%N :: s) ++ [d]) in Hl.
  rewrite last_snoc in Hl. by injection Hl as ->.
Qed.

Lemma repaired_shape (mid : pystr) :
  let s := drop_trailing_commas false (map nl_to_space (123%N :: mid ++ [125%N])) in
  head s = Some 123%N /\ last s = Some 125%N
  /\ Forall (fun c => ~ line_break c) s
  /\ 2 <= length s /\ length s <= length mid + 2.
Proof.
  intros s.
  assert (E : s = 123%N :: drop_trailing_commas false (map nl_to_space mid ++ [125%N])).
  { subst s. cbn [map]. rewrite map_app. reflexivity. }
  pose proof (drop_trailing_commas_last false (map nl_to_space mid)) as Hlast.
  pose proof (drop_trailing_commas_length false (map nl_to_space mid ++ [125%N])) as Hd.
  rewrite length_app, length_map in Hd. simpl in Hd.
  assert (Hsub : forall x,
             x ∈ drop_trailing_commas false (map nl_to_space mid ++ [125%N]) ->
             ~ line_break x).
  { intros x Hx. apply drop_trailing_commas_elem in Hx.
    pose proof (nl_to_space_no_break (mid ++ [125%N])) as Hnb.
    rewrite Forall_forall in Hnb. apply Hnb. by rewrite map_app. }
  clearbody s. subst s.
  destruct (drop_trailing_commas false (map nl_to_space mid ++ [125%N])) as [|c out];
    [done |].
  split; [reflexivity |]. split; [exact Hlast |].
  split.
  { constructor; [intros [H | H]; discriminate |]. apply Forall_forall, Hsub. }
  simpl in *. lia.
Qed.

(** X: the text [extract_json_safely] returns.  It begins with an opening
    brace and ends with a closing brace, holds no carriage return and no
    newline, and is not longer than the input.  The input comes back
    unchanged exactly when it is already such a text without a trailing
    comma.  One pass is all there is: a result can still hold a trailing
    comma, and extracting again then gives another text. *)
Theorem extract_json_safely_result :
  (forall text s : pystr,
      extract_json_safely text = Return s ->
      head s = Some 123%N /\ last s = Some 125%N
      /\ Forall (fun c => ~ line_break c) s
      /\ 2 <= length s <= length text)
  /\ (forall text : pystr, extract_json_safely text = Return text <-> tidy_object text)
  /\ exists text s s' : pystr,
       extract_json_safely text = Return s
       /\ has_trailing_comma s = true
       /\ extract_json_safely s = Return s' /\ s' <> s.
Proof.
  split; [| split].
  - intros text s. rewrite extract_json_safely_reference. unfold extract_with.
    destruct text as [|c0 text0]; [discriminate |]. set (text := c0 :: text0).
    destruct (brace_span text) as [span|] eqn:Hspan; [| discriminate].
    intros [= <-].
    pose proof (brace_span_length _ _ Hspan) as Hlen.
    apply brace_span_shape in Hspan as [mid ->].
    pose proof (repaired_shape mid) as (H1 & H2 & H3 & H4 & H5).
    split; [exact H1 |]. split; [exact H2 |]. split; [exact H3 |]. split; [exact H4 |].
    etransitivity; [exact H5 |]. etransitivity; [| exact Hlen].
    cbn [length]. rewrite length_app. simpl. unfold char. lia.
  - intros text. rewrite extract_json_safely_reference. unfold extract_with, tidy_object. split.
    + destruct text as [|c0 text0]; [discriminate |]. set (text := c0 :: text0).
      destruct (brace_span text) as [span|] eqn:Hspan; [| discriminate].
      intros [= Heq].
      pose proof (brace_span_length _ _ Hspan) as Hlen.
      pose proof (drop_trailing_commas_length false (map nl_to_space span)) as Hd.
      rewrite Heq, length_map in Hd.
      assert (Hfix : has_trailing_comma (map nl_to_space span) = false).
      { destruct (has_trailing_comma (map nl_to_space span)) eqn:Hc; [| reflexivity].
        pose proof (drop_trailing_commas_shrinks false _ Hc) as Hlt.
        rewrite Heq, length_map in Hlt. lia. }
      rewrite (drop_trailing_commas_fixed _ Hfix) in Heq.
      pose proof (brace_span_shape _ _ Hspan) as [mid Hmid].
      assert (Hspan_eq : span = text).
      { revert Hspan Hlen Hd. unfold brace_span.
        destruct (find_index (N.eqb 123) text) as [i|]; [| done].
        destruct (last_index (N.eqb 125) (drop (S i) text)) as [k|]; [| done].
        intros [= <-]. rewrite length_take, length_drop. intros _ Hge.
        assert (Hpos : 0 < length text) by (subst text; simpl; lia).
        assert (i = 0) as -> by lia. rewrite drop_0. apply firstn_all2. lia. }
      rewrite Hspan_eq in Heq, Hmid. rewrite Hspan_eq in Hfix. rewrite Heq in Hfix.
      apply nl_to_space_fixed in Heq.
      rewrite Hmid. split; [reflexivity |]. split.
      { change (123%N :: mid ++ [125%N]) with ((123%N :: mid) ++ [125%N]). apply last_snoc. }
      split; [cbn [length]; rewrite length_app; simpl; lia |].
      rewrite <- Hmid. by split.
    + intros (Hh & Hl & Hlen & Hnb & Hfix).
      destruct (braces_around text Hh Hl Hlen) as [mid ->].
      rewrite brace_span_whole.
      apply nl_to_space_fixed in Hnb. f_equal.
      etransitivity; [| exact (drop_trailing_commas_fixed _ Hfix)]. f_equal. exact Hnb.
  - exists (lit "{,,}"), (lit "{,}"), (lit "{}").
    repeat split; try (vm_compute; reflexivity). vm_compute. discriminate.
Qed.

(** ** [sanitize_whitespace] *)

(** *** Line ends *)

Lemma replace_absent_head (old new s : pystr) (c : char) :
  head old = Some c -> c ∉ s -> replace old new s = s.
Proof.
  intros Hold Hs. unfold replace. induction s as [|x s IH]; [reflexivity |].
  cbn [replace_from].
  assert (Hx : starts_with old (x :: s) = false).
  { destruct old as [|a old]; [done |]. injection Hold as ->. cbn [starts_with].
    destruct (N.eqb_spec c x) as [-> | _]; [| reflexivity].
    exfalso. apply Hs. by left. }
  rewrite Hx. f_equal. apply IH. intros H. apply Hs. by right.
Qed.

Lemma replace_char_elem (c : char) (new s : pystr) (x : char) :
  x ∈ replace [c] new s -> x ∈ new \/ (x ∈ s /\ x <> c).
Proof.
  rewrite replace_char. induction s as [|y s IH]; [by intros H; apply elem_of_nil in H |].
  cbn [flat_map]. rewrite elem_of_app. intros [H | H].
  - unfold replace_one in H. destruct (N.eqb_spec c y) as [-> | Hne]; [by left |].
    apply list_elem_of_singleton in H as ->. right. split; [by left | done].
  - destruct (IH H) as [? | [? ?]]; [by left | right; split; [by right | done]].
Qed.

Lemma line_ends_no_cr (s : pystr) :
  13%N ∉ replace [13%N] [10%N] (replace [13%N; 10%N] [10%N] s).
Proof.
  intros H. apply replace_char_elem in H as [H | [_ H]]; [| done].
  apply list_elem_of_singleton in H. discriminate.
Qed.

Lemma line_ends_fixed (s : pystr) :
  13%N ∉ s -> replace [13%N] [10%N] (replace [13%N; 10%N] [10%N] s) = s.
Proof.
  intros H. rewrite (replace_absent_head [13%N; 10%N] _ s 13%N) by done.
  by apply (replace_absent_head [13%N] _ s 13%N).
Qed.

(** *** Blanks before a newline *)

Lemma blank_not_newline (c : char) : is_blank c = true -> is_newline c = false.
Proof.
  unfold is_blank, is_newline. intros H. apply orb_prop in H as [H | H];
    apply N.eqb_eq in H; by subst c.
Qed.

(** A pattern [q{lo,} r] whose class [r] excludes the repeated class [q]. *)
Lemma match_many_one (q r : char -> bool) (lo : nat) (s : pystr) :
  (forall x, q x = true -> r x = false) ->
  match_here [Many q lo; One r] s
  = if lo <=? span_len q s
    then match drop (span_len q s) s with
         | d :: _ => if r d then Some [take (span_len q s) s; [d]] else None
         | [] => None
         end
    else None.
Proof.
  intros Hqr. cbn [match_here]. rewrite backtrack_exact.
  - destruct (lo <=? span_len q s); [| reflexivity].
    destruct (drop (span_len q s) s) as [|d t]; [reflexivity |].
    cbn [match_here]. destruct (r d); reflexivity.
  - intros j Hj. destruct (span_len_drop_lt q s j Hj) as (x & t & -> & Hx).
    cbn [match_here]. by rewrite (Hqr x Hx).
Qed.

(** The first character after the leading blanks decides whether they go. *)
Lemma strip_eol_blanks_head (s : pystr) :
  head (strip_eol_blanks s) = Some 10%N
  <-> head (drop (span_len is_blank s) s) = Some 10%N.
Proof.
  induction s as [|c s IH]; [reflexivity |].
  change (strip_eol_blanks (c :: s)) with (keep_unless_blank_eol c (strip_eol_blanks s)).
  unfold keep_unless_blank_eol. destruct (is_blank c) eqn:Hc.
  - rewrite (span_len_cons_true _ _ _ Hc). cbn [drop andb].
    destruct (bool_decide_reflect (head (strip_eol_blanks s) = Some 10%N)) as [Hh | Hh].
    + rewrite <- IH. tauto.
    + cbn [head]. rewrite <- IH. split; [| tauto].
      intros [= ->]. discriminate.
  - rewrite (span_len_cons_false _ _ _ Hc). cbn [drop andb head]. reflexivity.
Qed.

Lemma strip_eol_blanks_run (s : pystr) :
  head (drop (span_len is_blank s) s) = Some 10%N ->
  strip_eol_blanks s = strip_eol_blanks (drop (span_len is_blank s) s).
Proof.
  induction s as [|c s IH]; [reflexivity |]. intros Hh.
  destruct (is_blank c) eqn:Hc.
  - rewrite (span_len_cons_true _ _ _ Hc) in *. cbn [drop] in *.
    change (strip_eol_blanks (c :: s)) with (keep_unless_blank_eol c (strip_eol_blanks s)).
    unfold keep_unless_blank_eol. rewrite Hc. cbn [andb].
    rewrite bool_decide_eq_true_2 by (by apply strip_eol_blanks_head). by apply IH.
  - by rewrite (span_len_cons_false _ _ _ Hc).
Qed.

Lemma re_sub_blank_eol (s : pystr) :
  re_sub re_blank_eol (fun _ => [10%N]) s = strip_eol_blanks s.
Proof.
  remember (length s) as n eqn:Hn. revert s Hn.
  induction n as [n IH] using lt_wf_ind. intros s Hn.
  destruct s as [|c s]; [reflexivity |].
  rewrite re_sub_step. unfold re_blank_eol at 1.
  rewrite match_many_one by apply blank_not_newline.
  assert (Hstep : c :: re_sub re_blank_eol (fun _ => [10%N]) s
                  = c :: strip_eol_blanks s).
  { f_equal. apply (IH (length s)); [simpl in Hn; lia | reflexivity]. }
  destruct (is_blank c) eqn:Hc.
  - rewrite (span_len_cons_true _ _ _ Hc). cbn [Nat.leb drop].
    set (m := span_len is_blank s).
    assert (Hm : m <= length s) by apply span_len_le.
    destruct (drop m s) as [|d t] eqn:Hd.
    + rewrite Hstep.
      change (strip_eol_blanks (c :: s)) with (keep_unless_blank_eol c (strip_eol_blanks s)).
      unfold keep_unless_blank_eol.
      rewrite bool_decide_eq_false_2; [by rewrite andb_false_r |].
      rewrite strip_eol_blanks_head. fold m. by rewrite Hd.
    + destruct (is_newline d) eqn:Hnl.
      * apply N.eqb_eq in Hnl. subst d.
        cbn [concat]. rewrite app_nil_r, length_app, length_take. cbn [length].
        replace (S m `min` S (length s) + 1) with (S (S m)) by lia.
        rewrite (strip_eol_blanks_run (c :: s));
          rewrite (span_len_cons_true _ _ _ Hc); fold m; cbn [drop]; rewrite Hd;
          [| reflexivity].
        change (strip_eol_blanks (10%N :: t)) with (10%N :: strip_eol_blanks t).
        cbn [app]. f_equal.
        replace (drop (S m) s) with t.
        -- apply (IH (length t)); [| reflexivity].
           apply (f_equal length) in Hd. rewrite length_drop in Hd. simpl in *. lia.
        -- rewrite <- Nat.add_1_r, <- drop_drop, Hd. reflexivity.
      * rewrite Hstep.
        change (strip_eol_blanks (c :: s)) with (keep_unless_blank_eol c (strip_eol_blanks s)).
        unfold keep_unless_blank_eol.
        rewrite bool_decide_eq_false_2; [by rewrite andb_false_r |].
        rewrite strip_eol_blanks_head. fold m. rewrite Hd. cbn [head].
        intros [= ->]. discriminate.
  - rewrite (span_len_cons_false _ _ _ Hc). cbn [Nat.leb]. rewrite Hstep.
    change (strip_eol_blanks (c :: s)) with (keep_unless_blank_eol c (strip_eol_blanks s)).
    unfold keep_unless_blank_eol. by rewrite Hc.
Qed.

Lemma strip_eol_blanks_clean (s : pystr) : blank_eol (strip_eol_blanks s) = false.
Proof.
  induction s as [|c s IH]; [reflexivity |].
  change (strip_eol_blanks (c :: s)) with (keep_unless_blank_eol c (strip_eol_blanks s)).
  unfold keep_unless_blank_eol.
  destruct (is_blank c && bool_decide (head (strip_eol_blanks s) = Some 10%N))%bool eqn:Hb;
    [exact IH |].
  cbn [blank_eol]. by rewrite Hb, IH.
Qed.

Lemma strip_eol_blanks_fixed (s : pystr) : blank_eol s = false -> strip_eol_blanks s = s.
Proof.
  induction s as [|c s IH]; [reflexivity |]. cbn [blank_eol]. intros H.
  apply orb_false_elim in H as [Hc Hs].
  change (strip_eol_blanks (c :: s)) with (keep_unless_blank_eol c (strip_eol_blanks s)).
  unfold keep_unless_blank_eol. rewrite (IH Hs). by rewrite Hc.
Qed.

Lemma strip_eol_blanks_elem (s : pystr) (x : char) : x ∈ strip_eol_blanks s -> x ∈ s.
Proof.
  induction s as [|c s IH]; [done |].
  change (strip_eol_blanks (c :: s)) with (keep_unless_blank_eol c (strip_eol_blanks s)).
  unfold keep_unless_blank_eol.
  destruct (is_blank c && _)%bool; [intros H; right; by apply IH |].
  rewrite !elem_of_cons. intros [-> | H]; [by left | right; by apply IH].
Qed.

(** *** Runs of newlines *)

Lemma squeeze_newlines_short (k : nat) (s : pystr) :
  span_len is_newline s + k <= 2 -> squeeze_newlines k s = squeeze_newlines 0 s.
Proof.
  revert k. induction s as [|c s IH]; intros k Hk; [reflexivity |].
  cbn [squeeze_newlines]. destruct (is_newline c) eqn:Hc; [| reflexivity].
  rewrite (span_len_cons_true _ _ _ Hc) in Hk.
  destruct (Nat.ltb_spec k 2); [| lia]. cbn [Nat.ltb Nat.leb]. f_equal.
  rewrite (IH (S k)) by lia. symmetry. apply IH. lia.
Qed.

Lemma squeeze_newlines_full (s : pystr) :
  squeeze_newlines 2 s = squeeze_newlines 0 (drop (span_len is_newline s) s).
Proof.
  induction s as [|c s IH]; [reflexivity |].
  cbn [squeeze_newlines]. destruct (is_newline c) eqn:Hc.
  - rewrite (span_len_cons_true _ _ _ Hc). cbn [Nat.ltb Nat.leb drop]. exact IH.
  - rewrite (span_len_cons_false _ _ _ Hc). cbn [drop squeeze_newlines]. by rewrite Hc.
Qed.

Lemma re_sub_newlines (s : pystr) :
  re_sub re_newlines (fun _ => [10%N; 10%N]) s = squeeze_newlines 0 s.
Proof.
  remember (length s) as n eqn:Hn. revert s Hn.
  induction n as [n IH] using lt_wf_ind. intros s Hn.
  destruct s as [|c s]; [reflexivity |].
  rewrite re_sub_step. unfold re_newlines at 1. rewrite match_many.
  assert (Hstep : c :: re_sub re_newlines (fun _ => [10%N; 10%N]) s
                  = c :: squeeze_newlines 0 s).
  { f_equal. apply (IH (length s)); [simpl in Hn; lia | reflexivity]. }
  destruct (is_newline c) eqn:Hc.
  - rewrite (span_len_cons_true _ _ _ Hc).
    set (m := span_len is_newline s).
    assert (Hm : m <= length s) by apply span_len_le.
    destruct (Nat.leb_spec 3 (S m)) as [H3 | H3].
    + cbn [concat]. rewrite app_nil_r, length_take. cbn [length].
      replace (S m `min` S (length s)) with (S m) by lia.
      pose proof Hc as Hc'. apply N.eqb_eq in Hc'. subst c.
      destruct s as [|d s]; [simpl in m; lia |].
      destruct (is_newline d) eqn:Hd; [| subst m; rewrite (span_len_cons_false _ _ _ Hd) in H3; lia].
      pose proof Hd as Hd'. apply N.eqb_eq in Hd'. subst d.
      change (squeeze_newlines 0 (10%N :: 10%N :: s))
        with (10%N :: 10%N :: squeeze_newlines 2 s).
      cbn [app]. do 2 f_equal.
      rewrite squeeze_newlines_full.
      assert (Hms : m = S (span_len is_newline s)).
      { subst m. by rewrite (span_len_cons_true _ _ _ Hd). }
      rewrite Hms. cbn [drop].
      apply (IH (length (drop (span_len is_newline s) s))); [| reflexivity].
      rewrite length_drop. simpl in *. lia.
    + rewrite Hstep. cbn [squeeze_newlines]. rewrite Hc. cbn [Nat.ltb Nat.leb]. f_equal.
      symmetry. apply squeeze_newlines_short. fold m. lia.
  - rewrite (span_len_cons_false _ _ _ Hc). cbn [Nat.leb]. rewrite Hstep.
    cbn [squeeze_newlines]. by rewrite Hc.
Qed.

Lemma squeeze_newlines_clean (k : nat) (s : pystr) :
  k <= 2 ->
  triple_newline (squeeze_newlines k s) = false
  /\ span_len is_newline (squeeze_newlines k s) + k <= 2.
Proof.
  revert k. induction s as [|c s IH]; intros k Hk; [split; [reflexivity | simpl; lia] |].
  cbn [squeeze_newlines]. destruct (is_newline c) eqn:Hc.
  - destruct (Nat.ltb_spec k 2) as [Hlt | Hge].
    + destruct (IH (S k) ltac:(lia)) as [IH1 IH2]. cbn [triple_newline].
      rewrite (span_len_cons_true _ _ _ Hc), IH1.
      split; [| lia]. rewrite orb_false_r. apply Nat.leb_gt. lia.
    + apply IH. lia.
  - destruct (IH 0 ltac:(lia)) as [IH1 IH2]. cbn [triple_newline].
    rewrite (span_len_cons_false _ _ _ Hc), IH1. split; [reflexivity | lia].
Qed.

Lemma squeeze_newlines_fixed (s : pystr) :
  triple_newline s = false -> squeeze_newlines 0 s = s.
Proof.
  induction s as [|c s IH]; [reflexivity |]. cbn [triple_newline]. intros H.
  apply orb_false_elim in H as [Hrun Hs]. apply Nat.leb_gt in Hrun.
  cbn [squeeze_newlines]. destruct (is_newline c) eqn:Hc.
  - rewrite (span_len_cons_true _ _ _ Hc) in Hrun. cbn [Nat.ltb Nat.leb]. f_equal.
    rewrite squeeze_newlines_short by lia. by apply IH.
  - f_equal. by apply IH.
Qed.

Lemma squeeze_newlines_elem (k : nat) (s : pystr) (x : char) :
  x ∈ squeeze_newlines k s -> x ∈ s.
Proof.
  revert k. induction s as [|c s IH]; intros k; [done |].
  cbn [squeeze_newlines]. destruct (is_newline c).
  - destruct (k <? 2).
    + rewrite !elem_of_cons. intros [-> | H]; [by left | right; by apply (IH (S k))].
    + intros H. right. by apply (IH k).
  - rewrite !elem_of_cons. intros [-> | H]; [by left | right; by apply (IH 0)].
Qed.

Lemma squeeze_newlines_head (k : nat) (s : pystr) :
  head (squeeze_newlines k s) = Some 10%N -> head s = Some 10%N.
Proof.
  destruct s as [|c s]; [done |]. cbn [squeeze_newlines].
  destruct (is_newline c) eqn:Hc.
  - intros _. apply N.eqb_eq in Hc. by subst c.
  - done.
Qed.

Lemma squeeze_newlines_blank_eol (k : nat) (s : pystr) :
  blank_eol s = false -> blank_eol (squeeze_newlines k s) = false.
Proof.
  revert k. induction s as [|c s IH]; intros k; [done |]. cbn [blank_eol]. intros H.
  apply orb_false_elim in H as [Hc Hs]. cbn [squeeze_newlines].
  assert (Hkeep : forall k', blank_eol (c :: squeeze_newlines k' s) = false).
  { intros k'. cbn [blank_eol]. rewrite (IH k' Hs), orb_false_r.
    destruct (is_blank c); [| reflexivity]. cbn [andb] in *.
    apply bool_decide_eq_false in Hc. apply bool_decide_eq_false.
    intros Hh. by apply Hc, (squeeze_newlines_head k'). }
  destruct (is_newline c); [destruct (k <? 2) |]; [apply Hkeep | by apply IH | apply Hkeep].
Qed.

(** *** The ends *)

Lemma rstrip_take (s : pystr) : rstrip s = take (length s - span_len is_space (rev s)) s.
Proof.
  unfold rstrip, lstrip. rewrite skipn_rev, rev_involutive. reflexivity.
Qed.

Lemma strip_part (s : pystr) : exists n m, strip s = take m (drop n s).
Proof. unfold strip. rewrite rstrip_take. unfold lstrip. by eexists _, _. Qed.

Lemma strip_elem (s : pystr) (x : char) : x ∈ strip s -> x ∈ s.
Proof.
  destruct (strip_part s) as (n & m & ->). intros H.
  apply subseteq_take in H. by apply subseteq_drop in H.
Qed.

Lemma blank_eol_drop (n : nat) (s : pystr) : blank_eol s = false -> blank_eol (drop n s) = false.
Proof.
  revert n. induction s as [|c s IH]; intros n H; [by rewrite drop_nil |].
  destruct n as [|n]; [exact H |]. cbn [blank_eol] in H.
  apply orb_false_elim in H as [_ H]. by apply IH.
Qed.

Lemma head_take {A} (n : nat) (s : list A) (x : A) : head (take n s) = Some x -> head s = Some x.
Proof. destruct n, s; done. Qed.

Lemma blank_eol_take (n : nat) (s : pystr) : blank_eol s = false -> blank_eol (take n s) = false.
Proof.
  revert n. induction s as [|c s IH]; intros n H; [by rewrite take_nil |].
  destruct n as [|n]; [reflexivity |]. cbn [blank_eol] in H.
  apply orb_false_elim in H as [Hc H]. cbn [take blank_eol]. rewrite (IH n H), orb_false_r.
  destruct (is_blank c); [| reflexivity]. cbn [andb] in *.
  apply bool_decide_eq_false in Hc. apply bool_decide_eq_false.
  intros Hh. by apply Hc, (head_take n).
Qed.

Lemma span_len_take (p : char -> bool) (n : nat) (s : pystr) :
  span_len p (take n s) <= span_len p s.
Proof.
  revert n. induction s as [|c s IH]; intros n; [by rewrite take_nil |].
  destruct n as [|n]; [simpl; lia |]. cbn [take span_len].
  destruct (p c); [specialize (IH n); lia | lia].
Qed.

Lemma triple_newline_drop (n : nat) (s : pystr) :
  triple_newline s = false -> triple_newline (drop n s) = false.
Proof.
  revert n. induction s as [|c s IH]; intros n H; [by rewrite drop_nil |].
  destruct n as [|n]; [exact H |]. cbn [triple_newline] in H.
  apply orb_false_elim in H as [_ H]. by apply IH.
Qed.

Lemma triple_newline_take (n : nat) (s : pystr) :
  triple_newline s = false -> triple_newline (take n s) = false.
Proof.
  revert n. induction s as [|c s IH]; intros n H; [by rewrite take_nil |].
  destruct n as [|n]; [reflexivity |]. cbn [triple_newline] in H.
  apply orb_false_elim in H as [Hc H]. apply Nat.leb_gt in Hc.
  change (take (S n) (c :: s)) with (c :: take n s). cbn [triple_newline].
  rewrite (IH n H), orb_false_r. apply Nat.leb_gt.
  pose proof (span_len_take is_newline (S n) (c :: s)) as Hle.
  change (take (S n) (c :: s)) with (c :: take n s) in Hle. lia.
Qed.

Lemma strip_fixed (s : pystr) : trimmed s -> strip s = s.
Proof.
  intros [Hh Hl]. unfold strip.
  assert (Hls : lstrip s = s).
  { destruct s as [|c s]; [reflexivity |]. apply lstrip_cons_nonspace. by apply Hh. }
  rewrite Hls. destruct s as [|c s] using rev_ind; [reflexivity |].
  apply rstrip_snoc_nonspace. apply Hl. by rewrite last_snoc.
Qed.

(** What each stage of [sanitize_whitespace] computes. *)
Lemma sanitize_whitespace_stages (text : option pystr) :
  sanitize_whitespace text
  = strip (squeeze_newlines 0
             (strip_eol_blanks
                (replace [13%N] [10%N] (replace [13%N; 10%N] [10%N] (or_empty text))))).
Proof. unfold sanitize_whitespace. by rewrite re_sub_blank_eol, re_sub_newlines. Qed.

Lemma sanitize_whitespace_clean (text : option pystr) : clean_text (sanitize_whitespace text).
Proof.
  rewrite sanitize_whitespace_stages.
  set (s1 := replace [13%N] [10%N] (replace [13%N; 10%N] [10%N] (or_empty text))).
  split; [| split; [| split]].
  - intros H. apply strip_elem, squeeze_newlines_elem, strip_eol_blanks_elem in H.
    by apply line_ends_no_cr in H.
  - destruct (strip_part (squeeze_newlines 0 (strip_eol_blanks s1))) as (n & m & ->).
    apply blank_eol_take, blank_eol_drop, squeeze_newlines_blank_eol, strip_eol_blanks_clean.
  - destruct (strip_part (squeeze_newlines 0 (strip_eol_blanks s1))) as (n & m & ->).
    apply triple_newline_take, triple_newline_drop.
    by apply (squeeze_newlines_clean 0); lia.
  - apply strip_trimmed.
Qed.

Lemma sanitize_whitespace_fixed (s : pystr) : clean_text s -> sanitize_whitespace (Some s) = s.
Proof.
  intros (Hcr & Hb & Ht & Htr). rewrite sanitize_whitespace_stages. cbn [or_empty].
  rewrite (line_ends_fixed s Hcr), (strip_eol_blanks_fixed s Hb),
    (squeeze_newlines_fixed s Ht). by apply strip_fixed.
Qed.

(** X: the normal form of [sanitize_whitespace].  Its result has no
    carriage return, no space or tab right before a newline, never three
    newlines in a row and no whitespace at either end.  A text comes back
    unchanged exactly when it is already so, and sanitizing twice is
    sanitizing once; text extracted from the pages of a PDF is sanitized
    text. *)
Theorem sanitize_whitespace_normal_form :
  (forall text : option pystr, clean_text (sanitize_whitespace text))
  /\ (forall s : pystr, sanitize_whitespace (Some s) = s <-> clean_text s)
  /\ (forall text : option pystr,
        sanitize_whitespace (Some (sanitize_whitespace text)) = sanitize_whitespace text)
  /\ sanitize_whitespace None = []
  /\ (forall pages : list (option pystr), clean_text (pdf_pages_to_text pages)).
Proof.
  split; [apply sanitize_whitespace_clean |]. split; [| split; [| split]].
  - intros s. split; [| apply sanitize_whitespace_fixed].
    intros <-. apply sanitize_whitespace_clean.
  - intros text. apply sanitize_whitespace_fixed, sanitize_whitespace_clean.
  - reflexivity.
  - intros pages. apply sanitize_whitespace_clean.
Qed.

(** ** [clamp_chars] *)

Lemma slice_to_length (max_chars : Z) (s : pystr) :
  (0 <= max_chars)%Z -> length (slice_to max_chars s) <= Z.to_nat max_chars.
Proof.
  intros H. unfold slice_to. destruct (Z.leb_spec 0 max_chars); [| lia].
  rewrite length_take. lia.
Qed.

(** X: [clamp_chars] cuts before it trims.  The result is trimmed, is a
    contiguous part of the text and, for a bound that is not negative,
    has at most [max_chars] characters; a text within the bound is just
    stripped; [None] gives the empty text. *)
Theorem clamp_chars_bound (text : pystr) (max_chars : Z) :
  trimmed (clamp_chars (Some text) max_chars)
  /\ (exists before after, text = before ++ clamp_chars (Some text) max_chars ++ after)
  /\ ((0 <= max_chars)%Z ->
        length (clamp_chars (Some text) max_chars) <= Z.to_nat max_chars)
  /\ ((Z.of_nat (length text) <= max_chars)%Z ->
        clamp_chars (Some text) max_chars = strip text)
  /\ clamp_chars None max_chars = [].
Proof.
  unfold clamp_chars. cbn [or_empty]. split; [apply strip_trimmed |].
  split; [| split; [| split]].
  - destruct (strip_part (slice_to max_chars text)) as (n & m & ->).
    assert (Hs : exists k, slice_to max_chars text = take k text)
      by (unfold slice_to; destruct (0 <=? max_chars)%Z; by eexists).
    destruct Hs as [k ->].
    exists (take n (take k text)), (drop m (drop n (take k text)) ++ drop k text).
    rewrite (app_assoc (take m _)), take_drop, (app_assoc (take n _)), take_drop.
    by rewrite take_drop.
  - intros H. destruct (strip_part (slice_to max_chars text)) as (n & m & ->).
    pose proof (slice_to_length max_chars text H). rewrite length_take, length_drop. lia.
  - intros H. unfold slice_to. destruct (Z.leb_spec 0 max_chars); [| lia].
    by rewrite firstn_all2 by lia.
  - unfold slice_to. destruct (0 <=? max_chars)%Z; by rewrite take_nil.
Qed.

(** ** Upgrades and the decision *)

Lemma decide_ui_rank (report : FitReport) :
  decision_rank (decide_ui report)
  = if (75 <=? fit_score report)%Z then
      if ((0 <? length (filter (has_status Missing) (must_have_match report)))
          || existsb (fun g => bool_decide (impact g = High)) (gaps report))%bool
      then 1 else 2
    else if (55 <=? fit_score report)%Z then 1 else 0.
Proof.
  unfold decide_ui.
  destruct (75 <=? fit_score report)%Z;
    [destruct (_ || _)%bool | destruct (55 <=? fit_score report)%Z]; reflexivity.
Qed.

Lemma upgrade_one_missing (l l' : list MatchItem) :
  upgrade_one l l' -> Exists (has_status Missing) l' -> Exists (has_status Missing) l.
Proof.
  intros [pre it st post Hst]. rewrite !Exists_app, !Exists_cons.
  intros [H | [H | H]]; [tauto | | tauto].
  unfold has_status in H. simpl in H. subst st. inversion Hst.
Qed.

(** The rank grows with the score and when the last missing must-have
    goes. *)
Lemma decision_rank_mono (r r' : FitReport) :
  (fit_score r <= fit_score r')%Z ->
  (Exists (has_status Missing) (must_have_match r')
   -> Exists (has_status Missing) (must_have_match r)) ->
  gaps r' = gaps r ->
  decision_rank (decide_ui r) <= decision_rank (decide_ui r').
Proof.
  intros Hs Hm Hg. rewrite !decide_ui_rank, Hg.
  pose proof (has_missing_must_iff (must_have_match r)) as Hr.
  pose proof (has_missing_must_iff (must_have_match r')) as Hr'.
  destruct (0 <? length (filter (has_status Missing) (must_have_match r))) eqn:E;
    destruct (0 <? length (filter (has_status Missing) (must_have_match r'))) eqn:E';
    destruct (existsb _ (gaps r));
    destruct (Z.leb_spec 75 (fit_score r)); destruct (Z.leb_spec 75 (fit_score r'));
    destruct (Z.leb_spec 55 (fit_score r)); destruct (Z.leb_spec 55 (fit_score r'));
    cbn [orb]; try lia.
  all: exfalso; assert (Hx : false = true) by (apply Hr, Hm, Hr'; reflexivity); discriminate.
Qed.

(** X: an upgrade never worsens the decision.  Take two stage-1 results
    with the same gaps, the second with one item of one list upgraded
    (missing to partial, partial to match or missing to match).  The
    decision on the report [process_job] writes for the second is the same
    or better (NO, then MAYBE, then YES).  In exact arithmetic for all
    lists, in binary64 for lists of at most 15 items. *)
Theorem upgrade_never_worsens_decision (fit_core fit_core' : FitCore)
    (stage2 : result FitSuggestions)
    (Hup : (upgrade_one (core_must_have_match fit_core) (core_must_have_match fit_core')
            /\ core_nice_to_have_match fit_core' = core_nice_to_have_match fit_core)
           \/ (core_must_have_match fit_core' = core_must_have_match fit_core
               /\ upgrade_one (core_nice_to_have_match fit_core)
                    (core_nice_to_have_match fit_core')))
    (Hgaps : core_gaps fit_core' = core_gaps fit_core) :
  decision_rank (decide_ui (report_of (F := Q) fit_core stage2))
  <= decision_rank (decide_ui (report_of (F := Q) fit_core' stage2))
  /\ (length (core_must_have_match fit_core) <= 15 ->
      length (core_nice_to_have_match fit_core) <= 15 ->
      decision_rank (decide_ui (report_of (F := float) fit_core stage2))
      <= decision_rank (decide_ui (report_of (F := float) fit_core' stage2))).
Proof.
  assert (Hmiss : Exists (has_status Missing) (core_must_have_match fit_core')
                  -> Exists (has_status Missing) (core_must_have_match fit_core)).
  { destruct Hup as [[Hu _] | [-> _]]; [by apply upgrade_one_missing | done]. }
  split.
  - apply decision_rank_mono; [| exact Hmiss | exact Hgaps].
    cbn [report_of merge_final_report fit_score].
    destruct Hup as [[Hu ->] | [-> Hu]]; apply compute_fit_score_mono.
    + apply section_reference_upgrade; [done | exact Hu].
    + apply Qle_refl.
    + apply Qle_refl.
    + apply section_reference_upgrade; [done | exact Hu].
  - intros Hm Hn. apply decision_rank_mono; [| exact Hmiss | exact Hgaps].
    cbn [report_of merge_final_report fit_score].
    apply compute_fit_score_binary64_mono; [exact Hm | exact Hn |].
    destruct Hup as [[Hu Heq] | [Heq Hu]]; [left | right]; by split.
Qed.

Lemma upgrade_never_worsens_decision_witness :
  decision_rank (decide_ui (report_of (F := float) demo_core (Return demo_suggestions)))
  <= decision_rank (decide_ui (report_of (F := float) demo_core_upgraded
                                 (Return demo_suggestions))).
Proof.
  refine (proj2 (upgrade_never_worsens_decision demo_core demo_core_upgraded
                   (Return demo_suggestions) _ eq_refl) _ _);
    [| simpl; lia | simpl; lia].
  left. split; [| reflexivity].
  exact (upgrade_at [ {| requirement := lit "Python"; status := Match; evidence := [] |} ]
           {| requirement := lit "Docker"; status := Partial; evidence := [] |} Match
           [ {| requirement := lit "Kubernetes"; status := Missing; evidence := [] |} ]
           up_partial_match).
Defined.

(** ** Sections and templates *)

(** X: stored sections are stable.  The five allowed sections are exactly
    the strings [normalize_section] returns unchanged, so validating a
    section that was already validated changes nothing; and whitespace
    around the raw value never matters. *)
Theorem normalize_section_stable :
  (forall s : pystr, normalize_section (PyStr s) = s <-> s ∈ ALLOWED_SECTIONS)
  /\ (forall v : pyval,
        normalize_section (PyStr (normalize_section v)) = normalize_section v)
  /\ (forall s : pystr, normalize_section (PyStr (strip s)) = normalize_section (PyStr s)).
Proof.
  assert (Hfix : forall s, s ∈ ALLOWED_SECTIONS -> normalize_section (PyStr s) = s).
  { intros s Hs. apply ALLOWED_SECTIONS_spec in Hs.
    destruct Hs as [-> | [-> | [-> | [-> | ->]]]]; vm_compute; reflexivity. }
  split; [| split].
  - intros s. split; [| apply Hfix]. intros <-. apply normalize_section_in.
  - intros v. apply Hfix, normalize_section_in.
  - intros s. cbn [normalize_section].
    by rewrite (strip_fixed (strip s) (strip_trimmed s)).
Qed.

Lemma starts_with_refl (s : pystr) : starts_with s s = true.
Proof. induction s as [|c s IH]; [reflexivity |]. cbn [starts_with]. by rewrite N.eqb_refl. Qed.

Lemma replace_from_skip_all (old new s : pystr) :
  replace_from old new s (length s) = [].
Proof. induction s as [|c s IH]; [reflexivity |]. exact IH. Qed.

Lemma replace_whole (old new : pystr) : old <> [] -> replace old new old = new.
Proof.
  intros Hne. destruct old as [|c old]; [done |].
  unfold replace. cbn [replace_from]. rewrite starts_with_refl.
  replace (length (c :: old) - 1) with (length old) by (simpl; lia).
  rewrite replace_from_skip_all. apply app_nil_r.
Qed.

Lemma placeholder_head (k : pystr) : head (lit "{{" ++ k ++ lit "}}") = Some 123%N.
Proof. reflexivity. Qed.

(** X: how [render_template_file] fills a template.  The keys are
    substituted one after another, each over the whole text as it then
    stands: rendering with two lists of values in a row is rendering with
    their concatenation.  So a template without an opening brace comes back
    unchanged, and a placeholder that arrives inside an inserted value is
    itself filled by a later key -- which [html_escape] does not prevent,
    since it leaves braces alone. *)
Theorem render_template_passes (k1 k2 v2 : pystr) :
  (forall tpl vs1 vs2,
      render_template tpl (vs1 ++ vs2) = render_template (render_template tpl vs1) vs2)
  /\ (forall tpl vs, 123%N ∉ tpl -> render_template tpl vs = tpl)
  /\ render_template (lit "{{" ++ k1 ++ lit "}}")
       [(k1, lit "{{" ++ k2 ++ lit "}}"); (k2, v2)] = v2
  /\ (Forall (fun c => ~ markup_char c /\ c <> amp) k2 ->
      render_template (lit "{{" ++ k1 ++ lit "}}")
        [(k1, html_escape (Some (lit "{{" ++ k2 ++ lit "}}"))); (k2, v2)] = v2).
Proof.
  split; [| split; [| split]].
  - intros tpl vs1 vs2. unfold render_template. apply fold_left_app.
  - intros tpl vs Htpl. unfold render_template. induction vs as [|[k v] vs IH]; [reflexivity |].
    cbn [fold_left fst snd].
    by rewrite (replace_absent_head _ v tpl 123%N (placeholder_head k) Htpl).
  - unfold render_template. cbn [fold_left fst snd].
    rewrite replace_whole by done. by apply replace_whole.
  - intros Hk. assert (Hesc : html_escape (Some (lit "{{" ++ k2 ++ lit "}}"))
                              = lit "{{" ++ k2 ++ lit "}}").
    { rewrite html_escape_single_pass. cbn [or_empty]. apply escaped_fixed.
      repeat (apply Forall_app; split); try exact Hk;
        repeat constructor; unfold markup_char; intros H; vm_compute in H;
        intuition discriminate. }
    rewrite Hesc. unfold render_template. cbn [fold_left fst snd].
    rewrite replace_whole by done. by apply replace_whole.
Qed.

Lemma render_template_passes_witness :
  render_template (lit "{{summary}}")
    [(lit "summary", html_escape (Some (lit "{{final_note}}"))); (lit "final_note", lit "!")]
  = lit "!".
Proof.
  refine (proj2 (proj2 (proj2 (render_template_passes (lit "summary") (lit "final_note")
                                 (lit "!")))) _).
  repeat constructor; unfold markup_char; intros H; vm_compute in H; intuition discriminate.
Defined.

(** ** The upload, and the job it starts *)

Section UploadFacts.
Context `{E : Externals} {F : Type} `{AF : Arith F} `{L : WebLibraries}.
Variables PROJECT_ROOT TEMPLATES_DIR : pystr.
Variables SYSTEM_PROMPT_CORE USER_TEMPLATE_CORE : pystr.
Variables SYSTEM_PROMPT_SUGG USER_TEMPLATE_SUGG : pystr.

(** [upload], outcome by outcome. *)
Lemma upload_run (job_id : pystr) (cv : UploadFile) (job_url : pystr) (w : world) :
  let wait := RedirectResponse (wait_url job_id) 303 in
  let w0 := fst (set_status job_id (lit "UPLOADED") None [] w) in
  let failed msg w' := fst (set_status job_id (lit "ERROR") (Some msg) [] w') in
  upload PROJECT_ROOT job_id cv job_url w
  = match file_bytes cv with
    | [] => (failed (lit "File CV vuoto o non leggibile.") w0, Return (wait, None))
    | _ =>
        match cv_text_of cv with
        | Raise e => (w0, Raise e)
        | Return raw =>
            let cv_txt := sanitize_whitespace (Some raw) in
            let w1 := with_file (job_file PROJECT_ROOT job_id (lit "cv.txt")) cv_txt w0 in
            match strip job_url with
            | [] => (failed (lit "URL della posizione LinkedIn mancante.") w1,
                     Return (wait, None))
            | _ =>
                match requests_get_text (strip job_url) with
                | Raise e =>
                    (failed (lit "Errore nel recupero della pagina LinkedIn (fetch).")
                       (with_file (job_file PROJECT_ROOT job_id (lit "fetch_error.txt"))
                          (exn_msg e) w1),
                     Return (wait, None))
                | Return html =>
                    let w2 := with_file
                                (job_file PROJECT_ROOT job_id (lit "linkedin_job_raw.html"))
                                html w1 in
                    if looks_like_authwall (Some html)
                    then (failed (lit "LinkedIn ha restituito una pagina di login/authwall.")
                            w2,
                          Return (wait, None))
                    else (w2,
                          Return (wait,
                                  Some {| task_job_id := job_id;
                                          task_cv_txt := cv_txt;
                                          task_job_txt :=
                                            sanitize_whitespace
                                              (Some (extract_job_text_from_linkedin_html html));
                                          task_job_title :=
                                            extract_linkedin_job_title html |}))
                end
            end
        end
    end.
Proof.
  intros wait w0 failed. subst wait w0 failed. unfold cv_text_of.
  cbv beta iota zeta delta [upload mbind M_bind mret M_ret lift fetch_html try_except].
  destruct (file_bytes cv) as [|b bs]; [reflexivity |].
  cbv beta iota zeta.
  destruct (ends_with (lit ".pdf") (lower (or_empty (filename cv)))).
  - destruct (pdf_bytes_to_text (b :: bs)) as [e|raw]; [reflexivity |].
    cbv beta iota zeta.
    destruct (strip job_url) as [|c u]; [reflexivity |].
    cbv beta iota zeta.
    destruct (requests_get_text (c :: u)) as [e|html]; [reflexivity |].
    cbv beta iota zeta.
    destruct (looks_like_authwall (Some html)); reflexivity.
  - destruct (strip job_url) as [|c u]; [reflexivity |].
    cbv beta iota zeta.
    destruct (requests_get_text (c :: u)) as [e|html]; [reflexivity |].
    cbv beta iota zeta.
    destruct (looks_like_authwall (Some html)); reflexivity.
Qed.


(** X: from the upload to a settled job.  When [upload] returns and the
    task it handed over, if any, has run, the job is DONE or in ERROR: it
    is never left UPLOADED or RUNNING.  No other job has changed. *)
Theorem upload_then_task_settles (job_id : pystr) (cv : UploadFile) (job_url : pystr)
    (w w1 : world) (resp : response) (task : option Task)
    (Hup : upload PROJECT_ROOT job_id cv job_url w = (w1, Return (resp, task))) :
  let w2 :=
    match task with
    | Some t =>
        fst (run_job PROJECT_ROOT TEMPLATES_DIR
               SYSTEM_PROMPT_CORE USER_TEMPLATE_CORE SYSTEM_PROMPT_SUGG USER_TEMPLATE_SUGG
               (task_job_id t) (task_cv_txt t) (task_job_txt t) (task_job_title t) w1)
    | None => w1
    end in
  resp = RedirectResponse (lit "/wait/" ++ job_id) 303
  /\ exists r, job_table w2 = <[job_id := r]> (job_table w)
               /\ (js_status r = lit "DONE" \/ js_status r = lit "ERROR").
Proof.
  intros w2. subst w2. rewrite upload_run in Hup. cbv zeta in Hup.
  assert (Hstop : forall (r : JobRecord) (tbl : gmap pystr JobRecord),
             js_status r = lit "ERROR" ->
             exists r', <[job_id := r]> (<[job_id := job_uploaded]> tbl) = <[job_id := r']> tbl
                        /\ (js_status r' = lit "DONE" \/ js_status r' = lit "ERROR")).
  { intros r tbl Hr. exists r. split; [apply insert_insert_eq | by right]. }
  destruct (file_bytes cv) as [|b bs].
  { injection Hup as <- <- <-. split; [reflexivity |]. by apply Hstop. }
  destruct (cv_text_of cv) as [e|raw]; [discriminate |].
  destruct (strip job_url) as [|c u].
  { injection Hup as <- <- <-. split; [reflexivity |]. by apply Hstop. }
  destruct (requests_get_text (c :: u)) as [e|html].
  { injection Hup as <- <- <-. split; [reflexivity |]. by apply Hstop. }
  destruct (looks_like_authwall (Some html)).
  { injection Hup as <- <- <-. split; [reflexivity |]. by apply Hstop. }
  injection Hup as <- <- <-. split; [reflexivity |]. cbn [task_job_id task_cv_txt task_job_txt task_job_title].
  match goal with |- context [run_job _ _ _ _ _ _ _ ?a ?b ?c ?w0] =>
    destruct (run_job_table PROJECT_ROOT TEMPLATES_DIR job_id
                SYSTEM_PROMPT_CORE USER_TEMPLATE_CORE SYSTEM_PROMPT_SUGG USER_TEMPLATE_SUGG
                a b c w0) as [_ Htbl] end.
  eexists. split.
  - rewrite Htbl. cbn [with_file write_text set_status fst job_table].
    apply insert_insert_eq.
  - destruct (snd (process_job _ _ _ _ _ _ _ _ _ _ _)); [by right | by left].
Qed.
End UploadFacts.

(** A text file and a page that is no login wall: the task runs and the
    job ends DONE. *)
Lemma upload_then_task_settles_witness :
  let w := demo_world [Return demo_reply_core; Return demo_reply_sugg] in
  let cv := {| file_bytes := lit "python  docker"; filename := Some (lit "cv.txt") |} in
  exists (w1 : world) (t : Task) (r : JobRecord),
    upload (L := demo_web (Return (lit "Data engineer"))) (lit "r") (lit "j") cv
      (lit " https://example.org/job ") w
    = (w1, Return (RedirectResponse (lit "/wait/j") 303, Some t))
    /\ job_table
         (fst (run_job (E := demo_externals) (F := float) (lit "r") (lit "t")
                 (lit "sys1") (lit "usr1") (lit "sys2") (lit "usr2")
                 (task_job_id t) (task_cv_txt t) (task_job_txt t) (task_job_title t) w1))
       = <[lit "j" := r]> (job_table w)
    /\ (js_status r = lit "DONE" \/ js_status r = lit "ERROR").
Proof.
  intros w cv.
  eassert (Hup : upload (L := demo_web (Return (lit "Data engineer"))) (lit "r") (lit "j") cv
                   (lit " https://example.org/job ") w
                 = (_, Return (_, Some _))) by (vm_compute; reflexivity).
  destruct (upload_then_task_settles (E := demo_externals) (F := float)
              (L := demo_web (Return (lit "Data engineer")))
              (lit "r") (lit "t") (lit "sys1") (lit "usr1") (lit "sys2") (lit "usr2")
              (lit "j") cv (lit " https://example.org/job ") w _ _ _ Hup)
    as (Hresp & r & Htbl & Hr).
  eexists _, _, r. split; [| split; [exact Htbl | exact Hr]].
  rewrite Hup. rewrite Hresp. reflexivity.
Defined.

(** ** [remove_show_more_less] *)

Lemma splitlines_line_end (l rest : pystr) :
  Forall (fun c => is_linebreak c = false) l ->
  splitlines (l ++ 10%N :: rest) = l :: splitlines rest.
Proof.
  induction 1 as [|c l Hc _ IH]; [reflexivity |].
  cbn [app splitlines]. by rewrite Hc, IH.
Qed.

Lemma splitlines_single (l : pystr) :
  Forall (fun c => is_linebreak c = false) l -> l <> [] -> splitlines l = [l].
Proof.
  induction 1 as [|c l Hc Hl IH]; [done |]. intros _.
  cbn [splitlines]. rewrite Hc. destruct l as [|d l]; [reflexivity |].
  by rewrite IH.
Qed.

Lemma splitlines_join (lines : list pystr) :
  Forall (fun l => l <> [] /\ Forall (fun c => is_linebreak c = false) l) lines ->
  splitlines (join [nl] lines) = lines.
Proof.
  induction 1 as [|p lines [Hne Hp] Hlines IH]; [reflexivity |].
  destruct lines as [|q lines]; [by apply splitlines_single |].
  change (join [nl] (p :: q :: lines)) with (p ++ 10%N :: join [nl] (q :: lines)).
  by rewrite splitlines_line_end, IH.
Qed.

Lemma splitlines_no_break (s : pystr) :
  Forall (Forall (fun c => is_linebreak c = false)) (splitlines s).
Proof.
  remember (length s) as n eqn:Hn. revert s Hn.
  induction n as [n IH] using lt_wf_ind. intros s Hn.
  destruct s as [|c s]; [constructor |]. cbn [splitlines].
  assert (Hs : Forall (Forall (fun c => is_linebreak c = false)) (splitlines s)).
  { apply (IH (length s)); [simpl in Hn; lia | reflexivity]. }
  destruct (is_linebreak c) eqn:Hc.
  - constructor; [constructor |].
    destruct (N.eqb c 13); [| exact Hs].
    destruct s as [|d s]; [exact Hs |]. destruct (N.eqb d 10); [| exact Hs].
    apply (IH (length s)); [simpl in Hn; lia | reflexivity].
  - destruct (splitlines s) as [|line lines]; [by repeat constructor |].
    inversion Hs; subst. constructor; [by constructor | assumption].
Qed.

(** X: the lines [remove_show_more_less] keeps.  The result is the kept
    lines joined by newlines; each kept line is non-empty, has no
    whitespace at either end and no line boundary inside, and is neither
    "show more" nor "show less" in any letter case; splitting the result
    gives the kept lines back, and removing twice is removing once. *)
Theorem remove_show_more_less_lines (text : option pystr) :
  let kept := filter kept_line (map strip (splitlines (or_empty text))) in
  remove_show_more_less text = join [nl] kept
  /\ Forall (fun l => kept_line l /\ trimmed l
                      /\ Forall (fun c => is_linebreak c = false) l) kept
  /\ splitlines (remove_show_more_less text) = kept
  /\ remove_show_more_less (Some (remove_show_more_less text)) = remove_show_more_less text.
Proof.
  intros kept.
  assert (Hkept : Forall (fun l => kept_line l /\ trimmed l
                                   /\ Forall (fun c => is_linebreak c = false) l) kept).
  { apply Forall_forall. intros l Hl. apply list_elem_of_filter in Hl as [Hk Hl].
    apply list_elem_of_In, in_map_iff in Hl as (x & <- & Hx). apply list_elem_of_In in Hx.
    split; [exact Hk |]. split; [apply strip_trimmed |].
    pose proof (splitlines_no_break (or_empty text)) as Hnb.
    rewrite Forall_forall in Hnb. specialize (Hnb x Hx). rewrite Forall_forall in Hnb.
    apply Forall_forall. intros c Hc. by apply Hnb, strip_elem. }
  assert (Hsplit : splitlines (join [nl] kept) = kept).
  { apply splitlines_join. eapply Forall_impl; [exact Hkept |].
    intros l ((Hne & _) & _ & Hnb). by split. }
  split; [reflexivity |]. split; [exact Hkept |]. split; [exact Hsplit |].
  unfold remove_show_more_less at 1. cbn [or_empty].
  change (remove_show_more_less text) with (join [nl] kept). rewrite Hsplit.
  assert (Hstrip : map strip kept = kept).
  { clear Hsplit. induction Hkept as [|l ls (_ & Ht & _) _ IH]; [reflexivity |].
    cbn [map]. by rewrite (strip_fixed l Ht), IH. }
  rewrite Hstrip. f_equal. apply filter_all.
  eapply Forall_impl; [exact Hkept |]. by intros l [Hk _].
Qed.

(** ** [normalize_spaced_text] is a projection *)

Lemma re_findall_from_skip (r : regex) (s : pystr) (k : nat) :
  re_findall_from r s k = re_findall_from r (drop k s) 0.
Proof.
  revert k. induction s as [|c s IH]; intros k.
  - by rewrite drop_nil.
  - destruct k as [|k]; [reflexivity |]. simpl. apply IH.
Qed.

Lemma re_findall_step (r : regex) (c : char) (s : pystr) :
  re_findall r (c :: s)
  = match match_here r (c :: s) with
    | Some ps =>
        match length (concat ps) with
        | S k => concat ps :: re_findall r (drop k s)
        | 0 => re_findall r s
        end
    | None => re_findall r s
    end.
Proof.
  unfold re_findall. cbn [re_findall_from].
  destruct (match_here r (c :: s)) as [ps|]; [| reflexivity].
  destruct (length (concat ps)); [reflexivity |]. by rewrite re_findall_from_skip.
Qed.

(** *** The pairs, counted in one pass *)

Lemma count_pairs_space (st : pair_state) (c : char) (s : pystr) :
  is_space c = true ->
  count_pairs st (c :: s)
  = count_pairs (match st with Idle => Idle | _ => InGap end) s.
Proof.
  intros Hc. cbn [count_pairs]. rewrite (space_not_alnum c Hc), Hc. by destruct st.
Qed.

Lemma count_pairs_skip (st : pair_state) (s : pystr) :
  st <> AfterAlnum -> count_pairs st s = count_pairs st (drop (span_len is_space s) s).
Proof.
  intros Hst. induction s as [|c s IH]; [reflexivity |].
  destruct (is_space c) eqn:Hc.
  - rewrite (span_len_cons_true _ _ _ Hc), (count_pairs_space _ _ _ Hc). cbn [drop].
    rewrite <- IH. by destruct st.
  - by rewrite (span_len_cons_false _ _ _ Hc).
Qed.

Lemma count_pairs_no_pair (s : pystr) :
  ((1 <=? span_len is_space s) && spaces_then is_alnum s)%bool = false ->
  count_pairs AfterAlnum s = count_pairs Idle s.
Proof.
  intros H. destruct s as [|c s]; [reflexivity |].
  destruct (is_space c) eqn:Hc.
  - rewrite (span_len_cons_true _ _ _ Hc) in H. cbn [Nat.leb andb] in H.
    rewrite (spaces_then_cons_space _ _ _ Hc) in H.
    rewrite !(count_pairs_space _ _ _ Hc).
    rewrite (count_pairs_skip InGap s), (count_pairs_skip Idle s) by done.
    unfold spaces_then, after_spaces in H.
    pose proof (span_len_drop is_space s) as Hd.
    destruct (drop (span_len is_space s) s) as [|d t]; [reflexivity |].
    cbn [head] in H. cbn [count_pairs]. by rewrite H, Hd.
  - cbn [count_pairs]. rewrite Hc. by destruct (is_alnum c).
Qed.

Lemma count_pairs_pair (s : pystr) (d : char) (t : pystr) :
  1 <= span_len is_space s -> drop (span_len is_space s) s = d :: t -> is_alnum d = true ->
  count_pairs AfterAlnum s = S (count_pairs Idle t).
Proof.
  intros Hm Hd Had. destruct s as [|c s]; [simpl in Hm; lia |].
  destruct (is_space c) eqn:Hc; [| rewrite (span_len_cons_false _ _ _ Hc) in Hm; lia].
  rewrite (span_len_cons_true _ _ _ Hc) in Hd. cbn [drop] in Hd.
  rewrite (count_pairs_space _ _ _ Hc), (count_pairs_skip InGap s), Hd by done.
  cbn [count_pairs]. by rewrite Had.
Qed.

Lemma findall_pairs_count (s : pystr) :
  length (re_findall re_pair s) = count_pairs Idle s.
Proof.
  remember (length s) as n eqn:Hn. revert s Hn.
  induction n as [n IH] using lt_wf_ind. intros s Hn.
  destruct s as [|c s]; [reflexivity |].
  rewrite re_findall_step. unfold re_pair at 1.
  rewrite match_one_many_one by apply space_not_alnum.
  assert (Hnext : length (re_findall re_pair s) = count_pairs Idle s).
  { apply (IH (length s)); [simpl in Hn; lia | reflexivity]. }
  destruct (is_alnum c) eqn:Hc.
  - cbn [andb count_pairs]. rewrite Hc.
    set (m := span_len is_space s).
    assert (Hm : m <= length s) by apply span_len_le.
    destruct (Nat.leb_spec 1 m) as [H1 | H1].
    + destruct (drop m s) as [|d t] eqn:Hd.
      * rewrite Hnext. symmetry. apply count_pairs_no_pair. fold m.
        unfold spaces_then, after_spaces. fold m. rewrite Hd. by rewrite andb_false_r.
      * destruct (is_alnum d) eqn:Had.
        -- cbn [concat]. rewrite app_nil_r, length_app, length_app, length_take. cbn [length].
           replace (1 + (m `min` length s + 1)) with (S (S m)) by lia. cbn [length].
           rewrite (count_pairs_pair s d t H1 Hd Had). f_equal.
           replace (drop (S m) s) with t
             by (rewrite <- Nat.add_1_r, <- drop_drop; fold m; by rewrite Hd).
           apply (IH (length t)); [| reflexivity].
           apply (f_equal length) in Hd. rewrite length_drop in Hd. simpl in *. lia.
        -- rewrite Hnext. symmetry. apply count_pairs_no_pair. fold m.
           unfold spaces_then, after_spaces. fold m. rewrite Hd. cbn [head].
           by rewrite Had, andb_false_r.
    + rewrite Hnext. symmetry. apply count_pairs_no_pair. fold m.
      destruct (Nat.leb_spec 1 m); [lia | reflexivity].
  - cbn [andb count_pairs]. rewrite Hc, Hnext. by destruct (is_space c).
Qed.

(** *** Collapsing keeps the count, deleting brings it to nothing *)

Lemma count_pairs_collapse (s : pystr) :
  (forall st, count_pairs st (collapse_runs false s) = count_pairs st s)
  /\ (forall st, st <> AfterAlnum -> count_pairs st (collapse_runs true s) = count_pairs st s).
Proof.
  induction s as [|c s [IHf IHt]]; [by split |].
  assert (H32 : is_space 32%N = true) by reflexivity.
  destruct (is_space c) eqn:Hc.
  - split.
    + intros st. destruct s as [|d s].
      * cbn [collapse_runs]. by rewrite Hc.
      * destruct (is_space d) eqn:Hd.
        -- rewrite (collapse_runs_space_space _ _ _ Hc Hd).
           rewrite (count_pairs_space _ _ _ H32), (count_pairs_space _ _ _ Hc).
           apply IHt. by destruct st.
        -- rewrite (collapse_runs_space_other _ _ _ Hc Hd).
           rewrite !(count_pairs_space _ _ _ Hc). apply IHf.
    + intros st Hst. cbn [collapse_runs]. rewrite Hc.
      rewrite (count_pairs_space _ _ _ Hc), IHt by done. by destruct st.
  - split; intros st; [| intros _]; rewrite (collapse_runs_nonspace _ _ _ Hc);
      cbn [count_pairs]; rewrite Hc; destruct (is_alnum c); destruct st; by rewrite IHf.
Qed.

Lemma count_pairs_delete (s : pystr) (b : bool) (st : pair_state) :
  match st with
  | Idle => b = false
  | AfterAlnum => b = true
  | InGap => b = false /\ spaces_then is_alnum s = false
  end ->
  count_pairs st (delete_runs_between_alnum b s) = 0.
Proof.
  revert b st. induction s as [|c s IH]; intros b st Hrel; [reflexivity |].
  cbn [delete_runs_between_alnum].
  destruct (is_space c && b && spaces_then is_alnum s)%bool eqn:Hdel.
  - apply andb_prop in Hdel as [Hcb _]. apply andb_prop in Hcb as [_ ->].
    apply IH. destruct st; [discriminate | reflexivity | by destruct Hrel].
  - destruct (is_alnum c) eqn:Ha.
    + cbn [count_pairs]. rewrite Ha. destruct st.
      * by apply IH.
      * by apply IH.
      * destruct Hrel as [_ Hs]. unfold spaces_then, after_spaces in Hs.
        assert (Hns : is_space c = false).
        { destruct (is_space c) eqn:Hc; [| reflexivity].
          by rewrite (space_not_alnum c Hc) in Ha. }
        rewrite (span_len_cons_false _ _ _ Hns) in Hs. cbn [drop head] in Hs. congruence.
    + destruct (is_space c) eqn:Hc.
      * rewrite (count_pairs_space _ _ _ Hc). apply IH. destruct st.
        -- reflexivity.
        -- subst b. cbn [andb] in Hdel. by split.
        -- destruct Hrel as [_ Hs]. rewrite (spaces_then_cons_space _ _ _ Hc) in Hs. by split.
      * cbn [count_pairs]. rewrite Ha, Hc. by apply IH.
Qed.

(** *** Trimmed text stays trimmed, collapsed text stays as it is *)

Lemma last_cons_cons {A} (x y : A) (l : list A) : last (x :: y :: l) = last (y :: l).
Proof. reflexivity. Qed.

Lemma collapse_runs_last (b : bool) (s : pystr) (c : char) :
  last s = Some c -> is_space c = false -> last (collapse_runs b s) = Some c.
Proof.
  revert b. induction s as [|x s IH]; intros b Hl Hc; [done |].
  destruct s as [|y s].
  - injection Hl as ->. rewrite (collapse_runs_nonspace _ _ _ Hc). reflexivity.
  - rewrite last_cons_cons in Hl.
    assert (Hkeep : forall z b', last (z :: collapse_runs b' (y :: s)) = Some c).
    { intros z b'. specialize (IH b' Hl Hc).
      destruct (collapse_runs b' (y :: s)); [done | exact IH]. }
    destruct (is_space x) eqn:Hx.
    + destruct b.
      * replace (collapse_runs true (x :: y :: s)) with (collapse_runs true (y :: s))
          by (cbn [collapse_runs]; by rewrite Hx).
        by apply IH.
      * destruct (is_space y) eqn:Hy.
        -- rewrite (collapse_runs_space_space _ _ _ Hx Hy). apply Hkeep.
        -- rewrite (collapse_runs_space_other _ _ _ Hx Hy). apply Hkeep.
    + rewrite (collapse_runs_nonspace _ _ _ Hx). apply Hkeep.
Qed.

Lemma delete_runs_last (b : bool) (s : pystr) (c : char) :
  last s = Some c -> is_space c = false ->
  last (delete_runs_between_alnum b s) = Some c.
Proof.
  revert b. induction s as [|x s IH]; intros b Hl Hc; [done |].
  destruct s as [|y s].
  - injection Hl as ->. cbn [delete_runs_between_alnum]. by rewrite Hc.
  - rewrite last_cons_cons in Hl.
    change (delete_runs_between_alnum b (x :: y :: s))
      with (if (is_space x && b && spaces_then is_alnum (y :: s))%bool
            then delete_runs_between_alnum true (y :: s)
            else x :: delete_runs_between_alnum (is_alnum x) (y :: s)).
    destruct (is_space x && b && spaces_then is_alnum (y :: s))%bool; [by apply IH |].
    specialize (IH (is_alnum x) Hl Hc).
    destruct (delete_runs_between_alnum (is_alnum x) (y :: s)); [done | exact IH].
Qed.

Lemma trimmed_cons (c : char) (s : pystr) :
  trimmed (c :: s) -> is_space c = false /\ exists d, last (c :: s) = Some d /\ is_space d = false.
Proof.
  intros [Hh Hl]. split; [by apply Hh |].
  destruct (last (c :: s)) as [d|] eqn:Hd.
  - exists d. split; [reflexivity | by apply Hl].
  - by destruct s using rev_ind; [| rewrite app_comm_cons, last_snoc in Hd].
Qed.

Lemma collapse_runs_trimmed (c : char) (s : pystr) :
  trimmed (c :: s) ->
  exists s', collapse_runs false (c :: s) = c :: s' /\ trimmed (c :: s').
Proof.
  intros Ht. destruct (trimmed_cons c s Ht) as [Hc (d & Hd & Hds)].
  rewrite (collapse_runs_nonspace _ _ _ Hc). eexists. split; [reflexivity |].
  pose proof (collapse_runs_last false (c :: s) d Hd Hds) as Hl.
  rewrite (collapse_runs_nonspace _ _ _ Hc) in Hl.
  split; intros x Hx.
  - injection Hx as <-. exact Hc.
  - rewrite Hl in Hx. by injection Hx as <-.
Qed.

Lemma delete_runs_trimmed (c : char) (s : pystr) :
  trimmed (c :: s) ->
  exists s', delete_runs_between_alnum false (c :: s) = c :: s' /\ trimmed (c :: s').
Proof.
  intros Ht. destruct (trimmed_cons c s Ht) as [Hc (d & Hd & Hds)].
  pose proof (delete_runs_last false (c :: s) d Hd Hds) as Hl.
  cbn [delete_runs_between_alnum] in *. rewrite Hc in *. cbn [andb] in *.
  eexists. split; [reflexivity |].
  split; intros x Hx.
  - injection Hx as <-. exact Hc.
  - rewrite Hl in Hx. by injection Hx as <-.
Qed.

Lemma collapse_runs_single (b : bool) (s : pystr) :
  double_space (collapse_runs b s) = false
  /\ (b = true -> forall c, head (collapse_runs b s) = Some c -> is_space c = false).
Proof.
  revert b. induction s as [|c s IH]; intros b; [by split |].
  destruct (is_space c) eqn:Hc.
  - destruct b.
    + cbn [collapse_runs]. rewrite Hc. apply IH.
    + split; [| intros [=]].
      destruct s as [|d s].
      { cbn [collapse_runs]. rewrite Hc. cbn [double_space]. by rewrite andb_false_r. }
      destruct (is_space d) eqn:Hd.
      * rewrite (collapse_runs_space_space _ _ _ Hc Hd).
        destruct (IH true) as [IH1 IH2]. cbn [double_space]. rewrite IH1, orb_false_r.
        destruct (collapse_runs true (d :: s)) as [|x t]; [reflexivity |].
        rewrite (IH2 eq_refl x eq_refl). reflexivity.
      * rewrite (collapse_runs_space_other _ _ _ Hc Hd).
        destruct (IH false) as [IH1 _]. cbn [double_space]. rewrite IH1, orb_false_r.
        rewrite (collapse_runs_nonspace _ _ _ Hd). by rewrite Hd, andb_false_r.
  - rewrite (collapse_runs_nonspace _ _ _ Hc). destruct (IH false) as [IH1 _]. split.
    + cbn [double_space]. by rewrite Hc, IH1.
    + intros _ x [= <-]. exact Hc.
Qed.

Lemma collapse_runs_fixed (s : pystr) : double_space s = false -> collapse_runs false s = s.
Proof.
  induction s as [|c s IH]; [reflexivity |]. cbn [double_space]. intros H.
  apply orb_false_elim in H as [Hc Hs]. specialize (IH Hs).
  destruct (is_space c) eqn:Hsp.
  - destruct s as [|d s]; [cbn [collapse_runs]; by rewrite Hsp |]. cbn [andb] in Hc.
    rewrite (collapse_runs_space_other _ _ _ Hsp Hc). by rewrite IH.
  - rewrite (collapse_runs_nonspace _ _ _ Hsp). by rewrite IH.
Qed.

(** Normalizing text that is trimmed, collapsed and has fewer than 25
    pairs changes nothing. *)
Lemma normalize_spaced_text_fixed (r : pystr) :
  trimmed r -> double_space r = false -> count_pairs Idle r < 25 ->
  normalize_spaced_text (Some r) = r.
Proof.
  intros Ht Hd Hp. rewrite normalize_spaced_text_reference. unfold normalize_with.
  cbn [or_empty]. rewrite (strip_fixed r Ht). destruct r as [|c r]; [reflexivity |].
  rewrite findall_pairs_count. destruct (Nat.ltb_spec (count_pairs Idle (c :: r)) 25); [| lia].
  rewrite (collapse_runs_fixed _ Hd). by apply strip_fixed.
Qed.

(** X: normalizing once is enough.  The result of [normalize_spaced_text]
    is trimmed, has no two whitespace characters in a row and holds fewer
    than 25 spaced-out pairs (none at all when the spaced-out branch was
    taken); normalizing it again returns it unchanged.  The count of pairs
    the function acts on is the one a single left-to-right pass gives. *)
Theorem normalize_spaced_text_idempotent (text : option pystr) :
  let r := normalize_spaced_text text in
  trimmed r /\ double_space r = false
  /\ length (re_findall re_pair r) < 25
  /\ (25 <= length (re_findall re_pair (strip (or_empty text))) ->
      length (re_findall re_pair r) = 0)
  /\ normalize_spaced_text (Some r) = r.
Proof.
  intros r.
  assert (H : trimmed r /\ double_space r = false /\ count_pairs Idle r < 25
              /\ (25 <= count_pairs Idle (strip (or_empty text)) -> count_pairs Idle r = 0)).
  { subst r. rewrite normalize_spaced_text_reference. unfold normalize_with.
    pose proof (strip_trimmed (or_empty text)) as Ht.
    destruct (strip (or_empty text)) as [|c t] eqn:Hs.
    { split; [apply trimmed_nil |]. split; [reflexivity |]. split; simpl; lia. }
    rewrite findall_pairs_count.
    destruct (Nat.ltb_spec (count_pairs Idle (c :: t)) 25) as [Hlt | Hge].
    - destruct (collapse_runs_trimmed c t Ht) as (s' & Hc & Ht').
      pose proof (proj1 (collapse_runs_single false (c :: t))) as Hd.
      pose proof (proj1 (count_pairs_collapse (c :: t)) Idle) as Hn.
      rewrite Hc in *. rewrite (strip_fixed _ Ht').
      split; [exact Ht' |]. split; [exact Hd |]. split; [lia | lia].
    - destruct (delete_runs_trimmed c t Ht) as (s1 & Hdel & Ht1).
      pose proof (count_pairs_delete (c :: t) false Idle eq_refl) as H0.
      rewrite Hdel in *.
      destruct (collapse_runs_trimmed c s1 Ht1) as (s' & Hc & Ht').
      pose proof (proj1 (collapse_runs_single false (c :: s1))) as Hd.
      pose proof (proj1 (count_pairs_collapse (c :: s1)) Idle) as Hn.
      rewrite Hc in *. rewrite (strip_fixed _ Ht').
      split; [exact Ht' |]. split; [exact Hd |]. split; [lia | lia]. }
  destruct H as (Ht & Hd & Hp & Hz). rewrite !findall_pairs_count.
  split; [exact Ht |]. split; [exact Hd |]. split; [exact Hp |]. split; [exact Hz |].
  by apply normalize_spaced_text_fixed.
Qed.
